(** * unifi-cli: request building, pagination, site-id resolution,
      schema unfolding and the MCP server

    A shallow embedding of [src/execute.ts] ([resolveRequest],
    [executeCommand], [executeAllPages]), of [src/commands.ts] (the catalog
    [COMMANDS], [camelCase], [toolName]), of [src/schema.ts] ([resolveRef],
    [schemaName], [toJsonSchema], [describeSchema], [structuredProps],
    [getOperationBodyRef], [findOperation]) and of the MCP server
    ([resolveSiteId], [buildInputSchema], [toolMap] and the handlers of
    [ListTools], [CallTool] and [ReadResource]), followed by the properties
    of the specification that concern them and by further properties of
    the code. *)

From Stdlib Require Import ZArith QArith String Ascii List Bool Lia.
From Stdlib Require Import Numbers.DecimalString.
From Stdlib Require Import Sorted.
From Stdlib Require Numbers.DecimalZ.
From stdpp Require Import base option list strings gmap.

#[local] Set Warnings "-register-all".

Local Open Scope Z_scope.

(* ===================================================================== *)
(** ** JavaScript values and primitives                                  *)
(* ===================================================================== *)

(** A JavaScript number.  Only comparisons with an array length and
    [typeof] are performed on such numbers in the embedded code, so the
    finite ones are kept as exact rationals. *)
Inductive number : Type :=
| NaN
| PosInf
| NegInf
| Fin (q : Q).

(** Data values as produced by [JSON.parse], plus [undefined].  An object
    is the list of its own properties in insertion order.  Strings are
    sequences of 8-bit characters; the embedded code inspects ASCII
    characters only. *)
Inductive value : Type :=
| VUndef
| VNull
| VBool (b : bool)
| VNum (n : number)
| VStr (s : string)
| VArr (items : list value)
| VObj (fields : list (string * value)).

Inductive error : Type :=
| TypeError
| TransportError (response : value).

(** Outcome of an operation that may throw. *)
Inductive outcome (A : Type) : Type :=
| Ok (a : A)
| Throw (e : error).
Arguments Ok {A} a.
Arguments Throw {A} e.

Definition num_of_nat (n : nat) : number := Fin (inject_Z (Z.of_nat n)).

(** [len >= x] for an array length [len] and a number [x]. *)
Definition length_ge (len : nat) (x : number) : bool :=
  match x with
  | NaN => false
  | PosInf => false
  | NegInf => true
  | Fin q => Qle_bool q (inject_Z (Z.of_nat len))
  end.

(** [String(n)] for an integer [n]. *)
Definition js_String (n : Z) : string := NilZero.string_of_int (Z.to_int n).

(** Truthiness of a string ([""] is falsy). *)
Definition truthy_string (s : string) : bool :=
  match s with
  | EmptyString => false
  | String _ _ => true
  end.

(** Truthiness of an optional string property ([undefined] and [""] are
    falsy): the string when truthy. *)
Definition truthy_opt (o : option string) : option string :=
  match o with
  | Some s => if truthy_string s then Some s else None
  | None => None
  end.

Definition truthy (v : value) : bool :=
  match v with
  | VUndef | VNull => false
  | VBool b => b
  | VNum NaN => false
  | VNum (Fin q) => negb (Qeq_bool q 0)
  | VNum _ => true
  | VStr s => truthy_string s
  | VArr _ | VObj _ => true
  end.

Fixpoint own_prop (fields : list (string * value)) (k : string) : value :=
  match fields with
  | [] => VUndef
  | (k', v) :: rest => if String.eqb k' k then v else own_prop rest k
  end.

(** Property read [v.k].  It throws on [null] and [undefined]; on an object
    it gives the own property or [undefined]; on the other values it gives
    [undefined] (the keys read by the embedded code, [data], [totalCount],
    [id] and [internalReference], are not built-in properties of arrays,
    strings, numbers or booleans). *)
Definition get_prop (v : value) (k : string) : outcome value :=
  match v with
  | VUndef | VNull => Throw TypeError
  | VObj fields => Ok (own_prop fields k)
  | _ => Ok VUndef
  end.

Fixpoint drop_string (n : nat) (s : string) : string :=
  match n, s with
  | O, _ => s
  | S n', String _ s' => drop_string n' s'
  | S _, EmptyString => EmptyString
  end.

(** First occurrence of [pat] in [s]: the text before it and the text
    after it. *)
Fixpoint split_first (pat s : string) : option (string * string) :=
  if String.prefix pat s then Some (EmptyString, drop_string (String.length pat) s)
  else match s with
       | EmptyString => None
       | String c s' =>
           match split_first pat s' with
           | Some (before, after) => Some (String c before, after)
           | None => None
           end
       end.

(** ECMAScript [GetSubstitution] for a string pattern (no capture groups):
    in the replacement text, [$$] stands for [$], [$&] for the matched
    text, [$`] for the text before the match and [$'] for the text after
    it; any other [$] is literal. *)
Fixpoint GetSubstitution (matched before after template : string) : string :=
  match template with
  | EmptyString => EmptyString
  | String c rest =>
      if Ascii.eqb c "$" then
        match rest with
        | EmptyString => String c EmptyString
        | String d rest' =>
            if Ascii.eqb d "$" then String "$" (GetSubstitution matched before after rest')
            else if Ascii.eqb d "&" then matched +:+ GetSubstitution matched before after rest'
            else if Ascii.eqb d "`" then before +:+ GetSubstitution matched before after rest'
            else if Ascii.eqb d "'" then after +:+ GetSubstitution matched before after rest'
            else String c (GetSubstitution matched before after rest)
        end
      else String c (GetSubstitution matched before after rest)
  end.

(** [s.replace(pat, replacement)] with a string pattern: the first
    occurrence only. *)
Definition js_replace (s pat replacement : string) : string :=
  match split_first pat s with
  | None => s
  | Some (before, after) =>
      before +:+ GetSubstitution pat before after replacement +:+ after
  end.

(* ===================================================================== *)
(** ** commands.ts: operation descriptors                                *)
(* ===================================================================== *)

Module ArgDef.
Record t : Type := mk { name : string; desc : string }.
End ArgDef.

Module QueryParamDef.
Record t : Type := mk { name : string; required : bool; desc : string }.
End QueryParamDef.

Module CmdDef.
Record t : Type := mk {
  group : option string;
  action : string;
  operationId : string;
  method : string;
  path : string;
  summary : string;
  args : list ArgDef.t;
  needsSite : bool;
  paginatable : bool;
  hasBody : bool;
  extraQuery : list QueryParamDef.t
}.
End CmdDef.

Definition is_lower (c : ascii) : bool :=
  (97 <=? nat_of_ascii c)%nat && (nat_of_ascii c <=? 122)%nat.

Definition is_upper (c : ascii) : bool :=
  (65 <=? nat_of_ascii c)%nat && (nat_of_ascii c <=? 90)%nat.

Definition toUpperCase (c : ascii) : ascii :=
  if is_lower c then ascii_of_nat (nat_of_ascii c - 32) else c.

Definition toLowerCase (c : ascii) : ascii :=
  if is_upper c then ascii_of_nat (nat_of_ascii c + 32) else c.

(** [s.replace(/-([a-z])/g, (_, c) => c.toUpperCase())] *)
Fixpoint upper_after_dash (s : string) : string :=
  match s with
  | EmptyString => EmptyString
  | String c rest =>
      if Ascii.eqb c "-" then
        match rest with
        | EmptyString => String c EmptyString
        | String d rest' =>
            if is_lower d then String (toUpperCase d) (upper_after_dash rest')
            else String c (upper_after_dash rest)
        end
      else String c (upper_after_dash rest)
  end.

(** [s.replace(/([A-Z])/g, (m, _c, i) => i === 0 ? m.toLowerCase() : m)]:
    only a capital at offset 0 is changed. *)
Definition lower_at_zero (s : string) : string :=
  match s with
  | EmptyString => EmptyString
  | String c rest => String (toLowerCase c) rest
  end.

Definition camelCase (s : string) : string :=
  lower_at_zero (upper_after_dash s).

(** The entries of [COMMANDS] used below, as they stand in the catalog. *)
Definition cmd_getInfo : CmdDef.t :=
  CmdDef.mk None "info" "getInfo" "GET" "/v1/info"
    "Show UniFi Network application info"
    [] false false false [].

Definition cmd_getSiteOverviewPage : CmdDef.t :=
  CmdDef.mk (Some "sites") "list" "getSiteOverviewPage" "GET" "/v1/sites"
    "List all local sites (site IDs are needed for most commands)"
    [] false true false [].

Definition cmd_getAdoptedDeviceOverviewPage : CmdDef.t :=
  CmdDef.mk (Some "devices") "list" "getAdoptedDeviceOverviewPage" "GET"
    "/v1/sites/{siteId}/devices"
    "List adopted devices on a site"
    [] true true false [].

Definition cmd_getAdoptedDeviceDetails : CmdDef.t :=
  CmdDef.mk (Some "devices") "get" "getAdoptedDeviceDetails" "GET"
    "/v1/sites/{siteId}/devices/{deviceId}"
    "Get detailed info for an adopted device"
    [ArgDef.mk "deviceId" "Device ID"] true false false [].

Definition cmd_deleteNetwork : CmdDef.t :=
  CmdDef.mk (Some "networks") "delete" "deleteNetwork" "DELETE"
    "/v1/sites/{siteId}/networks/{networkId}"
    "Delete a network"
    [ArgDef.mk "networkId" "Network ID"] true false false
    [QueryParamDef.mk "force" false "Force deletion"].

Definition cmd_deleteVouchers : CmdDef.t :=
  CmdDef.mk (Some "hotspot") "delete-all" "deleteVouchers" "DELETE"
    "/v1/sites/{siteId}/hotspot/vouchers"
    "Delete vouchers matching a filter"
    [] true false false
    [QueryParamDef.mk "filter" true "Filter expression"].

(* ===================================================================== *)
(** ** execute.ts                                                         *)
(* ===================================================================== *)

(** A [Record<string, string>] is a finite map from its own keys. *)
Module ExecuteParams.
Record t : Type := mk {
  siteId : option string;
  args : gmap string string;
  offset : option string;
  limit : option string;
  filter : option string;
  extraQuery : option (gmap string string);
  body : value
}.
End ExecuteParams.

Module ExecuteResult.
Record t : Type := mk {
  method : string;
  path : string;
  query : gmap string string;
  body : value
}.
End ExecuteResult.

(** client.ts *)
Module RequestOptions.
Record t : Type := mk {
  method : string;
  path : string;
  query : gmap string string;
  body : value
}.
End RequestOptions.

(** [params.siteId || "default"] *)
Definition siteId_or_default (siteId : option string) : string :=
  match truthy_opt siteId with
  | Some s => s
  | None => "default"
  end.

(** One round of the loop over [cmd.args]. *)
Definition substitute_arg (params : ExecuteParams.t)
    (resolvedPath : string) (arg : ArgDef.t) : string :=
  match truthy_opt (ExecuteParams.args params !! ArgDef.name arg) with
  | Some val => js_replace resolvedPath ("{" +:+ ArgDef.name arg +:+ "}") val
  | None => resolvedPath
  end.

Definition set_opt (k : string) (o : option string)
    (query : gmap string string) : gmap string string :=
  match o with
  | Some v => <[k := v]> query
  | None => query
  end.

(** [params.extraQuery?.[name]] *)
Definition extra_lookup (params : ExecuteParams.t) (name : string) : option string :=
  match ExecuteParams.extraQuery params with
  | Some m => m !! name
  | None => None
  end.

(** [params.extraQuery?.[qp.name] ?? params.extraQuery?.[camelCase(qp.name)]] *)
Definition extra_value (params : ExecuteParams.t) (name : string) : option string :=
  match extra_lookup params name with
  | Some v => Some v
  | None => extra_lookup params (camelCase name)
  end.

(** One round of the loop over [cmd.extraQuery]. *)
Definition add_extra (params : ExecuteParams.t)
    (query : gmap string string) (qp : QueryParamDef.t) : gmap string string :=
  set_opt (QueryParamDef.name qp) (extra_value params (QueryParamDef.name qp)) query.

(** The query object after the [if (cmd.paginatable)] block. *)
Definition pagination_query (cmd : CmdDef.t) (params : ExecuteParams.t)
  : gmap string string :=
  if CmdDef.paginatable cmd then
    set_opt "filter" (truthy_opt (ExecuteParams.filter params))
      (set_opt "limit" (ExecuteParams.limit params)
         (set_opt "offset" (ExecuteParams.offset params) ∅))
  else ∅.

Definition resolveRequest (cmd : CmdDef.t) (params : ExecuteParams.t)
  : ExecuteResult.t :=
  let resolvedPath := CmdDef.path cmd in
  let resolvedPath :=
    if CmdDef.needsSite cmd
    then js_replace resolvedPath "{siteId}"
           (siteId_or_default (ExecuteParams.siteId params))
    else resolvedPath in
  let resolvedPath :=
    fold_left (substitute_arg params) (CmdDef.args cmd) resolvedPath in
  let query := pagination_query cmd params in
  let query := fold_left (add_extra params) (CmdDef.extraQuery cmd) query in
  ExecuteResult.mk (CmdDef.method cmd) resolvedPath query
    (if CmdDef.hasBody cmd then ExecuteParams.body params else VUndef).

(** The transport: what [client.request] answers to a request, given the
    requests made so far on this client.  The answer is a value or a thrown
    error. *)
Definition UnifiClient : Type :=
  list RequestOptions.t → RequestOptions.t → outcome value.

(** Effectful code threads the log of the requests made so far. *)
Definition Log : Type := list RequestOptions.t.

(** [{ method: req.method, path: req.path, query: req.query, body: req.body }] *)
Definition request_options (req : ExecuteResult.t) : RequestOptions.t :=
  RequestOptions.mk (ExecuteResult.method req) (ExecuteResult.path req)
    (ExecuteResult.query req) (ExecuteResult.body req).

Definition executeCommand (cmd : CmdDef.t) (params : ExecuteParams.t)
    (client : UnifiClient) (log : Log) : outcome value * Log :=
  let req := resolveRequest cmd params in
  (client log (request_options req), log ++ [request_options req]).

(** [{ ...params, offset: String(offset), limit: String(pageSize) }] *)
Definition pageParams (params : ExecuteParams.t) (offset : nat) (pageSize : Z)
  : ExecuteParams.t :=
  ExecuteParams.mk (ExecuteParams.siteId params) (ExecuteParams.args params)
    (Some (js_String (Z.of_nat offset))) (Some (js_String pageSize))
    (ExecuteParams.filter params) (ExecuteParams.extraQuery params)
    (ExecuteParams.body params).

(** [typeof result.totalCount === "number" ? result.totalCount : allData.length]
    for a [result] that is neither [null] nor [undefined]. *)
Definition totalCount_of (result : value) (allData : list value) : number :=
  match get_prop result "totalCount" with
  | Ok (VNum n) => n
  | _ => num_of_nat (length allData)
  end.

(** The [while (true)] loop of [executeAllPages]; [fuel] bounds the number
    of rounds, and [None] means that the bound was reached. *)
Fixpoint executeAllPages_loop (fuel : nat) (cmd : CmdDef.t)
    (params : ExecuteParams.t) (client : UnifiClient) (pageSize : Z)
    (allData : list value) (offset : nat) (log : Log)
  : option (outcome value * Log) :=
  match fuel with
  | O => None
  | S fuel' =>
      match executeCommand cmd (pageParams params offset pageSize) client log with
      | (Throw e, log') => Some (Throw e, log')
      | (Ok result, log') =>
          match get_prop result "data" with
          | Throw e => Some (Throw e, log')
          | Ok (VArr data) =>
              let allData := allData ++ data in
              let totalCount := totalCount_of result allData in
              if length_ge (length allData) totalCount
                 || (Z.of_nat (length data) <? pageSize)
              then Some (Ok (VObj [("data", VArr allData);
                                   ("totalCount", VNum totalCount)]), log')
              else executeAllPages_loop fuel' cmd params client pageSize
                     allData (offset + length data)%nat log'
          | Ok _ => Some (Ok result, log')
          end
      end
  end.

Definition executeAllPages (fuel : nat) (cmd : CmdDef.t)
    (params : ExecuteParams.t) (client : UnifiClient) (pageSize : Z)
    (log : Log) : option (outcome value * Log) :=
  if negb (CmdDef.paginatable cmd)
  then Some (executeCommand cmd params client log)
  else executeAllPages_loop fuel cmd params client pageSize [] 0%nat log.

(* ===================================================================== *)
(** ** The MCP server: resolveSiteId                                     *)
(* ===================================================================== *)

Definition is_hex_lower (c : ascii) : bool :=
  ((48 <=? nat_of_ascii c)%nat && (nat_of_ascii c <=? 57)%nat)
  || ((97 <=? nat_of_ascii c)%nat && (nat_of_ascii c <=? 102)%nat).

(** The rest of [s] after [n] characters of the class [[0-9a-f]]. *)
Fixpoint after_hex_lower (n : nat) (s : string) : option string :=
  match n with
  | O => Some s
  | S n' =>
      match s with
      | EmptyString => None
      | String c s' => if is_hex_lower c then after_hex_lower n' s' else None
      end
  end.

(** [/^[0-9a-f]{8}-/.test(siteId)] *)
Definition looks_like_uuid (siteId : string) : bool :=
  match after_hex_lower 8 siteId with
  | Some (String c _) => Ascii.eqb c "-"
  | _ => false
  end.

(** [COMMANDS.find((c) => c.operationId === operationId)] *)
Definition findCmd (COMMANDS : list CmdDef.t) (operationId : string)
  : option CmdDef.t :=
  List.find (fun c => String.eqb (CmdDef.operationId c) operationId) COMMANDS.

(** [v === s] for a string [s]. *)
Definition strict_eq_string (v : value) (s : string) : bool :=
  match v with
  | VStr s' => String.eqb s' s
  | _ => false
  end.

(** [(s) => s.internalReference === siteId || s.id === siteId] *)
Definition site_matches (siteId : string) (s : value) : outcome bool :=
  match get_prop s "internalReference" with
  | Throw e => Throw e
  | Ok r =>
      if strict_eq_string r siteId then Ok true
      else match get_prop s "id" with
           | Throw e => Throw e
           | Ok i => Ok (strict_eq_string i siteId)
           end
  end.

(** [Array.prototype.find]: the first element that satisfies the callback,
    [undefined] when there is none. *)
Fixpoint array_find (p : value → outcome bool) (l : list value) : outcome value :=
  match l with
  | [] => Ok VUndef
  | x :: rest =>
      match p x with
      | Throw e => Throw e
      | Ok true => Ok x
      | Ok false => array_find p rest
      end
  end.

(** [result.data?.find(...)]: the optional chain stops on [null] and
    [undefined]; a [data] that is not an array has no [find] method. *)
Definition find_site (result : value) (siteId : string) : outcome value :=
  match get_prop result "data" with
  | Throw e => Throw e
  | Ok VUndef | Ok VNull => Ok VUndef
  | Ok (VArr l) => array_find (site_matches siteId) l
  | Ok _ => Throw TypeError
  end.

(** The state of a running server that [resolveSiteId] touches: the cache
    variable of the enclosing closure and the requests made so far. *)
Record Session : Type := mkSession {
  resolvedDefaultSiteId : value;
  requests : Log
}.

(** [{ args: {} }] *)
Definition no_params : ExecuteParams.t :=
  ExecuteParams.mk None ∅ None None None None VUndef.

(** [resolvedDefaultSiteId ?? siteId] *)
Definition cached_or (cache : value) (siteId : string) : value :=
  match cache with
  | VUndef | VNull => VStr siteId
  | _ => cache
  end.

Definition resolveSiteId (fuel : nat) (COMMANDS : list CmdDef.t)
    (client : UnifiClient) (siteId : string) (st : Session)
  : option (outcome value * Session) :=
  if looks_like_uuid siteId then Some (Ok (VStr siteId), st)
  else
    let cache := resolvedDefaultSiteId st in
    if negb (truthy cache) then
      match findCmd COMMANDS "getSiteOverviewPage" with
      | Some sitesCmd =>
          match executeAllPages fuel sitesCmd no_params client 200 (requests st) with
          | None => None
          | Some (Throw e, log') => Some (Throw e, mkSession cache log')
          | Some (Ok result, log') =>
              match find_site result siteId with
              | Throw e => Some (Throw e, mkSession cache log')
              | Ok m =>
                  if truthy m then
                    match get_prop m "id" with
                    | Throw e => Some (Throw e, mkSession cache log')
                    | Ok id => Some (Ok id, mkSession id log')
                    end
                  else Some (Ok (cached_or cache siteId), mkSession cache log')
              end
          end
      | None => Some (Ok (cached_or cache siteId), st)
      end
    else Some (Ok (cached_or cache siteId), st).

(* ===================================================================== *)
(** ** schema.ts                                                          *)
(* ===================================================================== *)

Module SchemaRef.
Inductive t : Type := mk {
  ref : option string;
  type : option string;
  enum : option (list string);
  properties : option (list (string * t));
  required : option (list string);
  items : option t;
  description : option string;
  oneOf : option (list t);
  anyOf : option (list t);
  allOf : option (list t)
}.
End SchemaRef.

(** Of the schema document only [components.schemas] is read by the code
    embedded here. *)
Record OpenAPISpec : Type := mkOpenAPISpec {
  schemas : gmap string SchemaRef.t
}.

(** The names that every plain object inherits from [Object.prototype]. *)
Definition Object_prototype_names : list string :=
  ["constructor"; "hasOwnProperty"; "isPrototypeOf"; "propertyIsEnumerable";
   "toLocaleString"; "toString"; "valueOf"; "__proto__";
   "__defineGetter__"; "__defineSetter__"; "__lookupGetter__";
   "__lookupSetter__"].

(** What an inherited name gives when it is read as a schema: a function
    (or, for [__proto__], the prototype itself), which has none of the
    fields of a schema. *)
Definition inherited_as_schema : SchemaRef.t :=
  SchemaRef.mk None None None None None None None None None None.

(** [spec.components.schemas[name] ?? null]: the schema stored under
    [name]; for a name that is not stored, what the plain object [schemas]
    inherits under it, if anything. *)
Definition resolveRef (spec : OpenAPISpec) (ref : string) : option SchemaRef.t :=
  let name := js_replace ref "#/components/schemas/" "" in
  match schemas spec !! name with
  | Some schema => Some schema
  | None =>
      if bool_decide (name ∈ Object_prototype_names)
      then Some inherited_as_schema
      else None
  end.

(** [{ type: "object" }] *)
Definition object_placeholder : value := VObj [("type", VStr "object")].

(** The first of [oneOf], [anyOf], [allOf] that is present, with its key. *)
Definition first_variants (s : SchemaRef.t) : option (string * list SchemaRef.t) :=
  match SchemaRef.oneOf s, SchemaRef.anyOf s, SchemaRef.allOf s with
  | Some vs, _, _ => Some ("oneOf", vs)
  | None, Some vs, _ => Some ("anyOf", vs)
  | None, None, Some vs => Some ("allOf", vs)
  | None, None, None => None
  end.

Definition is_type (s : SchemaRef.t) (name : string) : bool :=
  match SchemaRef.type s with
  | Some ty => String.eqb ty name
  | None => false
  end.

(** [if (schemaOrRef.description) result.description = ...] *)
Definition description_field (s : SchemaRef.t) : list (string * value) :=
  match truthy_opt (SchemaRef.description s) with
  | Some d => [("description", VStr d)]
  | None => []
  end.

(** [if (schemaOrRef.required) result.required = schemaOrRef.required] *)
Definition required_field (s : SchemaRef.t) : list (string * value) :=
  match SchemaRef.required s with
  | Some names => [("required", VArr (map VStr names))]
  | None => []
  end.

(** [toJsonSchema(spec, schemaOrRef, maxDepth, seen)].  [maxDepth] is an
    integer depth; [fuel] bounds the nesting of the recursive calls and
    [None] means that this bound was reached.  Every call that passes
    [new Set(seen)] passes a copy, so [seen] is a value here. *)
Fixpoint toJsonSchema (fuel : nat) (spec : OpenAPISpec)
    (schemaOrRef : SchemaRef.t) (maxDepth : Z) (seen : gset string)
  : option value :=
  match fuel with
  | O => None
  | S fuel' =>
      if maxDepth <=? 0 then Some object_placeholder
      else
        match truthy_opt (SchemaRef.ref schemaOrRef) with
        | Some r =>
            if decide (r ∈ seen) then Some object_placeholder
            else
              match resolveRef spec r with
              | None => Some object_placeholder
              | Some resolved =>
                  toJsonSchema fuel' spec resolved (maxDepth - 1) ({[r]} ∪ seen)
              end
        | None =>
            match first_variants schemaOrRef with
            | Some (key, variants) =>
                vs ← mapM (fun v => toJsonSchema fuel' spec v (maxDepth - 1) seen)
                       variants;
                Some (VObj [(key, VArr vs)])
            | None =>
                if is_type schemaOrRef "array" then
                  match SchemaRef.items schemaOrRef with
                  | Some it =>
                      r ← toJsonSchema fuel' spec it (maxDepth - 1) seen;
                      Some (VObj [("type", VStr "array"); ("items", r)])
                  | None => Some (VObj [("type", VStr "array")])
                  end
                else if is_type schemaOrRef "object"
                        || bool_decide (is_Some (SchemaRef.properties schemaOrRef))
                then
                  props ←
                    match SchemaRef.properties schemaOrRef with
                    | Some ps =>
                        ps' ← mapM (fun np =>
                                      r ← toJsonSchema fuel' spec (snd np)
                                            (maxDepth - 1) seen;
                                      Some (fst np, r)) ps;
                        Some [("properties", VObj ps')]
                    | None => Some []
                    end;
                  Some (VObj ([("type", VStr "object")] ++ props
                                ++ required_field schemaOrRef
                                ++ description_field schemaOrRef))
                else
                  match SchemaRef.enum schemaOrRef with
                  | Some e =>
                      Some (VObj ([("type",
                                    VStr (default "string" (SchemaRef.type schemaOrRef)));
                                   ("enum", VArr (map VStr e))]
                                    ++ description_field schemaOrRef))
                  | None =>
                      Some (VObj ([("type",
                                    VStr (default "object" (SchemaRef.type schemaOrRef)))]
                                    ++ description_field schemaOrRef))
                  end
            end
        end
  end.

(* ===================================================================== *)
(** ** commands.ts: tool names and the catalog                           *)
(* ===================================================================== *)

(** [s.replace(/-/g, "_")] *)
Fixpoint dashes_to_underscores (s : string) : string :=
  match s with
  | EmptyString => EmptyString
  | String c rest =>
      String (if Ascii.eqb c "-" then "_"%char else c) (dashes_to_underscores rest)
  end.

(** commands.ts: the tool name of a descriptor, [group_action] or just
    [action]. *)
Definition toolName (cmd : CmdDef.t) : string :=
  match truthy_opt (CmdDef.group cmd) with
  | Some group =>
      dashes_to_underscores group +:+ "_" +:+ dashes_to_underscores (CmdDef.action cmd)
  | None => dashes_to_underscores (CmdDef.action cmd)
  end.

(** commands.ts: [COMMANDS], the whole catalog in its order.  A character
    outside ASCII in a summary stands as the bytes of its UTF-8 form. *)
Definition COMMANDS : list CmdDef.t :=
  [ cmd_getInfo;
    cmd_getSiteOverviewPage;
    cmd_getAdoptedDeviceOverviewPage;
    cmd_getAdoptedDeviceDetails;
    CmdDef.mk (Some "devices") "adopt" "adoptDevice" "POST"
      "/v1/sites/{siteId}/devices"
      "Adopt a device to a site"
      [] true false true
      [];
    CmdDef.mk (Some "devices") "remove" "removeDevice" "DELETE"
      "/v1/sites/{siteId}/devices/{deviceId}"
      "Remove (unadopt) a device — resets to factory defaults if online"
      [ArgDef.mk "deviceId" "Device ID"] true false false
      [];
    CmdDef.mk (Some "devices") "stats" "getAdoptedDeviceLatestStatistics" "GET"
      "/v1/sites/{siteId}/devices/{deviceId}/statistics/latest"
      "Get latest real-time statistics (CPU, memory, uptime, throughput)"
      [ArgDef.mk "deviceId" "Device ID"] true false false
      [];
    CmdDef.mk (Some "devices") "action" "executeAdoptedDeviceAction" "POST"
      "/v1/sites/{siteId}/devices/{deviceId}/actions"
      "Execute an action on a device (e.g. restart)"
      [ArgDef.mk "deviceId" "Device ID"] true false true
      [];
    CmdDef.mk (Some "devices") "port-action" "executePortAction" "POST"
      "/v1/sites/{siteId}/devices/{deviceId}/interfaces/ports/{portIdx}/actions"
      "Execute an action on a specific device port (e.g. PoE power-cycle)"
      [ArgDef.mk "deviceId" "Device ID"; ArgDef.mk "portIdx" "Port index"] true false true
      [];
    CmdDef.mk (Some "devices") "pending" "getPendingDevicePage" "GET"
      "/v1/pending-devices"
      "List devices pending adoption"
      [] false true false
      [];
    CmdDef.mk (Some "clients") "list" "getConnectedClientOverviewPage" "GET"
      "/v1/sites/{siteId}/clients"
      "List connected clients (devices, phones, VPN users, etc.)"
      [] true true false
      [];
    CmdDef.mk (Some "clients") "get" "getConnectedClientDetails" "GET"
      "/v1/sites/{siteId}/clients/{clientId}"
      "Get detailed info about a connected client"
      [ArgDef.mk "clientId" "Client ID"] true false false
      [];
    CmdDef.mk (Some "clients") "action" "executeConnectedClientAction" "POST"
      "/v1/sites/{siteId}/clients/{clientId}/actions"
      "Execute an action on a connected client"
      [ArgDef.mk "clientId" "Client ID"] true false true
      [];
    CmdDef.mk (Some "networks") "list" "getNetworksOverviewPage" "GET"
      "/v1/sites/{siteId}/networks"
      "List all networks on a site"
      [] true true false
      [];
    CmdDef.mk (Some "networks") "get" "getNetworkDetails" "GET"
      "/v1/sites/{siteId}/networks/{networkId}"
      "Get detailed info about a network"
      [ArgDef.mk "networkId" "Network ID"] true false false
      [];
    CmdDef.mk (Some "networks") "create" "createNetwork" "POST"
      "/v1/sites/{siteId}/networks"
      "Create a new network"
      [] true false true
      [];
    CmdDef.mk (Some "networks") "update" "updateNetwork" "PUT"
      "/v1/sites/{siteId}/networks/{networkId}"
      "Update an existing network"
      [ArgDef.mk "networkId" "Network ID"] true false true
      [];
    cmd_deleteNetwork;
    CmdDef.mk (Some "networks") "references" "getNetworkReferences" "GET"
      "/v1/sites/{siteId}/networks/{networkId}/references"
      "Get resources that reference this network"
      [ArgDef.mk "networkId" "Network ID"] true false false
      [];
    CmdDef.mk (Some "firewall-zones") "list" "getFirewallZones" "GET"
      "/v1/sites/{siteId}/firewall/zones"
      "List all firewall zones"
      [] true true false
      [];
    CmdDef.mk (Some "firewall-zones") "get" "getFirewallZone" "GET"
      "/v1/sites/{siteId}/firewall/zones/{firewallZoneId}"
      "Get a firewall zone"
      [ArgDef.mk "firewallZoneId" "Firewall zone ID"] true false false
      [];
    CmdDef.mk (Some "firewall-zones") "create" "createFirewallZone" "POST"
      "/v1/sites/{siteId}/firewall/zones"
      "Create a custom firewall zone"
      [] true false true
      [];
    CmdDef.mk (Some "firewall-zones") "update" "updateFirewallZone" "PUT"
      "/v1/sites/{siteId}/firewall/zones/{firewallZoneId}"
      "Update a firewall zone"
      [ArgDef.mk "firewallZoneId" "Firewall zone ID"] true false true
      [];
    CmdDef.mk (Some "firewall-zones") "delete" "deleteFirewallZone" "DELETE"
      "/v1/sites/{siteId}/firewall/zones/{firewallZoneId}"
      "Delete a custom firewall zone"
      [ArgDef.mk "firewallZoneId" "Firewall zone ID"] true false false
      [];
    CmdDef.mk (Some "firewall-policies") "list" "getFirewallPolicies" "GET"
      "/v1/sites/{siteId}/firewall/policies"
      "List all firewall policies"
      [] true true false
      [];
    CmdDef.mk (Some "firewall-policies") "get" "getFirewallPolicy" "GET"
      "/v1/sites/{siteId}/firewall/policies/{firewallPolicyId}"
      "Get a firewall policy"
      [ArgDef.mk "firewallPolicyId" "Firewall policy ID"] true false false
      [];
    CmdDef.mk (Some "firewall-policies") "create" "createFirewallPolicy" "POST"
      "/v1/sites/{siteId}/firewall/policies"
      "Create a new firewall policy"
      [] true false true
      [];
    CmdDef.mk (Some "firewall-policies") "update" "updateFirewallPolicy" "PUT"
      "/v1/sites/{siteId}/firewall/policies/{firewallPolicyId}"
      "Update an existing firewall policy"
      [ArgDef.mk "firewallPolicyId" "Firewall policy ID"] true false true
      [];
    CmdDef.mk (Some "firewall-policies") "patch" "patchFirewallPolicy" "PATCH"
      "/v1/sites/{siteId}/firewall/policies/{firewallPolicyId}"
      "Patch a firewall policy (partial update, e.g. toggle logging)"
      [ArgDef.mk "firewallPolicyId" "Firewall policy ID"] true false true
      [];
    CmdDef.mk (Some "firewall-policies") "delete" "deleteFirewallPolicy" "DELETE"
      "/v1/sites/{siteId}/firewall/policies/{firewallPolicyId}"
      "Delete a firewall policy"
      [ArgDef.mk "firewallPolicyId" "Firewall policy ID"] true false false
      [];
    CmdDef.mk (Some "firewall-policies") "ordering" "getFirewallPolicyOrdering" "GET"
      "/v1/sites/{siteId}/firewall/policies/ordering"
      "Get firewall policy ordering for a zone pair"
      [] true false false
      [QueryParamDef.mk "sourceFirewallZoneId" true "Source zone ID"; QueryParamDef.mk "destinationFirewallZoneId" true "Destination zone ID"];
    CmdDef.mk (Some "firewall-policies") "reorder" "updateFirewallPolicyOrdering" "PUT"
      "/v1/sites/{siteId}/firewall/policies/ordering"
      "Reorder firewall policies for a zone pair"
      [] true false true
      [QueryParamDef.mk "sourceFirewallZoneId" true "Source zone ID"; QueryParamDef.mk "destinationFirewallZoneId" true "Destination zone ID"];
    CmdDef.mk (Some "dns") "list" "getDnsPolicyPage" "GET"
      "/v1/sites/{siteId}/dns/policies"
      "List DNS policies"
      [] true true false
      [];
    CmdDef.mk (Some "dns") "get" "getDnsPolicy" "GET"
      "/v1/sites/{siteId}/dns/policies/{dnsPolicyId}"
      "Get a DNS policy"
      [ArgDef.mk "dnsPolicyId" "DNS policy ID"] true false false
      [];
    CmdDef.mk (Some "dns") "create" "createDnsPolicy" "POST"
      "/v1/sites/{siteId}/dns/policies"
      "Create a new DNS policy"
      [] true false true
      [];
    CmdDef.mk (Some "dns") "update" "updateDnsPolicy" "PUT"
      "/v1/sites/{siteId}/dns/policies/{dnsPolicyId}"
      "Update a DNS policy"
      [ArgDef.mk "dnsPolicyId" "DNS policy ID"] true false true
      [];
    CmdDef.mk (Some "dns") "delete" "deleteDnsPolicy" "DELETE"
      "/v1/sites/{siteId}/dns/policies/{dnsPolicyId}"
      "Delete a DNS policy"
      [ArgDef.mk "dnsPolicyId" "DNS policy ID"] true false false
      [];
    CmdDef.mk (Some "wifi") "list" "getWifiBroadcastPage" "GET"
      "/v1/sites/{siteId}/wifi/broadcasts"
      "List WiFi broadcasts (SSIDs)"
      [] true true false
      [];
    CmdDef.mk (Some "wifi") "get" "getWifiBroadcastDetails" "GET"
      "/v1/sites/{siteId}/wifi/broadcasts/{wifiBroadcastId}"
      "Get WiFi broadcast details"
      [ArgDef.mk "wifiBroadcastId" "WiFi broadcast ID"] true false false
      [];
    CmdDef.mk (Some "wifi") "create" "createWifiBroadcast" "POST"
      "/v1/sites/{siteId}/wifi/broadcasts"
      "Create a new WiFi broadcast"
      [] true false true
      [];
    CmdDef.mk (Some "wifi") "update" "updateWifiBroadcast" "PUT"
      "/v1/sites/{siteId}/wifi/broadcasts/{wifiBroadcastId}"
      "Update a WiFi broadcast"
      [ArgDef.mk "wifiBroadcastId" "WiFi broadcast ID"] true false true
      [];
    CmdDef.mk (Some "wifi") "delete" "deleteWifiBroadcast" "DELETE"
      "/v1/sites/{siteId}/wifi/broadcasts/{wifiBroadcastId}"
      "Delete a WiFi broadcast"
      [ArgDef.mk "wifiBroadcastId" "WiFi broadcast ID"] true false false
      [QueryParamDef.mk "force" false "Force deletion"];
    CmdDef.mk (Some "hotspot") "list" "getVouchers" "GET"
      "/v1/sites/{siteId}/hotspot/vouchers"
      "List hotspot vouchers"
      [] true true false
      [];
    CmdDef.mk (Some "hotspot") "get" "getVoucher" "GET"
      "/v1/sites/{siteId}/hotspot/vouchers/{voucherId}"
      "Get voucher details"
      [ArgDef.mk "voucherId" "Voucher ID"] true false false
      [];
    CmdDef.mk (Some "hotspot") "create" "createVouchers" "POST"
      "/v1/sites/{siteId}/hotspot/vouchers"
      "Generate one or more hotspot vouchers"
      [] true false true
      [];
    CmdDef.mk (Some "hotspot") "delete" "deleteVoucher" "DELETE"
      "/v1/sites/{siteId}/hotspot/vouchers/{voucherId}"
      "Delete a specific voucher"
      [ArgDef.mk "voucherId" "Voucher ID"] true false false
      [];
    cmd_deleteVouchers;
    CmdDef.mk (Some "acl") "list" "getAclRulePage" "GET"
      "/v1/sites/{siteId}/acl-rules"
      "List ACL rules"
      [] true true false
      [];
    CmdDef.mk (Some "acl") "get" "getAclRule" "GET"
      "/v1/sites/{siteId}/acl-rules/{aclRuleId}"
      "Get an ACL rule"
      [ArgDef.mk "aclRuleId" "ACL rule ID"] true false false
      [];
    CmdDef.mk (Some "acl") "create" "createAclRule" "POST"
      "/v1/sites/{siteId}/acl-rules"
      "Create a new ACL rule"
      [] true false true
      [];
    CmdDef.mk (Some "acl") "update" "updateAclRule" "PUT"
      "/v1/sites/{siteId}/acl-rules/{aclRuleId}"
      "Update an ACL rule"
      [ArgDef.mk "aclRuleId" "ACL rule ID"] true false true
      [];
    CmdDef.mk (Some "acl") "delete" "deleteAclRule" "DELETE"
      "/v1/sites/{siteId}/acl-rules/{aclRuleId}"
      "Delete an ACL rule"
      [ArgDef.mk "aclRuleId" "ACL rule ID"] true false false
      [];
    CmdDef.mk (Some "acl") "ordering" "getAclRuleOrdering" "GET"
      "/v1/sites/{siteId}/acl-rules/ordering"
      "Get ACL rule ordering"
      [] true false false
      [];
    CmdDef.mk (Some "acl") "reorder" "updateAclRuleOrdering" "PUT"
      "/v1/sites/{siteId}/acl-rules/ordering"
      "Reorder ACL rules"
      [] true false true
      [];
    CmdDef.mk (Some "traffic-lists") "list" "getTrafficMatchingLists" "GET"
      "/v1/sites/{siteId}/traffic-matching-lists"
      "List traffic matching lists"
      [] true true false
      [];
    CmdDef.mk (Some "traffic-lists") "get" "getTrafficMatchingList" "GET"
      "/v1/sites/{siteId}/traffic-matching-lists/{trafficMatchingListId}"
      "Get a traffic matching list"
      [ArgDef.mk "trafficMatchingListId" "Traffic matching list ID"] true false false
      [];
    CmdDef.mk (Some "traffic-lists") "create" "createTrafficMatchingList" "POST"
      "/v1/sites/{siteId}/traffic-matching-lists"
      "Create a traffic matching list"
      [] true false true
      [];
    CmdDef.mk (Some "traffic-lists") "update" "updateTrafficMatchingList" "PUT"
      "/v1/sites/{siteId}/traffic-matching-lists/{trafficMatchingListId}"
      "Update a traffic matching list"
      [ArgDef.mk "trafficMatchingListId" "Traffic matching list ID"] true false true
      [];
    CmdDef.mk (Some "traffic-lists") "delete" "deleteTrafficMatchingList" "DELETE"
      "/v1/sites/{siteId}/traffic-matching-lists/{trafficMatchingListId}"
      "Delete a traffic matching list"
      [ArgDef.mk "trafficMatchingListId" "Traffic matching list ID"] true false false
      [];
    CmdDef.mk (Some "wans") "list" "getWansOverviewPage" "GET"
      "/v1/sites/{siteId}/wans"
      "List WAN interfaces"
      [] true true false
      [];
    CmdDef.mk (Some "vpn-tunnels") "list" "getSiteToSiteVpnTunnelPage" "GET"
      "/v1/sites/{siteId}/vpn/site-to-site-tunnels"
      "List site-to-site VPN tunnels"
      [] true true false
      [];
    CmdDef.mk (Some "vpn-servers") "list" "getVpnServerPage" "GET"
      "/v1/sites/{siteId}/vpn/servers"
      "List VPN servers"
      [] true true false
      [];
    CmdDef.mk (Some "radius-profiles") "list" "getRadiusProfileOverviewPage" "GET"
      "/v1/sites/{siteId}/radius/profiles"
      "List RADIUS authentication profiles"
      [] true true false
      [];
    CmdDef.mk (Some "device-tags") "list" "getDeviceTagPage" "GET"
      "/v1/sites/{siteId}/device-tags"
      "List device tags (used for WiFi broadcast assignments)"
      [] true true false
      [];
    CmdDef.mk (Some "dpi") "categories" "getDpiApplicationCategories" "GET"
      "/v1/dpi/categories"
      "List DPI application categories"
      [] false true false
      [];
    CmdDef.mk (Some "dpi") "apps" "getDpiApplications" "GET"
      "/v1/dpi/applications"
      "List DPI-recognized applications"
      [] false true false
      [];
    CmdDef.mk None "countries" "getCountries" "GET"
      "/v1/countries"
      "List ISO country codes (for region-based config)"
      [] false true false
      [] ].

(* ===================================================================== *)
(** ** schema.ts: names, descriptions and operations                     *)
(* ===================================================================== *)

(** schema.ts: [ref.replace("#/components/schemas/", "")] *)
Definition schemaName (ref : string) : string :=
  js_replace ref "#/components/schemas/" "".

(** [s.split("\n")[0]]: the text before the first line feed. *)
Fixpoint first_line (s : string) : string :=
  match s with
  | EmptyString => EmptyString
  | String c rest =>
      if Ascii.eqb c "010" then EmptyString else String c (first_line rest)
  end.

(** A string stands for a JavaScript string by the bytes of its UTF-8
    form; of the code embedded here, only [slice] depends on more than the
    ASCII characters of a string, since it counts UTF-16 units: a character
    of one to three bytes is one unit, a character of four bytes is two. *)

(** The number of bytes of the character that begins with the byte [c]. *)
Definition utf8_bytes (c : ascii) : nat :=
  let n := nat_of_ascii c in
  if (n <? 224)%nat then (if (n <? 192)%nat then 1 else 2)
  else if (n <? 240)%nat then 3 else 4.

(** The first unit (the high surrogate) of a character of four bytes that
    begins with [b0], [b1], [b2], in the three-byte form of generalised
    UTF-8. *)
Definition high_surrogate (b0 b1 b2 : ascii) : string :=
  let x := ((nat_of_ascii b0 mod 8) * 256 + (nat_of_ascii b1 mod 64) * 4
            + (nat_of_ascii b2 mod 64) / 16 - 64)%nat in
  String (ascii_of_nat 237)
    (String (ascii_of_nat (160 + x / 64))
       (String (ascii_of_nat (128 + x mod 64)) EmptyString)).

(** The first [n] units of [s], after [pending] more bytes of a character
    that is already counted. *)
Fixpoint slice_units (n pending : nat) (s : string) : string :=
  match s with
  | EmptyString => EmptyString
  | String c rest =>
      match pending with
      | S pending' => String c (slice_units n pending' rest)
      | O =>
          match n with
          | O => EmptyString
          | S n' =>
              if (utf8_bytes c <? 4)%nat
              then String c (slice_units n' (utf8_bytes c - 1) rest)
              else
                match n' with
                | S n'' => String c (slice_units n'' 3 rest)
                | O =>
                    match rest with
                    | String b1 (String b2 _) => high_surrogate c b1 b2
                    | _ => EmptyString
                    end
                end
          end
      end
  end.

(** [s.slice(0, n)] for a count [n]: the first [n] UTF-16 units of [s].
    A cut inside a character of four bytes leaves its high surrogate. *)
Definition slice_to (n : nat) (s : string) : string := slice_units n 0 s.

(** [l.join(sep)] for a list of strings. *)
Fixpoint join (sep : string) (l : list string) : string :=
  match l with
  | [] => EmptyString
  | [x] => x
  | x :: rest => x +:+ sep +:+ join sep rest
  end.

(** [new Set(schema.required ?? []).has(name)] *)
Definition is_required (schema : SchemaRef.t) (name : string) : bool :=
  bool_decide (name ∈ default [] (SchemaRef.required schema)).

(** [Object.keys(resolved.properties ?? {}).length > 0] *)
Definition has_properties (schema : SchemaRef.t) : bool :=
  match SchemaRef.properties schema with
  | Some (_ :: _) => true
  | _ => false
  end.

(** schema.ts: the type label of a property. *)
Definition propType (prop : SchemaRef.t) : string :=
  match truthy_opt (SchemaRef.ref prop) with
  | Some r => schemaName r
  | None =>
      match SchemaRef.enum prop with
      | Some e =>
          default "string" (SchemaRef.type prop) +:+ " [" +:+ join "|" e +:+ "]"
      | None =>
          if is_type prop "array" then
            match SchemaRef.items prop with
            | Some items =>
                match truthy_opt (SchemaRef.ref items) with
                | Some r => "array<" +:+ schemaName r +:+ ">"
                | None => "array<" +:+ default "?" (SchemaRef.type items) +:+ ">"
                end
            | None => "array<?>"
            end
          else default "object" (SchemaRef.type prop)
      end
  end.

(** [v.$ref ? schemaName(v.$ref) : v.type ?? "?"] *)
Definition variant_label (v : SchemaRef.t) : string :=
  match truthy_opt (SchemaRef.ref v) with
  | Some r => schemaName r
  | None => default "?" (SchemaRef.type v)
  end.

(** The line of [describeSchemaObject] for one property. *)
Definition property_line (schema : SchemaRef.t) (indent : string)
    (np : string * SchemaRef.t) : string :=
  let req := if is_required schema (fst np) then "*" else " " in
  let desc :=
    match truthy_opt (SchemaRef.description (snd np)) with
    | Some d => "  " +:+ slice_to 70 (first_line d)
    | None => ""
    end in
  indent +:+ "  " +:+ req +:+ " " +:+ fst np +:+ ": " +:+ propType (snd np) +:+ desc.

(** The lines that [describeSchemaObject] pushes for one of [oneOf],
    [anyOf]: the header and, while [depth > 0], a title and the description
    of each variant that is a reference to a schema with properties.
    [describe] stands for the recursive call. *)
Definition variant_lines (describe : SchemaRef.t → string → Z → option string)
    (spec : OpenAPISpec) (indent : string) (depth : Z) (key : string)
    (variants : option (list SchemaRef.t)) : option (list string) :=
  match variants with
  | None => Some []
  | Some vs =>
      let header :=
        indent +:+ "  (" +:+ key +:+ ": "
          +:+ join " | " (map variant_label vs) +:+ ")" in
      if 0 <? depth then
        nested ←
          mapM (λ v,
                  match truthy_opt (SchemaRef.ref v) with
                  | Some r =>
                      match resolveRef spec r with
                      | Some resolved =>
                          if has_properties resolved then
                            d ← describe resolved (indent +:+ "  ") (depth - 1);
                            Some [indent +:+ "  --- " +:+ schemaName r +:+ " ---"; d]
                          else Some []
                      | None => Some []
                      end
                  | None => Some []
                  end) vs;
        Some (header :: concat nested)
      else Some [header]
  end.

(** schema.ts: [describeSchemaObject(spec, schema, indent, depth)], with
    fuel as for [toJsonSchema]. *)
Fixpoint describeSchemaObject (fuel : nat) (spec : OpenAPISpec)
    (schema : SchemaRef.t) (indent : string) (depth : Z) : option string :=
  match fuel with
  | O => None
  | S fuel' =>
      let lines :=
        map (property_line schema indent) (default [] (SchemaRef.properties schema)) in
      one ← variant_lines (describeSchemaObject fuel' spec) spec indent depth
              "oneOf" (SchemaRef.oneOf schema);
      any ← variant_lines (describeSchemaObject fuel' spec) spec indent depth
              "anyOf" (SchemaRef.anyOf schema);
      Some (join (String "010" EmptyString) (lines ++ one ++ any))
  end.

(** schema.ts: [describeSchema(spec, ref, maxDepth)] *)
Definition describeSchema (fuel : nat) (spec : OpenAPISpec) (ref : string)
    (maxDepth : Z) : option string :=
  match resolveRef spec ref with
  | None => Some ("  (schema not found: " +:+ ref +:+ ")")
  | Some schema => describeSchemaObject fuel spec schema "" maxDepth
  end.

(** The [properties] field that [structuredProps] adds for a reference
    while [depth > 0]: present when the schema behind [ref] exists and has
    properties.  [structured] stands for the recursive call. *)
Definition nested_properties (structured : SchemaRef.t → Z → option (list value))
    (spec : OpenAPISpec) (depth : Z) (ref : string)
  : option (list (string * value)) :=
  if 0 <? depth then
    match resolveRef spec ref with
    | Some resolved =>
        if has_properties resolved then
          ps ← structured resolved (depth - 1);
          Some [("properties", VArr ps)]
        else Some []
    | None => Some []
    end
  else Some [].

(** The entry of [structuredProps] for one property. *)
Definition structured_entry (structured : SchemaRef.t → Z → option (list value))
    (spec : OpenAPISpec) (schema : SchemaRef.t) (depth : Z)
    (np : string * SchemaRef.t) : option value :=
  let prop := snd np in
  sub ← match truthy_opt (SchemaRef.ref prop) with
        | Some r => nested_properties structured spec depth r
        | None => Some []
        end;
  Some (VObj ([("name", VStr (fst np));
               ("type", VStr (propType prop));
               ("required", VBool (is_required schema (fst np)))]
                ++ match truthy_opt (SchemaRef.description prop) with
                   | Some d => [("description", VStr (first_line d))]
                   | None => []
                   end
                ++ match SchemaRef.enum prop with
                   | Some e => [("enum", VArr (map VStr e))]
                   | None => []
                   end
                ++ sub)).

(** What [structuredProps] pushes for one of [oneOf], [anyOf]: nothing, or
    one object that names the variants which are references. *)
Definition structured_variants (structured : SchemaRef.t → Z → option (list value))
    (spec : OpenAPISpec) (depth : Z) (key : string)
    (variants : option (list SchemaRef.t)) : option (list value) :=
  match variants with
  | None => Some []
  | Some vs =>
      infos ←
        mapM (λ v,
                match truthy_opt (SchemaRef.ref v) with
                | Some r =>
                    sub ← nested_properties structured spec depth r;
                    Some [VObj (("name", VStr (schemaName r)) :: sub)]
                | None => Some []
                end) vs;
      match concat infos with
      | [] => Some []
      | variantInfos =>
          Some [VObj [("_discriminator", VStr key);
                      ("variants", VArr variantInfos)]]
      end
  end.

(** schema.ts: [structuredProps(spec, schema, depth)] *)
Fixpoint structuredProps (fuel : nat) (spec : OpenAPISpec)
    (schema : SchemaRef.t) (depth : Z) : option (list value) :=
  match fuel with
  | O => None
  | S fuel' =>
      entries ← mapM (structured_entry (structuredProps fuel' spec) spec schema depth)
                  (default [] (SchemaRef.properties schema));
      one ← structured_variants (structuredProps fuel' spec) spec depth
              "oneOf" (SchemaRef.oneOf schema);
      any ← structured_variants (structuredProps fuel' spec) spec depth
              "anyOf" (SchemaRef.anyOf schema);
      Some (entries ++ one ++ any)
  end.

(** An operation of the schema document, with the fields that the code
    embedded here reads: [operationId] and the media types of
    [requestBody.content], each given by its [schema]. *)
Module OperationObject.
Record t : Type := mk {
  operationId : option string;
  requestBody : option (gmap string SchemaRef.t)
}.
End OperationObject.

(** schema.ts: [getOperationBodyRef(op)] *)
Definition getOperationBodyRef (op : OperationObject.t) : option string :=
  match OperationObject.requestBody op with
  | None => None
  | Some content =>
      match content !! "application/json" with
      | Some schema => SchemaRef.ref schema
      | None => None
      end
  end.

(** [spec.paths]: for each path, in the order of [Object.entries], the
    operations by method. *)
Definition Paths : Type := list (string * list (string * OperationObject.t)).

(** schema.ts: [findOperation(spec, operationId)], reading [spec.paths]. *)
Fixpoint findOperation (paths : Paths) (operationId : string)
  : option (string * string * OperationObject.t) :=
  match paths with
  | [] => None
  | (path, methods) :: rest =>
      match
        List.find (λ mo, bool_decide (OperationObject.operationId (snd mo)
                                     = Some operationId)) methods
      with
      | Some (method, op) => Some (path, method, op)
      | None => findOperation rest operationId
      end
  end.

(* ===================================================================== *)
(** ** The MCP server: tools and resources                               *)
(* ===================================================================== *)

(** A step of a handler: [None] is a run that the model does not cover,
    [Some (Throw e)] an error that the step throws. *)
Definition try_bind {A B : Type} (m : option (outcome A))
    (k : A → option (outcome B)) : option (outcome B) :=
  match m with
  | None => None
  | Some (Throw e) => Some (Throw e)
  | Some (Ok a) => k a
  end.

Notation "x ←! m ; k" := (try_bind m (λ x, k))
  (at level 20, m at level 100, k at level 200, only parsing).

(** [k] is an own key of the object. *)
Definition has_key (fields : list (string * value)) (k : string) : bool :=
  existsb (λ kv, String.eqb kv.1 k) fields.

(** [String(v)] for a data value.  A finite number is covered when it is an
    integer of absolute value at most 2^53, where its decimal digits are
    its string; the string of any other finite number is not modelled
    ([None]).  An array is the strings of its elements, in order, joined by
    commas, with the empty string for [null] and [undefined].  An object
    is ["[object Object]"], unless it has an own property [toString]: the
    value of such a property cannot be called, the inherited [valueOf]
    gives the object back, and the conversion throws a [TypeError]. *)
Fixpoint js_ToString (v : value) : option (outcome string) :=
  match v with
  | VUndef => Some (Ok "undefined")
  | VNull => Some (Ok "null")
  | VBool true => Some (Ok "true")
  | VBool false => Some (Ok "false")
  | VNum NaN => Some (Ok "NaN")
  | VNum PosInf => Some (Ok "Infinity")
  | VNum NegInf => Some (Ok "-Infinity")
  | VNum (Fin q) =>
      let n := Qnum q / Zpos (Qden q) in
      if (Qnum q mod Zpos (Qden q) =? 0) && (Z.abs n <=? 2 ^ 53)
      then Some (Ok (js_String n)) else None
  | VStr s => Some (Ok s)
  | VArr items =>
      parts ←! (fix go (l : list value) : option (outcome (list string)) :=
                  match l with
                  | [] => Some (Ok [])
                  | x :: l' =>
                      s ←! match x with
                           | VUndef | VNull => Some (Ok "")
                           | _ => js_ToString x
                           end;
                      rest ←! go l';
                      Some (Ok (s :: rest))
                  end) items;
      Some (Ok (join "," parts))
  | VObj fields =>
      if has_key fields "toString" then Some (Throw TypeError)
      else Some (Ok "[object Object]")
  end.

(** The fields of the configuration that the server reads. *)
Module Config.
Record t : Type := mk {
  url : option string;
  apiKey : option string;
  site : string;
  readOnly : bool
}.
End Config.

(** [toolMap]: the commands by tool name; a later command of the catalog
    replaces an earlier one of the same name. *)
Definition toolMap : gmap string CmdDef.t :=
  fold_left (λ m cmd, <[toolName cmd := cmd]> m) COMMANDS ∅.

Definition READ_ONLY_METHODS : gset string :=
  list_to_set ["GET"; "HEAD"; "OPTIONS"].

(** What a tool call answers.  The text of the answer is the JSON form of an
    object, which is kept here in place of the text: the [result] of the
    command; [{ error, hint }] when the call is refused before any request;
    [{ error: e.message, detail: e.response ?? undefined }] for an error [e]
    caught while the command ran.  [isError] is set on the last two. *)
Inductive ToolReply : Type :=
| ToolResult (result : value)
| ToolRefused (error : string) (hint : option string)
| ToolFailed (e : error).

Definition isError (r : ToolReply) : bool :=
  match r with
  | ToolResult _ => false
  | _ => true
  end.

(** [params?.[k]], for the arguments of a call: an object given by its own
    properties, or [undefined].  (The keys read are the parameter names of
    the catalog and [siteId], [offset], [limit], [filter], [body]; none of
    them is a property that every object inherits.) *)
Definition param (params : option (list (string * value))) (k : string) : value :=
  match params with
  | Some fields => own_prop fields k
  | None => VUndef
  end.

(** [getClient()] succeeds. *)
Definition configured (config : Config.t) : bool :=
  bool_decide (is_Some (truthy_opt (Config.url config)))
  && bool_decide (is_Some (truthy_opt (Config.apiKey config))).

(** [if (params?.[arg.name]) pathArgs[arg.name] = String(params[arg.name])] *)
Definition add_path_arg (params : option (list (string * value)))
    (pathArgs : option (outcome (gmap string string))) (arg : ArgDef.t)
  : option (outcome (gmap string string)) :=
  m ←! pathArgs;
  let v := param params (ArgDef.name arg) in
  if truthy v then s ←! js_ToString v; Some (Ok (<[ArgDef.name arg := s]> m))
  else Some (Ok m).

(** [if (params?.[qp.name] !== undefined)
       extraQuery[qp.name] = String(params[qp.name])] *)
Definition add_extra_query (params : option (list (string * value)))
    (extraQuery : option (outcome (gmap string string))) (qp : QueryParamDef.t)
  : option (outcome (gmap string string)) :=
  m ←! extraQuery;
  match param params (QueryParamDef.name qp) with
  | VUndef => Some (Ok m)
  | v => s ←! js_ToString v; Some (Ok (<[QueryParamDef.name qp := s]> m))
  end.

(** [v === undefined] *)
Definition is_undefined (v : value) : bool :=
  match v with
  | VUndef => true
  | _ => false
  end.

(** [v !== undefined ? String(v) : undefined] *)
Definition string_unless_undefined (v : value) : option (outcome (option string)) :=
  match v with
  | VUndef => Some (Ok None)
  | _ => s ←! js_ToString v; Some (Ok (Some s))
  end.

(** [v ? String(v) : undefined] *)
Definition string_if_truthy (v : value) : option (outcome (option string)) :=
  if truthy v then s ←! js_ToString v; Some (Ok (Some s)) else Some (Ok None).

(** What the handler of [CallTool] computes before it resolves the site:
    [pathArgs], [extraQuery] and [rawSiteId], in this order. *)
Definition call_arguments (config : Config.t) (cmd : CmdDef.t)
    (params : option (list (string * value)))
  : option (outcome (gmap string string * gmap string string * string)) :=
  pathArgs ←! fold_left (add_path_arg params) (CmdDef.args cmd) (Some (Ok ∅));
  extraQuery ←! fold_left (add_extra_query params) (CmdDef.extraQuery cmd)
                  (Some (Ok ∅));
  rawSiteId ←! (if truthy (param params "siteId")
                then js_ToString (param params "siteId")
                else Some (Ok (Config.site config)));
  Some (Ok (pathArgs, extraQuery, rawSiteId)).

(** The [offset], [limit] and [filter] of [execParams], in this order. *)
Definition paging_arguments (params : option (list (string * value)))
  : option (outcome (option string * option string * option string)) :=
  offset ←! string_unless_undefined (param params "offset");
  limit ←! string_unless_undefined (param params "limit");
  filter ←! string_if_truthy (param params "filter");
  Some (Ok (offset, limit, filter)).

(** The [siteId] that [resolveRequest] works with, for the value [v] that
    the parameters hold: the text that replaces the placeholder is the
    string of [v || "default"], and the conversion throws where
    [js_ToString] does.  The one case in which that text is empty while [v]
    is truthy (an array such as [[]]) is not carried by [ExecuteParams]
    ([None]). *)
Definition site_argument (v : value) : option (outcome (option string)) :=
  if truthy v then
    s ←! js_ToString v;
    if truthy_string s then Some (Ok (Some s)) else None
  else Some (Ok None).

(** [executeAllPages(cmd, { siteId: v, ... }, client)] or, when [auto] is
    not set, [executeCommand] with the same arguments, for a site id [v]
    that need not be a string.  A descriptor that needs a site converts
    [v] when it resolves the first request: an error of this conversion is
    the outcome, before any request. *)
Definition execute_for_site (fuel : nat) (auto : bool) (cmd : CmdDef.t)
    (v : value) (rest : option string → ExecuteParams.t)
    (client : UnifiClient) (log : Log) : option (outcome value * Log) :=
  match (if CmdDef.needsSite cmd then site_argument v else Some (Ok None)) with
  | None => None
  | Some (Throw e) => Some (Throw e, log)
  | Some (Ok siteId) =>
      if auto then executeAllPages fuel cmd (rest siteId) client 200 log
      else Some (executeCommand cmd (rest siteId) client log)
  end.

(** The handler of [CallTool] for the tool [name] called with the arguments
    [params], in a server with the configuration [config] whose controller
    is [client].  The outer [None] stands for a run that the model does not
    cover: the bound on the rounds of the paginator was reached, or an
    argument has a string form that [js_ToString] or [site_argument] leaves
    out.  [Throw] is an error that leaves the handler: the arguments are
    converted and the site is resolved before the [try] block, the command
    runs inside it. *)
Definition callTool (fuel : nat) (config : Config.t) (client : UnifiClient)
    (name : string) (params : option (list (string * value))) (st : Session)
  : option (outcome ToolReply * Session) :=
  match toolMap !! name with
  | None => Some (Ok (ToolRefused ("Unknown tool: " +:+ name) None), st)
  | Some cmd =>
      if Config.readOnly config
         && negb (bool_decide (CmdDef.method cmd ∈ READ_ONLY_METHODS))
      then
        Some (Ok (ToolRefused
                    ("Read-only mode: " +:+ CmdDef.method cmd +:+ " "
                       +:+ CmdDef.path cmd +:+ " is not allowed")
                    (Some "Unset UNIFI_READ_ONLY to enable write operations")),
              st)
      else if negb (configured config) then
        Some (Ok (ToolRefused
                    "Missing UniFi configuration. Set UNIFI_URL and UNIFI_API_KEY environment variables, or run: unifi-cli configure"
                    (Some "Set UNIFI_URL and UNIFI_API_KEY environment variables, or run: unifi-cli configure")),
              st)
      else
        match call_arguments config cmd params with
        | None => None
        | Some (Throw e) => Some (Throw e, st)
        | Some (Ok (pathArgs, extraQuery, rawSiteId)) =>
            match (if CmdDef.needsSite cmd
                   then resolveSiteId fuel COMMANDS client rawSiteId st
                   else Some (Ok (VStr rawSiteId), st)) with
            | None => None
            | Some (Throw e, st') => Some (Throw e, st')
            | Some (Ok siteId, st') =>
                match paging_arguments params with
                | None => None
                | Some (Throw e) => Some (Throw e, st')
                | Some (Ok (offset, limit, filter)) =>
                    let execParams (site : option string) :=
                      ExecuteParams.mk
                        (if CmdDef.needsSite cmd then site else Some rawSiteId)
                        pathArgs offset limit filter
                        (Some extraQuery) (param params "body") in
                    let useAutoPage :=
                      CmdDef.paginatable cmd
                      && is_undefined (param params "offset")
                      && is_undefined (param params "limit") in
                    ran ← execute_for_site fuel useAutoPage cmd siteId execParams
                            client (requests st');
                    Some (Ok (match ran.1 with
                              | Ok result => ToolResult result
                              | Throw e => ToolFailed e
                              end),
                          mkSession (resolvedDefaultSiteId st') ran.2)
                end
            end
        end
  end.

(** The tools that [ListTools] offers, by name. *)
Definition listed_tools (config : Config.t) : list string :=
  map toolName
    (if Config.readOnly config
     then filter (λ cmd, CmdDef.method cmd ∈ READ_ONLY_METHODS) COMMANDS
     else COMMANDS).

(** [obj[k] = v] on an object given by its own properties: the value of a
    key that the object has is replaced where it stands, a new key comes
    last.  (The keys set by the embedded code are parameter names of the
    catalog and fixed words, none of which is an array index.) *)
Fixpoint obj_set (fields : list (string * value)) (k : string) (v : value)
  : list (string * value) :=
  match fields with
  | [] => [(k, v)]
  | (k', v') :: rest =>
      if String.eqb k' k then (k, v) :: rest else (k', v') :: obj_set rest k v
  end.

(** [{ type, description }] *)
Definition described (type description : string) : value :=
  VObj [("type", VStr type); ("description", VStr description)].

(** The loop of [buildInputSchema] over [cmd.args], on the pair of
    [properties] and [required]. *)
Definition add_arg_property (acc : list (string * value) * list string)
    (arg : ArgDef.t) : list (string * value) * list string :=
  (obj_set acc.1 (ArgDef.name arg) (described "string" (ArgDef.desc arg)),
   acc.2 ++ [ArgDef.name arg]).

(** The loop of [buildInputSchema] over [cmd.extraQuery]. *)
Definition add_query_property (acc : list (string * value) * list string)
    (qp : QueryParamDef.t) : list (string * value) * list string :=
  (obj_set acc.1 (QueryParamDef.name qp)
     (described "string" (QueryParamDef.desc qp)),
   if QueryParamDef.required qp then acc.2 ++ [QueryParamDef.name qp] else acc.2).

(** [bodySchema] and [bodyDesc] after the [try] block of
    [buildInputSchema].  [document] is what [loadSpec()] gives, the schemas
    and the paths, or [None] when it throws. *)
Definition body_schema (fuel : nat) (document : option (OpenAPISpec * Paths))
    (cmd : CmdDef.t) : option (option value * string) :=
  let generic := Some (None, "Request body object") in
  match document with
  | None => generic
  | Some (spec, paths) =>
      match findOperation paths (CmdDef.operationId cmd) with
      | None => generic
      | Some (_, _, op) =>
          match truthy_opt (getOperationBodyRef op) with
          | None => generic
          | Some bodyRef =>
              bodySchema ← match resolveRef spec bodyRef with
                           | Some resolved =>
                               s ← toJsonSchema fuel spec resolved 3 ∅; Some (Some s)
                           | None => Some None
                           end;
              schemaHelp ← describeSchema fuel spec bodyRef 2;
              Some (bodySchema,
                    "Request body (" +:+ schemaName bodyRef +:+ "):"
                      +:+ String "010" schemaHelp)
          end
      end
  end.

(** [properties.body] *)
Definition body_property (bodySchema : option value) (bodyDesc : string) : value :=
  let generic :=
    VObj [("type", VStr "object"); ("description", VStr bodyDesc);
          ("additionalProperties", VBool true)] in
  match bodySchema with
  | Some (VObj fields) =>
      if strict_eq_string (own_prop fields "type") "object"
      then VObj (obj_set (obj_set fields "description" (VStr bodyDesc))
                   "additionalProperties" (VBool true))
      else generic
  | _ => generic
  end.

(** [required.length ? required : undefined] *)
Definition required_or_undefined (required : list string) : value :=
  match required with
  | [] => VUndef
  | _ => VArr (map VStr required)
  end.

(** The MCP server: [buildInputSchema(cmd)], with fuel for the two schema
    functions. *)
Definition buildInputSchema (fuel : nat) (document : option (OpenAPISpec * Paths))
    (cmd : CmdDef.t) : option value :=
  let properties :=
    if CmdDef.needsSite cmd
    then [("siteId",
           described "string"
             ("Site ID (defaults to configured site or "
                +:+ String "034" "default" +:+ String "034" ")"))]
    else [] in
  let acc := fold_left add_arg_property (CmdDef.args cmd) (properties, []) in
  let properties :=
    if CmdDef.paginatable cmd then
      obj_set
        (obj_set
           (obj_set acc.1 "offset"
              (described "integer" "Pagination offset (omit to auto-fetch all pages)"))
           "limit"
           (described "integer" "Page size limit (omit to auto-fetch all pages)"))
        "filter" (described "string" "Filter expression (UniFi filter syntax)")
    else acc.1 in
  let acc := fold_left add_query_property (CmdDef.extraQuery cmd)
               (properties, acc.2) in
  acc ← (if CmdDef.hasBody cmd then
           body ← body_schema fuel document cmd;
           Some (obj_set acc.1 "body" (body_property body.1 body.2),
                 acc.2 ++ ["body"])
         else Some acc);
  Some (VObj [("type", VStr "object");
              ("properties", VObj acc.1);
              ("required", required_or_undefined acc.2)]).

(** [uri.match(/^unifi:\/\/sites\/([^/]+)\/(devices|networks|clients)$/)]:
    the two groups of a match.  The first group is the text between the
    prefix and the next slash, which must not be empty; what follows that
    slash must be one of the three words. *)
Definition match_site_resource (uri : string) : option (string * string) :=
  if String.prefix "unifi://sites/" uri then
    match split_first "/" (drop_string 14 uri) with
    | Some (rawSiteId, resource) =>
        if truthy_string rawSiteId
           && (String.eqb resource "devices" || String.eqb resource "networks"
               || String.eqb resource "clients")
        then Some (rawSiteId, resource)
        else None
    | None => None
    end
  else None.

(** [operationMap[resource]] for a word that the pattern lets through. *)
Definition operationMap (resource : string) : string :=
  if String.eqb resource "devices" then "getAdoptedDeviceOverviewPage"
  else if String.eqb resource "networks" then "getNetworksOverviewPage"
  else "getConnectedClientOverviewPage".

(** How reading a resource fails: with an error that the handler makes
    itself, given by its message; with the error of [loadSpec()]; or with
    an error [e] of a request or of a property read, which the handler lets
    through. *)
Inductive ResourceError : Type :=
| ResourceRefused (message : string)
| SpecUnavailable
| ResourceFailed (e : error).

(** The handler of [ReadResource] for [uri].  The text of the contents is
    the JSON form of a value, which stands here for the text.  [document]
    is what [loadSpec()] gives, as a value, or [None] when it throws.  The
    outer [None] is as for [callTool]. *)
Definition readResource (fuel : nat) (config : Config.t) (client : UnifiClient)
    (document : option value) (uri : string) (st : Session)
  : option ((ResourceError + value) * Session) :=
  let not_found (message : string) := Some (inl (ResourceRefused message), st) in
  let answer (ran : outcome value * Log) (cache : value) :=
    Some (match ran.1 with
          | Ok result => inr result
          | Throw e => inl (ResourceFailed e)
          end, mkSession cache ran.2) in
  if negb (configured config) then
    not_found "Missing UniFi configuration. Set UNIFI_URL and UNIFI_API_KEY environment variables, or run: unifi-cli configure"
  else if String.eqb uri "unifi://info" then
    match findCmd COMMANDS "getInfo" with
    | None => not_found "getInfo command not found"
    | Some cmd =>
        answer (executeCommand cmd no_params client (requests st))
          (resolvedDefaultSiteId st)
    end
  else if String.eqb uri "unifi://sites" then
    match findCmd COMMANDS "getSiteOverviewPage" with
    | None => not_found "getSiteOverviewPage command not found"
    | Some cmd =>
        ran ← executeAllPages fuel cmd no_params client 200 (requests st);
        answer ran (resolvedDefaultSiteId st)
    end
  else if String.eqb uri "unifi://spec" then
    match document with
    | Some spec => Some (inr spec, st)
    | None => Some (inl SpecUnavailable, st)
    end
  else
    match match_site_resource uri with
    | Some (rawSiteId, resource) =>
        resolved ← resolveSiteId fuel COMMANDS client rawSiteId st;
        match resolved with
        | (Throw e, st') => Some (inl (ResourceFailed e), st')
        | (Ok v, st') =>
            match findCmd COMMANDS (operationMap resource) with
            | None =>
                Some (inl (ResourceRefused
                             ("Command not found for resource: " +:+ resource)),
                      st')
            | Some cmd =>
                ran ← execute_for_site fuel true cmd v
                        (λ siteId,
                           ExecuteParams.mk siteId ∅ None None None None VUndef)
                        client (requests st');
                answer ran (resolvedDefaultSiteId st')
            end
        end
    | None => not_found ("Unknown resource URI: " +:+ uri)
    end.

(* ===================================================================== *)
(** ** Notions used to state the properties                              *)
(* ===================================================================== *)

(** The request that the paginator hands to the transport for the page
    starting at [offset]. *)
Definition page_request (cmd : CmdDef.t) (params : ExecuteParams.t)
    (pageSize : Z) (offset : nat) : RequestOptions.t :=
  request_options (resolveRequest cmd (pageParams params offset pageSize)).

(** The items of a response shaped as [{ data: [...], ... }]. *)
Definition page_items (r : value) : option (list value) :=
  match get_prop r "data" with
  | Ok (VArr d) => Some d
  | _ => None
  end.

Definition items_of (r : value) : list value := default [] (page_items r).

(** The data lists of the responses, concatenated in fetch order. *)
Definition all_items (resps : list value) : list value :=
  concat (map items_of resps).

(** Requests whose offsets start at [offset] and grow by the item count of
    each response. *)
Fixpoint page_requests (mk : nat → RequestOptions.t) (offset : nat)
    (resps : list value) : list RequestOptions.t :=
  match resps with
  | [] => []
  | r :: rest => mk offset :: page_requests mk (offset + length (items_of r))%nat rest
  end.

(** [resps] are the answers of [client] to [reqs], made in this order
    after the requests of [log]. *)
Fixpoint answered (client : UnifiClient) (log : Log)
    (reqs : list RequestOptions.t) (resps : list value) : Prop :=
  match reqs, resps with
  | [], [] => True
  | req :: reqs', r :: resps' =>
      client log req = Ok r ∧ answered client (log ++ [req]) reqs' resps'
  | _, _ => False
  end.

(** What the paginator returns once the answer [final] has come after the
    items [acc]. *)
Definition final_result (acc : list value) (final : outcome value) : outcome value :=
  match final with
  | Throw e => Throw e
  | Ok r =>
      match get_prop r "data" with
      | Throw e => Throw e
      | Ok (VArr d) =>
          Ok (VObj [("data", VArr (acc ++ d));
                    ("totalCount", VNum (totalCount_of r (acc ++ d)))])
      | Ok _ => Ok r
      end
  end.

(** A run of the paginator from the state [allData], [offset], [log]: full
    pages, each answered at the offset that the pages before it add up to,
    then one final answer, which decides the result. *)
Definition paged_run (cmd : CmdDef.t) (params : ExecuteParams.t)
    (client : UnifiClient) (pageSize : Z) (allData : list value) (offset : nat)
    (log : Log) (res : outcome value) (log' : Log) : Prop :=
  ∃ pages final,
    let reqs := page_requests (page_request cmd params pageSize) offset pages in
    let last_req :=
      page_request cmd params pageSize (offset + length (all_items pages))%nat in
    log' = log ++ reqs ++ [last_req]
    ∧ answered client log reqs pages
    ∧ Forall (λ r, ∃ d, page_items r = Some d ∧ pageSize ≤ Z.of_nat (length d)) pages
    ∧ client (log ++ reqs) last_req = final
    ∧ res = final_result (allData ++ all_items pages) final.

(** No extra query parameter of the descriptor is called [offset] or
    [limit] (they are, in the words of [CmdDef], "beyond standard
    pagination"). *)
Definition extra_beyond_pagination (cmd : CmdDef.t) : Prop :=
  Forall (λ qp, QueryParamDef.name qp ≠ "offset" ∧ QueryParamDef.name qp ≠ "limit")
    (CmdDef.extraQuery cmd).

(** The query of a request without its [offset] and [limit] entries. *)
Definition without_paging (query : gmap string string) : gmap string string :=
  delete "offset" (delete "limit" query).

(** [params] with other [offset] and [limit] values. *)
Definition with_offset_limit (params : ExecuteParams.t)
    (offset limit : option string) : ExecuteParams.t :=
  ExecuteParams.mk (ExecuteParams.siteId params) (ExecuteParams.args params)
    offset limit
    (ExecuteParams.filter params) (ExecuteParams.extraQuery params)
    (ExecuteParams.body params).

(** Test data: [{ id: i }], a page response, and the mock client of the
    test suite, which answers the n-th request with [pages[n]]. *)
Definition item_id (i : Z) : value := VObj [("id", VNum (Fin (inject_Z i)))].

Definition page (ids : list Z) (totalCount : Z) : value :=
  VObj [("data", VArr (map item_id ids));
        ("totalCount", VNum (Fin (inject_Z totalCount)))].

Definition mockClient (pages : list value) : UnifiClient :=
  λ log _, Ok (default VUndef (pages !! length log)).

(** A site of the listing, and a one-page listing of sites. *)
Definition site_entry (id internalReference : string) : value :=
  VObj [("id", VStr id); ("internalReference", VStr internalReference)].

Definition site_listing (sites : list value) : value :=
  VObj [("data", VArr sites);
        ("totalCount", VNum (num_of_nat (length sites)))].

(** A schema document with one self-referential schema:
    [Node = { type: "object", properties: { next: { $ref: Node },
    value: { type: "string" } }, required: ["value"] }]. *)
Definition schema_of_ref (ref : string) : SchemaRef.t :=
  SchemaRef.mk (Some ref) None None None None None None None None None.

Definition schema_of_type (type : string) : SchemaRef.t :=
  SchemaRef.mk None (Some type) None None None None None None None None.

Definition schema_Node : SchemaRef.t :=
  SchemaRef.mk None (Some "object") None
    (Some [("next", schema_of_ref "#/components/schemas/Node");
           ("value", schema_of_type "string")])
    (Some ["value"]) None None None None None.

Definition spec_Node : OpenAPISpec := mkOpenAPISpec {[ "Node" := schema_Node ]}.

(** A path template: literal text and [{name}] placeholders. *)
Inductive segment : Type :=
| Lit (text : string)
| Hole (name : string).

Definition placeholder (name : string) : string := "{" +:+ name +:+ "}".

Definition render_segment (seg : segment) : string :=
  match seg with
  | Lit text => text
  | Hole name => placeholder name
  end.

Fixpoint render (t : list segment) : string :=
  match t with
  | [] => ""
  | seg :: rest => render_segment seg +:+ render rest
  end.

(** The character [c] does not occur in [s]. *)
Definition lacks (c : ascii) (s : string) : Prop :=
  Forall (λ c', c' ≠ c) (list_ascii_of_string s).

(** Literal text has no opening brace, and a placeholder name has no
    brace. *)
Definition wf_segment (seg : segment) : Prop :=
  match seg with
  | Lit text => lacks "{" text
  | Hole name => lacks "{" name ∧ lacks "}" name
  end.

(** The first hole called [name] filled with the text [val]. *)
Fixpoint fill_first (name val : string) (t : list segment) : list segment :=
  match t with
  | [] => []
  | Lit text :: rest => Lit text :: fill_first name val rest
  | Hole n :: rest =>
      if String.eqb n name then Lit val :: rest
      else Hole n :: fill_first name val rest
  end.

(** The first hole called [name] of a template: the rendered text before
    it and after it. *)
Fixpoint split_template (name : string) (t : list segment) : option (string * string) :=
  match t with
  | [] => None
  | seg :: rest =>
      match seg with
      | Hole n =>
          if String.eqb n name then Some ("", render rest)
          else match split_template name rest with
               | Some (before, after) => Some (placeholder n +:+ before, after)
               | None => None
               end
      | Lit text =>
          match split_template name rest with
          | Some (before, after) => Some (text +:+ before, after)
          | None => None
          end
      end
  end.

(** A value that can be substituted as it is: it opens no placeholder and
    holds no replacement pattern. *)
Definition plain (val : string) : Prop := lacks "{" val ∧ lacks "$" val.

Definition fill_arg (params : ExecuteParams.t) (t : list segment)
    (arg : ArgDef.t) : list segment :=
  match truthy_opt (ExecuteParams.args params !! ArgDef.name arg) with
  | Some val => fill_first (ArgDef.name arg) val t
  | None => t
  end.

(** The template with the site hole filled (for a descriptor that needs a
    site) and then the hole of each positional argument that has a truthy
    value, in declared order. *)
Definition fill_template (cmd : CmdDef.t) (params : ExecuteParams.t)
    (t : list segment) : list segment :=
  fold_left (fill_arg params) (CmdDef.args cmd)
    (if CmdDef.needsSite cmd
     then fill_first "siteId" (siteId_or_default (ExecuteParams.siteId params)) t
     else t).

(** The first request of a call of [executeAllPages]. *)
Definition first_request (cmd : CmdDef.t) (params : ExecuteParams.t)
    (pageSize : Z) : RequestOptions.t :=
  if CmdDef.paginatable cmd then page_request cmd params pageSize 0
  else request_options (resolveRequest cmd params).

(** The query of a request, entry by entry, as the description of the
    request builder gives it: a declared extra parameter that has a value
    (under its name, else under its camel-cased alias) is emitted under its
    name; otherwise [offset], [limit] and [filter] are emitted for a
    paginatable descriptor when supplied. *)
Definition query_entry (cmd : CmdDef.t) (params : ExecuteParams.t) (k : string)
  : option string :=
  let declared := bool_decide (k ∈ map QueryParamDef.name (CmdDef.extraQuery cmd)) in
  match (if declared then extra_value params k else None) with
  | Some v => Some v
  | None =>
      if CmdDef.paginatable cmd then
        if String.eqb k "offset" then ExecuteParams.offset params
        else if String.eqb k "limit" then ExecuteParams.limit params
        else if String.eqb k "filter" then truthy_opt (ExecuteParams.filter params)
        else None
      else None
  end.

(** The characters of the class [[0-9a-f]], and the hexadecimal digits. *)
Definition lower_hex_digits : list ascii := list_ascii_of_string "0123456789abcdef".
Definition hex_digits : list ascii := list_ascii_of_string "0123456789abcdefABCDEF".

(** [s] begins with 8 characters of [digits] followed by a hyphen. *)
Definition canonical_shape (digits : list ascii) (s : string) : Prop :=
  ∃ pre rest, s = pre +:+ "-" +:+ rest ∧ String.length pre = 8%nat
              ∧ Forall (λ c, c ∈ digits) (list_ascii_of_string pre).

(** The entries of a site listing: the elements of [result.data], none
    when [data] is missing. *)
Definition listing_entries (result : value) : option (list value) :=
  match get_prop result "data" with
  | Ok VUndef | Ok VNull => Some []
  | Ok (VArr l) => Some l
  | _ => None
  end.

(** The entry [s] has fields, and neither its [internalReference] nor its
    [id] is [siteId]. *)
Definition entry_differs (siteId : string) (s : value) : Prop :=
  ∃ r i, get_prop s "internalReference" = Ok r ∧ r ≠ VStr siteId
         ∧ get_prop s "id" = Ok i ∧ i ≠ VStr siteId.

(** The offsets of the page requests: they start at [offset] and grow by
    the item count of each response. *)
Fixpoint page_offsets (offset : nat) (resps : list value) : list nat :=
  match resps with
  | [] => []
  | r :: rest => offset :: page_offsets (offset + length (items_of r))%nat rest
  end.

(** A server that holds the list [L] and is asked for it page by page:
    after the requests of [log] and those for the first [k] pages, the
    request for the offset [k * pageSize] is answered with a page that
    holds the next [pageSize] items of [L] and reports the total
    [length L]. *)
Definition serves (client : UnifiClient) (log : Log)
    (mk : nat → RequestOptions.t) (pageSize : nat) (L : list value) : Prop :=
  ∀ k, (k * pageSize ≤ length L)%nat →
    ∃ r,
      client (log ++ map (λ i, mk (i * pageSize)%nat) (seq 0 k)) (mk (k * pageSize)%nat)
      = Ok r
      ∧ page_items r = Some (take pageSize (drop (k * pageSize) L))
      ∧ get_prop r "totalCount" = Ok (VNum (num_of_nat (length L))).

(** The names of the placeholders of a template. *)
Definition holes (t : list segment) : list string :=
  omap (λ seg, match seg with Hole n => Some n | Lit _ => None end) t.

(** The names whose placeholder the request builder fills: the site, for
    a descriptor that needs one, and the positional arguments that have a
    truthy value. *)
Definition filled_names (cmd : CmdDef.t) (params : ExecuteParams.t) : list string :=
  (if CmdDef.needsSite cmd then ["siteId"] else [])
  ++ omap (λ arg, match truthy_opt (ExecuteParams.args params !! ArgDef.name arg) with
                  | Some _ => Some (ArgDef.name arg)
                  | None => None
                  end) (CmdDef.args cmd).

(** A path read as a template: the text outside braces is literal, the
    text between [{] and [}] is the name of a placeholder.  [cur] is the
    segment that is being read. *)
Fixpoint parse_template (cur : segment) (s : string) : list segment :=
  match s with
  | EmptyString => [cur]
  | String c rest =>
      match cur with
      | Lit text =>
          if Ascii.eqb c "{" then Lit text :: parse_template (Hole "") rest
          else parse_template (Lit (text +:+ String c "")) rest
      | Hole name =>
          if Ascii.eqb c "}" then Hole name :: parse_template (Lit "") rest
          else parse_template (Hole (name +:+ String c "")) rest
      end
  end.

(** The path of a descriptor is a template whose placeholders are, in this
    order, the site (exactly when the descriptor needs one) and the
    positional arguments. *)
Definition template_ok (cmd : CmdDef.t) : Prop :=
  let t := parse_template (Lit "") (CmdDef.path cmd) in
  CmdDef.path cmd = render t
  ∧ Forall wf_segment t
  ∧ Forall (λ arg, lacks "}" (ArgDef.name arg)) (CmdDef.args cmd)
  ∧ holes t = (if CmdDef.needsSite cmd then ["siteId"] else [])
              ++ map ArgDef.name (CmdDef.args cmd)
  ∧ NoDup (holes t).

Definition lacks_dec (c : ascii) (s : string) : Decision (lacks c s) :=
  @Forall_dec _ (λ c', c' ≠ c) _ (list_ascii_of_string s).

Definition wf_segment_dec (seg : segment) : Decision (wf_segment seg) :=
  match seg with
  | Lit text => lacks_dec "{" text
  | Hole name => @and_dec _ (lacks_dec "{" name) _ (lacks_dec "}" name)
  end.

Definition template_ok_dec (cmd : CmdDef.t) : Decision (template_ok cmd) :=
  let t := parse_template (Lit "") (CmdDef.path cmd) in
  @and_dec _ (decide (CmdDef.path cmd = render t)) _
    (@and_dec _ (@Forall_dec _ _ wf_segment_dec t) _
       (@and_dec _
          (@Forall_dec _ _ (λ arg, lacks_dec "}" (ArgDef.name arg))
             (CmdDef.args cmd)) _
          (@and_dec _
             (decide (holes t
                      = (if CmdDef.needsSite cmd then ["siteId"] else [])
                        ++ map ArgDef.name (CmdDef.args cmd))) _
             (decide (NoDup (holes t)))))).

(** The nesting depth of a value: 0 for a scalar, one more than its deepest
    element or property for an array or an object. *)
Fixpoint value_depth (v : value) : nat :=
  match v with
  | VArr items =>
      S ((fix go (l : list value) : nat :=
            match l with
            | [] => O
            | x :: l' => Nat.max (value_depth x) (go l')
            end) items)
  | VObj fields =>
      S ((fix go (l : list (string * value)) : nat :=
            match l with
            | [] => O
            | (_, x) :: l' => Nat.max (value_depth x) (go l')
            end) fields)
  | _ => O
  end.

(** Every required name has a schema among the properties. *)
Definition required_described (acc : list (string * value) * list string) : Prop :=
  ∀ name, name ∈ acc.2 → ∃ schema, own_prop acc.1 name = VObj schema.

(** Test data for the properties below: a list of five items served in
    pages of two; a client that answers the first requests with the given
    pages and fails afterwards; a configured server; a controller with one
    site, called [default], and two devices. *)
Definition five_items : list value := map item_id [1; 2; 3; 4; 5].

Definition three_pages : list value :=
  [page [1; 2] 5; page [3; 4] 5; page [5] 5].

Definition failing_after (pages : list value) : UnifiClient :=
  λ log _,
    match pages !! length log with
    | Some p => Ok p
    | None => Throw (TransportError VNull)
    end.

Definition test_config (readOnly : bool) : Config.t :=
  Config.mk (Some "https://192.168.1.1") (Some "key") "default" readOnly.

Definition home_site : string := "88f7af54-98f8-306a-a1c7-c9349722b1f6".

Definition home_client : UnifiClient :=
  mockClient [site_listing [site_entry home_site "default"]; page [1; 2] 2].

(** [{ siteId, args: { deviceId } }] *)
Definition device_params (siteId deviceId : string) : ExecuteParams.t :=
  ExecuteParams.mk (Some siteId) {[ "deviceId" := deviceId ]}
    None None None None VUndef.

(* ===================================================================== *)
(** ** Pagination                                                         *)
(* ===================================================================== *)

Section Pagination.

Variables (cmd : CmdDef.t) (params : ExecuteParams.t).
Variables (client : UnifiClient) (pageSize : Z).

Lemma page_requests_app mk offset resps r :
  page_requests mk offset (resps ++ [r])
  = page_requests mk offset resps ++ [mk (offset + length (all_items resps))%nat].
Proof.
  revert offset. induction resps as [|r0 resps IH]; intros offset; simpl.
  - by rewrite Nat.add_0_r.
  - rewrite IH. unfold all_items; simpl. rewrite length_app.
    by rewrite Nat.add_assoc.
Qed.

Lemma page_requests_length mk offset resps :
  length (page_requests mk offset resps) = length resps.
Proof.
  revert offset. induction resps as [|r0 resps IH]; intros offset; simpl; [done|].
  by rewrite IH.
Qed.

Lemma answered_app log reqs resps req r :
  answered client log reqs resps →
  client (log ++ reqs) req = Ok r →
  answered client log (reqs ++ [req]) (resps ++ [r]).
Proof.
  revert log resps. induction reqs as [|q reqs IH]; intros log [|r0 resps]; simpl;
    try tauto.
  - intros _ H. by rewrite app_nil_r in H.
  - intros [H0 H1] H. split; [done|]. apply IH; [done|].
    by rewrite <- app_assoc.
Qed.

Lemma all_items_snoc resps r :
  all_items (resps ++ [r]) = all_items resps ++ items_of r.
Proof.
  unfold all_items. rewrite map_app, concat_app. simpl. by rewrite app_nil_r.
Qed.

(** Every completed run of the loop is such a run. *)
Lemma executeAllPages_loop_trace fuel allData offset log res log' :
  executeAllPages_loop fuel cmd params client pageSize allData offset log
  = Some (res, log') →
  paged_run cmd params client pageSize allData offset log res log'.
Proof.
  revert allData offset log.
  induction fuel as [|fuel IH]; intros allData offset log; simpl; [done|].
  unfold executeCommand. fold (page_request cmd params pageSize offset).
  set (req := page_request cmd params pageSize offset).
  assert (Hstop : ∀ final,
             client log req = final →
             Some (final_result allData final, log ++ [req]) = Some (res, log') →
             paged_run cmd params client pageSize allData offset log res log').
  { intros final Hfin [= <- <-]. exists [], final. simpl.
    rewrite Nat.add_0_r, !app_nil_r. by fold req. }
  destruct (client log req) as [result|e] eqn:Hans.
  2:{ intros H. by apply (Hstop (Throw e)). }
  destruct (get_prop result "data") as [data|e] eqn:Hdata.
  2:{ intros H. apply (Hstop (Ok result)); [done|]. simpl. by rewrite Hdata. }
  destruct data as [| |b|n|s|data|fields];
    try (intros H; apply (Hstop (Ok result)); [done|]; simpl; by rewrite Hdata).
  destruct (length_ge _ _ || _) eqn:Hcond.
  - intros H. apply (Hstop (Ok result)); [done|]. simpl. by rewrite Hdata.
  - clear Hstop. intros Hrec.
    apply IH in Hrec as (pages & final & Hlog & Hansd & Hfull & Hfin & Hres).
    apply orb_false_iff in Hcond as [_ Hlt]. apply Z.ltb_ge in Hlt.
    assert (Hitems : items_of result = data).
    { unfold items_of, page_items. by rewrite Hdata. }
    exists (result :: pages), final. simpl.
    unfold all_items in *. simpl. rewrite Hitems, length_app.
    rewrite <- !app_assoc in *. simpl in *.
    rewrite Nat.add_assoc. fold req.
    repeat split; try done.
    constructor; [|done]. exists data. split; [|done].
    unfold page_items. by rewrite Hdata.
Qed.

(** The first request of any completed call. *)
Lemma executeAllPages_first_request fuel log res log' :
  executeAllPages fuel cmd params client pageSize log = Some (res, log') →
  ∃ more, log' = log ++ first_request cmd params pageSize :: more.
Proof.
  unfold executeAllPages, first_request. destruct (CmdDef.paginatable cmd); simpl.
  - intros H. apply executeAllPages_loop_trace in H
      as (pages & final & -> & _ & _ & _ & _).
    destruct pages as [|r pages]; simpl; eauto.
  - unfold executeCommand. intros [= <- <-]. by exists [].
Qed.

End Pagination.

(* ===================================================================== *)
(** ** The query of a resolved request                                    *)
(* ===================================================================== *)

Lemma set_opt_lookup k o (q : gmap string string) k' :
  set_opt k o q !! k'
  = if decide (k = k') then match o with Some v => Some v | None => q !! k' end
    else q !! k'.
Proof.
  unfold set_opt. destruct o as [v|]; case_decide; subst;
    rewrite ?lookup_insert_eq, ?lookup_insert_ne; done.
Qed.

Lemma fold_add_extra_lookup params l (q : gmap string string) k :
  fold_left (add_extra params) l q !! k
  = match (if bool_decide (k ∈ map QueryParamDef.name l)
           then extra_value params k else None) with
    | Some v => Some v
    | None => q !! k
    end.
Proof.
  revert q. induction l as [|qp l IH]; intros q; simpl; [done|].
  rewrite IH. unfold add_extra. rewrite set_opt_lookup.
  destruct (decide (QueryParamDef.name qp = k)) as [->|Hne].
  - rewrite (bool_decide_eq_true_2 (_ ∈ _ :: _)) by apply list_elem_of_here.
    case_bool_decide; by destruct (extra_value params _).
  - case_bool_decide as Hin.
    + rewrite bool_decide_eq_true_2; [done|]. by apply list_elem_of_further.
    + rewrite bool_decide_eq_false_2; [done|].
      intros [?|?]%elem_of_cons; congruence.
Qed.

Lemma pagination_query_lookup cmd params k :
  pagination_query cmd params !! k
  = if CmdDef.paginatable cmd then
      if String.eqb k "offset" then ExecuteParams.offset params
      else if String.eqb k "limit" then ExecuteParams.limit params
      else if String.eqb k "filter" then truthy_opt (ExecuteParams.filter params)
      else None
    else None.
Proof.
  unfold pagination_query. destruct (CmdDef.paginatable cmd); [|done].
  rewrite !set_opt_lookup.
  destruct (ExecuteParams.offset params), (ExecuteParams.limit params),
    (truthy_opt (ExecuteParams.filter params));
    destruct (String.eqb_spec k "offset") as [Ho|Ho];
    destruct (String.eqb_spec k "limit") as [Hl|Hl];
    destruct (String.eqb_spec k "filter") as [Hf|Hf];
    repeat case_decide; try done; congruence.
Qed.

Lemma resolved_query_lookup cmd params k :
  ExecuteResult.query (resolveRequest cmd params) !! k = query_entry cmd params k.
Proof.
  unfold resolveRequest, query_entry; simpl.
  by rewrite fold_add_extra_lookup, pagination_query_lookup.
Qed.

Lemma not_declared_extra cmd k :
  Forall (λ qp, QueryParamDef.name qp ≠ k) (CmdDef.extraQuery cmd) →
  bool_decide (k ∈ map QueryParamDef.name (CmdDef.extraQuery cmd)) = false.
Proof.
  intros H. apply bool_decide_eq_false_2.
  intros (qp & <- & Hin)%list_elem_of_In%in_map_iff.
  apply list_elem_of_In in Hin. by eapply Forall_forall in H.
Qed.

Lemma page_request_query cmd params pageSize n :
  RequestOptions.query (page_request cmd params pageSize n)
  = ExecuteResult.query (resolveRequest cmd (pageParams params n pageSize)).
Proof. done. Qed.

Lemma page_request_paging cmd params pageSize n :
  CmdDef.paginatable cmd = true →
  extra_beyond_pagination cmd →
  RequestOptions.query (page_request cmd params pageSize n) !! "offset"
  = Some (js_String (Z.of_nat n))
  ∧ RequestOptions.query (page_request cmd params pageSize n) !! "limit"
    = Some (js_String pageSize).
Proof.
  intros Hpag Hextra. rewrite page_request_query.
  rewrite !resolved_query_lookup. unfold query_entry.
  rewrite !not_declared_extra, Hpag; [done| |].
  - eapply Forall_impl; [exact Hextra|]. by intros ? [].
  - eapply Forall_impl; [exact Hextra|]. by intros ? [].
Qed.

Lemma without_paging_lookup (q : gmap string string) k :
  without_paging q !! k
  = if decide (k = "offset" ∨ k = "limit") then None else q !! k.
Proof.
  unfold without_paging. case_decide as H.
  - destruct H as [-> | ->]; [by rewrite lookup_delete_eq|].
    rewrite lookup_delete_ne by done. by rewrite lookup_delete_eq.
  - rewrite !lookup_delete_ne; [done| |]; intros <-; tauto.
Qed.

(** Apart from [offset] and [limit], a page request is the request that
    the parameters of the caller resolve to. *)
Lemma page_request_frame cmd params pageSize n :
  CmdDef.paginatable cmd = true →
  RequestOptions.method (page_request cmd params pageSize n) = CmdDef.method cmd
  ∧ RequestOptions.path (page_request cmd params pageSize n)
    = ExecuteResult.path (resolveRequest cmd params)
  ∧ RequestOptions.body (page_request cmd params pageSize n)
    = ExecuteResult.body (resolveRequest cmd params)
  ∧ without_paging (RequestOptions.query (page_request cmd params pageSize n))
    = without_paging (ExecuteResult.query (resolveRequest cmd params)).
Proof.
  intros Hpag. repeat split.
  apply map_eq. intros k. rewrite !without_paging_lookup.
  case_decide as Hk; [done|].
  rewrite page_request_query.
  rewrite !resolved_query_lookup. unfold query_entry, extra_value, extra_lookup.
  simpl. rewrite Hpag.
  destruct (String.eqb_spec k "offset") as [->|_]; [tauto|].
  destruct (String.eqb_spec k "limit") as [->|_]; [tauto|]. done.
Qed.

(* ===================================================================== *)
(** ** Properties of the paginator                                        *)
(* ===================================================================== *)

Lemma answered_functional client log reqs resps1 resps2 :
  answered client log reqs resps1 → answered client log reqs resps2 →
  resps1 = resps2.
Proof.
  revert log resps1 resps2.
  induction reqs as [|q reqs IH]; intros log [|r1 resps1] [|r2 resps2]; simpl;
    try tauto.
  intros [H1 H1'] [H2 H2']. rewrite H1 in H2. injection H2 as <-.
  f_equal. by eapply IH.
Qed.

Lemma last_snoc_value (resps : list value) r : last (resps ++ [r]) = Some r.
Proof. by rewrite last_snoc. Qed.

(** A completed call on a paginatable descriptor that returns a value: the
    answers it received, in order. *)
Lemma executeAllPages_answers cmd params client pageSize fuel log v log' :
  CmdDef.paginatable cmd = true →
  executeAllPages fuel cmd params client pageSize log = Some (Ok v, log') →
  ∃ pages final,
    let resps := pages ++ [final] in
    let reqs := page_requests (page_request cmd params pageSize) 0 resps in
    log' = log ++ reqs
    ∧ answered client log reqs resps
    ∧ Forall (λ r, ∃ d, page_items r = Some d ∧ pageSize ≤ Z.of_nat (length d)) pages
    ∧ Ok v = final_result (all_items pages) (Ok final).
Proof.
  intros Hpag. unfold executeAllPages. rewrite Hpag; simpl.
  intros (pages & final & Hlog & Hans & Hfull & Hfin & Hres)%executeAllPages_loop_trace.
  simpl in *. destruct final as [final|e]; [|done].
  exists pages, final. rewrite page_requests_app. simpl.
  repeat split; try done. by apply answered_app.
Qed.

(** C1: for a paginatable descriptor, the requests of [executeAllPages]
    are the page requests at the offsets 0, then increased by the item
    count of each returned page; such a request carries [limit = pageSize]
    and that offset in its query (for a descriptor whose extra query
    parameters are not themselves called [offset] or [limit]); the data
    lists of the pages are concatenated in fetch order, and when the last
    answer is a page the call returns [{ data: merged list, totalCount }].
    With page size 2 and the pages [{data:[{id:1},{id:2}], totalCount:4}]
    and [{data:[{id:3},{id:4}], totalCount:4}], it returns
    [{data:[{id:1},{id:2},{id:3},{id:4}], totalCount:4}] after exactly 2
    requests. *)
Theorem executeAllPages_merges_pages :
  (∀ cmd params client pageSize fuel log v log',
      CmdDef.paginatable cmd = true →
      executeAllPages fuel cmd params client pageSize log = Some (Ok v, log') →
      ∃ resps,
        let reqs := page_requests (page_request cmd params pageSize) 0 resps in
        log' = log ++ reqs
        ∧ answered client log reqs resps
        ∧ (extra_beyond_pagination cmd →
           ∀ n,
             RequestOptions.query (page_request cmd params pageSize n) !! "offset"
             = Some (js_String (Z.of_nat n))
             ∧ RequestOptions.query (page_request cmd params pageSize n) !! "limit"
               = Some (js_String pageSize))
        ∧ (∀ r, last resps = Some r → is_Some (page_items r) →
              v = VObj [("data", VArr (all_items resps));
                        ("totalCount", VNum (totalCount_of r (all_items resps)))]))
  ∧ (∃ log',
        executeAllPages 2 cmd_getAdoptedDeviceOverviewPage no_params
          (mockClient [page [1; 2] 4; page [3; 4] 4]) 2 []
        = Some (Ok (VObj [("data", VArr [item_id 1; item_id 2; item_id 3; item_id 4]);
                          ("totalCount", VNum (Fin (inject_Z 4)))]), log')
        ∧ length log' = 2%nat).
Proof.
  split.
  - intros cmd params client pageSize fuel log v log' Hpag Hrun.
    destruct (executeAllPages_answers _ _ _ _ _ _ _ _ Hpag Hrun)
      as (pages & final & Hlog & Hans & _ & Hres).
    exists (pages ++ [final]). simpl. repeat split; try done.
    + by apply page_request_paging.
    + by apply page_request_paging.
    + intros r Hlast [d Hd]. rewrite last_snoc_value in Hlast.
      injection Hlast as ->. simpl in Hres. unfold page_items in Hd.
      rewrite all_items_snoc. unfold items_of, page_items.
      destruct (get_prop r "data") as [[]|]; try done.
      by injection Hres as ->.
  - eexists. split; [vm_compute; reflexivity|]. reflexivity.
Qed.

Lemma executeAllPages_merges_pages_witness :
  let cmd := cmd_getAdoptedDeviceOverviewPage in
  let client := mockClient [page [1; 2] 4; page [3; 4] 4] in
  let v := VObj [("data", VArr [item_id 1; item_id 2; item_id 3; item_id 4]);
                 ("totalCount", VNum (Fin (inject_Z 4)))] in
  let log' := [page_request cmd no_params 2 0; page_request cmd no_params 2 2] in
  CmdDef.paginatable cmd = true
  ∧ extra_beyond_pagination cmd
  ∧ executeAllPages 2 cmd no_params client 2 [] = Some (Ok v, log')
  ∧ ∃ resps,
      log' = [] ++ page_requests (page_request cmd no_params 2) 0 resps
      ∧ answered client [] (page_requests (page_request cmd no_params 2) 0 resps) resps
      ∧ RequestOptions.query (page_request cmd no_params 2 2) !! "offset" = Some "2"
      ∧ RequestOptions.query (page_request cmd no_params 2 2) !! "limit" = Some "2"
      ∧ (∀ r, last resps = Some r → is_Some (page_items r) →
            v = VObj [("data", VArr (all_items resps));
                      ("totalCount", VNum (totalCount_of r (all_items resps)))]).
Proof.
  intros cmd client v log'.
  assert (Hextra : extra_beyond_pagination cmd) by constructor.
  assert (Hrun : executeAllPages 2 cmd no_params client 2 [] = Some (Ok v, log'))
    by (vm_compute; reflexivity).
  split; [reflexivity|]. split; [exact Hextra|]. split; [exact Hrun|].
  destruct (proj1 executeAllPages_merges_pages cmd no_params client 2 2%nat []
              v log' eq_refl Hrun)
    as (resps & Hlog & Hans & Hquery & Hmerge).
  exists resps. split; [exact Hlog|]. split; [exact Hans|].
  split; [exact (proj1 (Hquery Hextra 2%nat))|].
  split; [exact (proj2 (Hquery Hextra 2%nat))|exact Hmerge].
Defined.

(** Two more cases of the test suite: the reported total is reached after
    one page, and a descriptor that is not paginatable is passed through
    with a single request. *)
Example executeAllPages_total_reached :
  ∃ req,
    executeAllPages 1 cmd_getAdoptedDeviceOverviewPage no_params
      (mockClient [page [1; 2] 2]) 2 []
    = Some (Ok (VObj [("data", VArr [item_id 1; item_id 2]);
                      ("totalCount", VNum (Fin (inject_Z 2)))]), [req]).
Proof. eexists. vm_compute. reflexivity. Qed.

Example executeAllPages_passthrough fuel cmd params client pageSize log :
  CmdDef.paginatable cmd = false →
  executeAllPages fuel cmd params client pageSize log
  = Some (client log (request_options (resolveRequest cmd params)),
          log ++ [request_options (resolveRequest cmd params)]).
Proof. intros H. unfold executeAllPages. by rewrite H. Qed.

(** One round of the loop whose answer is a short page. *)
Lemma executeAllPages_loop_short_page cmd params client pageSize fuel
    allData offset log result data :
  client log (page_request cmd params pageSize offset) = Ok result →
  page_items result = Some data →
  Z.of_nat (length data) < pageSize →
  executeAllPages_loop (S fuel) cmd params client pageSize allData offset log
  = Some (Ok (VObj [("data", VArr (allData ++ data));
                    ("totalCount", VNum (totalCount_of result (allData ++ data)))]),
          log ++ [page_request cmd params pageSize offset]).
Proof.
  intros Hans Hitems Hshort. simpl. unfold executeCommand.
  fold (page_request cmd params pageSize offset). rewrite Hans.
  unfold page_items in Hitems.
  destruct (get_prop result "data") as [[]|]; try done.
  injection Hitems as ->.
  apply Z.ltb_lt in Hshort. rewrite Hshort. by rewrite orb_true_r.
Qed.

(** C2: for a paginatable descriptor, [executeAllPages] stops as soon as a
    fetched page has fewer items than [pageSize], whatever [totalCount]
    the response reports: at any point of the pagination such an answer
    ends the loop with the items merged so far, and in a completed call a
    short page is the answer to the last request.  With page size 5 and
    the single page [{data:[{id:1}], totalCount:100}], one request is made
    and the single item is returned. *)
Theorem executeAllPages_stops_on_short_page :
  (∀ cmd params client pageSize fuel allData offset log result data,
      client log (page_request cmd params pageSize offset) = Ok result →
      page_items result = Some data →
      Z.of_nat (length data) < pageSize →
      executeAllPages_loop (S fuel) cmd params client pageSize allData offset log
      = Some (Ok (VObj [("data", VArr (allData ++ data));
                        ("totalCount", VNum (totalCount_of result (allData ++ data)))]),
              log ++ [page_request cmd params pageSize offset]))
  ∧ (∀ cmd params client pageSize fuel log v reqs resps i r data,
        CmdDef.paginatable cmd = true →
        executeAllPages fuel cmd params client pageSize log = Some (Ok v, log ++ reqs) →
        answered client log reqs resps →
        resps !! i = Some r →
        page_items r = Some data →
        Z.of_nat (length data) < pageSize →
        S i = length resps
        ∧ v = VObj [("data", VArr (all_items resps));
                    ("totalCount", VNum (totalCount_of r (all_items resps)))])
  ∧ (∃ req,
        executeAllPages 1 cmd_getAdoptedDeviceOverviewPage no_params
          (mockClient [page [1] 100]) 5 []
        = Some (Ok (VObj [("data", VArr [item_id 1]);
                          ("totalCount", VNum (Fin (inject_Z 100)))]), [req])).
Proof.
  split; [|split].
  - intros. by apply executeAllPages_loop_short_page.
  - intros cmd params client pageSize fuel log v reqs resps i r data
      Hpag Hrun Hans Hi Hitems Hshort.
    destruct (executeAllPages_answers _ _ _ _ _ _ _ _ Hpag Hrun)
      as (pages & final & Hlog & Hans' & Hfull & Hres).
    simpl in *. apply app_inv_head in Hlog. subst reqs.
    rewrite (answered_functional _ _ _ _ _ Hans Hans') in *. clear Hans.
    destruct (decide (i < length pages)%nat) as [Hlt|Hge].
    + rewrite lookup_app_l in Hi by done.
      eapply Forall_lookup_1 in Hfull as (d & Hd & Hle); [|exact Hi].
      rewrite Hitems in Hd. injection Hd as <-. lia.
    + apply lookup_lt_Some in Hi as Hb. rewrite length_app in Hb. simpl in Hb.
      assert (i = length pages) as -> by lia.
      rewrite list_lookup_middle in Hi by done. injection Hi as ->.
      rewrite length_app; simpl. split; [lia|].
      rewrite all_items_snoc. unfold items_of. rewrite Hitems. simpl.
      unfold page_items in Hitems.
      destruct (get_prop r "data") as [[]|]; try done.
      injection Hitems as ->. by injection Hres as ->.
  - eexists. vm_compute. reflexivity.
Qed.

Lemma executeAllPages_stops_on_short_page_witness :
  let client := mockClient [page [1] 100] in
  let req := page_request cmd_getAdoptedDeviceOverviewPage no_params 5 0 in
  client [] req = Ok (page [1] 100)
  ∧ page_items (page [1] 100) = Some [item_id 1]
  ∧ Z.of_nat (length [item_id 1]) < 5
  ∧ executeAllPages_loop 1 cmd_getAdoptedDeviceOverviewPage no_params client 5
      [] 0 []
    = Some (Ok (VObj [("data", VArr ([] ++ [item_id 1]));
                      ("totalCount",
                       VNum (totalCount_of (page [1] 100) ([] ++ [item_id 1])))]),
            [] ++ [req]).
Proof.
  intros client req.
  assert (Hshort : Z.of_nat (length [item_id 1]) < 5) by (simpl; lia).
  split; [reflexivity|]. split; [reflexivity|]. split; [exact Hshort|].
  exact (proj1 executeAllPages_stops_on_short_page
           cmd_getAdoptedDeviceOverviewPage no_params client 5 0%nat [] 0%nat []
           (page [1] 100) [item_id 1] eq_refl eq_refl Hshort).
Defined.

Lemma page_requests_elem mk offset resps req :
  req ∈ page_requests mk offset resps → ∃ n, req = mk n.
Proof.
  revert offset. induction resps as [|r resps IH]; intros offset; simpl.
  - by intros ?%elem_of_nil.
  - intros [->|Hin]%elem_of_cons; eauto.
Qed.

Lemma pageParams_with_offset_limit params o l n pageSize :
  pageParams (with_offset_limit params o l) n pageSize = pageParams params n pageSize.
Proof. done. Qed.

Lemma executeAllPages_loop_with_offset_limit fuel cmd params o l client pageSize
    allData offset log :
  executeAllPages_loop fuel cmd (with_offset_limit params o l) client pageSize
    allData offset log
  = executeAllPages_loop fuel cmd params client pageSize allData offset log.
Proof.
  revert allData offset log. induction fuel as [|fuel IH]; intros; simpl; [done|].
  rewrite pageParams_with_offset_limit. unfold executeCommand.
  destruct (client log _) as [result|e]; [|done].
  destruct (get_prop result "data") as [[]|]; try done.
  by rewrite IH.
Qed.

Lemma page_requests_offsets mk offset resps :
  page_requests mk offset resps = map mk (page_offsets offset resps).
Proof.
  revert offset. induction resps as [|r resps IH]; intros offset; simpl; [done|].
  by rewrite IH.
Qed.

(** C10: the requests that [executeAllPages] issues for a paginatable
    descriptor are the page requests at the paginator's own offsets: 0,
    then increased by the item count of each page that the client
    answered.  They all have the method of the descriptor and the path,
    body and query that the parameters of the caller resolve to, except
    for the [offset] and [limit] entries of the query, so that any two of
    them differ in these two entries at most.  These two entries are, in
    the order of the requests, the string of the paginator's offset and
    the string of [pageSize] (for a descriptor whose extra query
    parameters are not themselves called [offset] or [limit]), whatever
    [offset] and [limit] the caller supplied; and the [offset] and [limit]
    of the caller play no part in the call. *)
Theorem executeAllPages_requests_frame
    cmd params client pageSize fuel log res log' :
  CmdDef.paginatable cmd = true →
  executeAllPages fuel cmd params client pageSize log = Some (res, log') →
  (∃ pages,
      let offsets := page_offsets 0 pages ++ [length (all_items pages)] in
      let reqs := map (page_request cmd params pageSize) offsets in
      log' = log ++ reqs
      ∧ answered client log
          (map (page_request cmd params pageSize) (page_offsets 0 pages)) pages
      ∧ (extra_beyond_pagination cmd →
         map (λ req, (RequestOptions.query req !! "offset",
                      RequestOptions.query req !! "limit")) reqs
         = map (λ n, (Some (js_String (Z.of_nat n)), Some (js_String pageSize)))
             offsets)
      ∧ (∀ req, req ∈ reqs →
            (∃ n, req = page_request cmd params pageSize n)
            ∧ RequestOptions.method req = CmdDef.method cmd
            ∧ RequestOptions.path req = ExecuteResult.path (resolveRequest cmd params)
            ∧ RequestOptions.body req = ExecuteResult.body (resolveRequest cmd params)
            ∧ without_paging (RequestOptions.query req)
              = without_paging (ExecuteResult.query (resolveRequest cmd params)))
      ∧ (∀ req1 req2, req1 ∈ reqs → req2 ∈ reqs →
            RequestOptions.method req1 = RequestOptions.method req2
            ∧ RequestOptions.path req1 = RequestOptions.path req2
            ∧ RequestOptions.body req1 = RequestOptions.body req2
            ∧ without_paging (RequestOptions.query req1)
              = without_paging (RequestOptions.query req2)))
  ∧ (∀ o l,
        executeAllPages fuel cmd (with_offset_limit params o l) client pageSize log
        = Some (res, log')).
Proof.
  intros Hpag Hrun.
  assert (Htrace : ∃ pages,
            log' = log ++ map (page_request cmd params pageSize)
                            (page_offsets 0 pages ++ [length (all_items pages)])
            ∧ answered client log
                (map (page_request cmd params pageSize) (page_offsets 0 pages)) pages).
  { unfold executeAllPages in Hrun. rewrite Hpag in Hrun. simpl in Hrun.
    apply executeAllPages_loop_trace in Hrun
      as (pages & final & Hlog & Hans & _ & _ & _).
    exists pages. rewrite map_app, <- page_requests_offsets. by split. }
  destruct Htrace as (pages & -> & Hans).
  set (offsets := page_offsets 0 pages ++ [length (all_items pages)]).
  set (reqs := map (page_request cmd params pageSize) offsets).
  assert (Hframe : ∀ req, req ∈ reqs →
            (∃ n, req = page_request cmd params pageSize n)
            ∧ RequestOptions.method req = CmdDef.method cmd
            ∧ RequestOptions.path req = ExecuteResult.path (resolveRequest cmd params)
            ∧ RequestOptions.body req = ExecuteResult.body (resolveRequest cmd params)
            ∧ without_paging (RequestOptions.query req)
              = without_paging (ExecuteResult.query (resolveRequest cmd params))).
  { intros req (n & <- & _)%list_elem_of_In%in_map_iff.
    split; [eauto|]. by apply page_request_frame. }
  split.
  - exists pages. cbv zeta. fold offsets. fold reqs.
    split; [done|]. split; [done|]. split; [|split; [done|]].
    + intros Hextra. unfold reqs. rewrite map_map. apply map_ext. intros n.
      by destruct (page_request_paging cmd params pageSize n Hpag Hextra) as [-> ->].
    + intros req1 req2 (_ & Hm1 & Hp1 & Hb1 & Hq1)%Hframe
        (_ & Hm2 & Hp2 & Hb2 & Hq2)%Hframe.
      by rewrite Hm1, Hm2, Hp1, Hp2, Hb1, Hb2, Hq1, Hq2.
  - intros o l. unfold executeAllPages in *. simpl.
    rewrite Hpag in *. simpl in *.
    by rewrite executeAllPages_loop_with_offset_limit.
Qed.

Lemma executeAllPages_requests_frame_witness :
  let cmd := cmd_getAdoptedDeviceOverviewPage in
  let client := mockClient [page [1; 2] 4; page [3; 4] 4] in
  let params := with_offset_limit no_params (Some "7") (Some "9") in
  let res := Ok (VObj [("data", VArr [item_id 1; item_id 2; item_id 3; item_id 4]);
                       ("totalCount", VNum (Fin (inject_Z 4)))]) in
  let log' := [page_request cmd params 2 0; page_request cmd params 2 2] in
  CmdDef.paginatable cmd = true
  ∧ extra_beyond_pagination cmd
  ∧ executeAllPages 2 cmd params client 2 [] = Some (res, log')
  ∧ map (λ req, (RequestOptions.query req !! "offset",
                 RequestOptions.query req !! "limit")) log'
    = [(Some "0", Some "2"); (Some "2", Some "2")]
  ∧ (∃ pages,
        let offsets := page_offsets 0 pages ++ [length (all_items pages)] in
        log' = [] ++ map (page_request cmd params 2) offsets
        ∧ map (λ req, (RequestOptions.query req !! "offset",
                       RequestOptions.query req !! "limit"))
            (map (page_request cmd params 2) offsets)
          = map (λ n, (Some (js_String (Z.of_nat n)), Some (js_String 2))) offsets)
  ∧ ∀ o l,
      executeAllPages 2 cmd (with_offset_limit params o l) client 2 []
      = Some (res, log').
Proof.
  intros cmd client params res log'.
  assert (Hextra : extra_beyond_pagination cmd) by constructor.
  assert (Hrun : executeAllPages 2 cmd params client 2 [] = Some (res, log'))
    by (vm_compute; reflexivity).
  split; [reflexivity|]. split; [exact Hextra|]. split; [exact Hrun|].
  split; [vm_compute; reflexivity|].
  destruct (executeAllPages_requests_frame cmd params client 2 2%nat [] res log'
              eq_refl Hrun) as [(pages & Hlog & _ & Hentries & _) Hcaller].
  split; [|exact Hcaller].
  exists pages. split; [exact Hlog|exact (Hentries Hextra)].
Defined.

(** A response that has a [data] property which is not a list, or no
    [data] property at all, ends the pagination and is returned as it is:
    the items accumulated from earlier pages are not part of the result. *)
Lemma executeAllPages_loop_raw_response cmd params client pageSize fuel
    allData offset log result data :
  client log (page_request cmd params pageSize offset) = Ok result →
  get_prop result "data" = Ok data →
  (∀ items, data ≠ VArr items) →
  executeAllPages_loop (S fuel) cmd params client pageSize allData offset log
  = Some (Ok result, log ++ [page_request cmd params pageSize offset]).
Proof.
  intros Hans Hdata Hna. simpl. unfold executeCommand.
  fold (page_request cmd params pageSize offset). rewrite Hans, Hdata.
  destruct data; try done. by destruct (Hna items).
Qed.

(** C7 fails on a [null] answer: [null] is not shaped as
    [{ data: list }], yet the call throws a [TypeError] (at the read of
    [result.data]) instead of returning the answer as it is. *)
Theorem executeAllPages_null_response_throws :
  ∃ req,
    executeAllPages 1 cmd_getAdoptedDeviceOverviewPage no_params
      (mockClient [VNull]) 200 []
    = Some (Throw TypeError, [req])
  ∧ page_items VNull = None.
Proof. eexists. split; [vm_compute; reflexivity|reflexivity]. Qed.

(* ===================================================================== *)
(** ** Properties of the request builder                                  *)
(* ===================================================================== *)

Lemma append_nil_l (s : string) : "" +:+ s = s.
Proof. reflexivity. Qed.

Lemma append_nil_r (s : string) : s +:+ "" = s.
Proof. induction s as [|c s IH]; [done|]. by rewrite <- IH at 2. Qed.

Lemma append_cons c (a b : string) : String c a +:+ b = String c (a +:+ b).
Proof. reflexivity. Qed.

Lemma append_assoc (a b c : string) : (a +:+ b) +:+ c = a +:+ (b +:+ c).
Proof.
  induction a as [|x a IH]; [done|]. rewrite !append_cons. by rewrite IH.
Qed.

Lemma prefix_cons a s1 b s2 :
  String.prefix (String a s1) (String b s2)
  = if ascii_dec a b then String.prefix s1 s2 else false.
Proof. reflexivity. Qed.

Lemma prefix_append pat s : String.prefix pat (pat +:+ s) = true.
Proof.
  induction pat as [|c pat IH]; [by destruct s|].
  rewrite append_cons, prefix_cons. by destruct (ascii_dec c c).
Qed.

Lemma drop_string_append pat s : drop_string (String.length pat) (pat +:+ s) = s.
Proof. induction pat as [|c pat IH]; [done|]. by rewrite append_cons. Qed.

Lemma lacks_cons c x s : lacks c (String x s) ↔ x ≠ c ∧ lacks c s.
Proof. unfold lacks. simpl. by rewrite Forall_cons. Qed.

Lemma split_first_unfold pat s :
  split_first pat s
  = if String.prefix pat s then Some ("", drop_string (String.length pat) s)
    else match s with
         | EmptyString => None
         | String c s' =>
             match split_first pat s' with
             | Some (before, after) => Some (String c before, after)
             | None => None
             end
         end.
Proof. by destruct s. Qed.

Lemma split_first_here pat s : split_first pat (pat +:+ s) = Some ("", s).
Proof. by rewrite split_first_unfold, prefix_append, drop_string_append. Qed.

Lemma GetSubstitution_plain matched before after val :
  lacks "$" val → GetSubstitution matched before after val = val.
Proof.
  induction val as [|c val IH]; [done|].
  intros [Hc Hval]%lacks_cons. simpl.
  destruct (Ascii.eqb_spec c "$"); [done|]. by rewrite IH.
Qed.

Lemma split_first_skip c0 pat u s :
  lacks c0 u →
  split_first (String c0 pat) (u +:+ s)
  = match split_first (String c0 pat) s with
    | Some (before, after) => Some (u +:+ before, after)
    | None => None
    end.
Proof.
  induction u as [|c u IH].
  - intros _. rewrite append_nil_l. by destruct (split_first _ s) as [[]|].
  - intros [Hc Hu]%lacks_cons. rewrite append_cons.
    rewrite split_first_unfold, prefix_cons.
    destruct (ascii_dec c0 c) as [->|_]; [done|].
    rewrite IH by done. by destruct (split_first _ s) as [[]|].
Qed.

Lemma prefix_closing a b r :
  lacks "}" a → lacks "}" b →
  String.prefix (a +:+ "}") (b +:+ "}" +:+ r) = true → a = b.
Proof.
  revert b. induction a as [|c a IH]; intros [|c' b];
    rewrite ?append_cons, ?append_nil_l, ?lacks_cons, ?prefix_cons.
  - done.
  - intros _ [Hc _]. destruct (ascii_dec "}" c'); [congruence|done].
  - intros [Hc _] _. destruct (ascii_dec c "}"); [congruence|done].
  - intros [_ Ha] [_ Hb].
    destruct (ascii_dec c c') as [->|]; [|done]. intros H. f_equal. by apply IH.
Qed.

Lemma lacks_append c a b : lacks c a → lacks c b → lacks c (a +:+ b).
Proof.
  induction a as [|x a IH]; [done|]. rewrite append_cons, !lacks_cons.
  intros [] ?. auto.
Qed.

Lemma split_first_render name t :
  lacks "}" name →
  Forall wf_segment t →
  split_first (placeholder name) (render t) = split_template name t.
Proof.
  intros Hname. induction 1 as [|seg t Hseg _ IH]; [done|].
  destruct seg as [text|n]; cbn [render render_segment split_template].
  - unfold placeholder at 1. rewrite append_cons, append_nil_l.
    rewrite split_first_skip by done.
    change (String "{" (name +:+ "}")) with (placeholder name). by rewrite IH.
  - destruct Hseg as [Hn1 Hn2].
    destruct (String.eqb_spec n name) as [->|Hne].
    + apply split_first_here.
    + unfold placeholder. rewrite !append_cons, !append_nil_l.
      rewrite split_first_unfold, prefix_cons.
      destruct (ascii_dec "{" "{"); [|done].
      rewrite (append_assoc n "}" (render t)).
      destruct (String.prefix (name +:+ "}") (n +:+ "}" +:+ render t)) eqn:Hpre.
      { destruct Hne. symmetry. by eapply prefix_closing. }
      rewrite <- (append_assoc n "}" (render t)).
      rewrite split_first_skip.
      2:{ apply lacks_append; [done|]. apply lacks_cons. split; [done|constructor]. }
      change (String "{" (name +:+ "}")) with (placeholder name). rewrite IH.
      destruct (split_template name t) as [[before after]|]; [|done].
      by rewrite append_cons, append_assoc.
Qed.

Lemma render_fill_first name val t :
  render (fill_first name val t)
  = match split_template name t with
    | Some (before, after) => before +:+ val +:+ after
    | None => render t
    end.
Proof.
  induction t as [|[text|n] t IH]; cbn [fill_first split_template]; [done| |].
  - cbn [render render_segment]. rewrite IH.
    destruct (split_template name t) as [[before after]|]; [|done].
    by rewrite append_assoc.
  - destruct (String.eqb n name); [done|].
    cbn [render render_segment]. rewrite IH.
    destruct (split_template name t) as [[before after]|]; [|done].
    by rewrite append_assoc.
Qed.

(** Replacing the placeholder of [name] in a rendered template fills the
    first hole of that name. *)
Lemma js_replace_render name val t :
  lacks "}" name → lacks "$" val → Forall wf_segment t →
  js_replace (render t) (placeholder name) val = render (fill_first name val t).
Proof.
  intros Hname Hval Ht. unfold js_replace.
  rewrite split_first_render, render_fill_first by done.
  destruct (split_template name t) as [[before after]|]; [|done].
  by rewrite GetSubstitution_plain.
Qed.

Lemma fill_first_wf name val t :
  lacks "{" val → Forall wf_segment t → Forall wf_segment (fill_first name val t).
Proof.
  intros Hval. induction 1 as [|[text|n] t Hseg Ht IH]; cbn [fill_first].
  - done.
  - by constructor.
  - destruct (String.eqb n name); by constructor.
Qed.

Lemma fold_substitute_arg params args t :
  Forall wf_segment t →
  Forall (λ arg, lacks "}" (ArgDef.name arg)) args →
  (∀ arg val, arg ∈ args →
     truthy_opt (ExecuteParams.args params !! ArgDef.name arg) = Some val →
     plain val) →
  fold_left (substitute_arg params) args (render t)
  = render (fold_left (fill_arg params) args t).
Proof.
  intros Ht Hnames. revert t Ht.
  induction Hnames as [|arg args Hname _ IH]; intros t Ht Hplain; [done|].
  cbn [fold_left]. unfold substitute_arg at 2, fill_arg at 2.
  destruct (truthy_opt _) as [val|] eqn:Hval.
  - destruct (Hplain arg val) as [Hbrace Hdollar]; [apply list_elem_of_here|done|].
    change ("{" +:+ ArgDef.name arg +:+ "}") with (placeholder (ArgDef.name arg)).
    rewrite js_replace_render by done.
    apply IH; [by apply fill_first_wf|].
    intros arg' val' Hin. apply Hplain. by apply list_elem_of_further.
  - apply IH; [done|].
    intros arg' val' Hin. apply Hplain. by apply list_elem_of_further.
Qed.

(** For a path template of literal text and placeholders and for values
    that hold neither [{] nor [$], the resolved path is the template with
    the site hole filled by [params.siteId] (or ["default"]) and then the
    hole of each positional argument filled by its value, in declared
    order; the hole of an argument without a truthy value stays. *)
Lemma resolveRequest_path_template cmd params t :
  CmdDef.path cmd = render t →
  Forall wf_segment t →
  Forall (λ arg, lacks "}" (ArgDef.name arg)) (CmdDef.args cmd) →
  (CmdDef.needsSite cmd = true →
   plain (siteId_or_default (ExecuteParams.siteId params))) →
  (∀ arg val, arg ∈ CmdDef.args cmd →
     truthy_opt (ExecuteParams.args params !! ArgDef.name arg) = Some val →
     plain val) →
  ExecuteResult.path (resolveRequest cmd params)
  = render (fill_template cmd params t).
Proof.
  intros Hpath Ht Hnames Hsite Hargs.
  unfold resolveRequest, fill_template. cbn [ExecuteResult.path]. rewrite Hpath.
  destruct (CmdDef.needsSite cmd).
  - destruct Hsite as [Hbrace Hdollar]; [done|].
    change "{siteId}" with (placeholder "siteId").
    rewrite js_replace_render; [|repeat constructor; done|done|done].
    apply fold_substitute_arg; [by apply fill_first_wf|done|done].
  - by apply fold_substitute_arg.
Qed.

Example resolveRequest_path_template_deviceGet siteId deviceId :
  siteId ≠ "" → deviceId ≠ "" → plain siteId → plain deviceId →
  ExecuteResult.path
    (resolveRequest cmd_getAdoptedDeviceDetails
       (ExecuteParams.mk (Some siteId) {[ "deviceId" := deviceId ]}
          None None None None VUndef))
  = "/v1/sites/" +:+ siteId +:+ "/devices/" +:+ deviceId.
Proof.
  intros Hs Hd Hps Hpd.
  rewrite (resolveRequest_path_template _ _
             [Lit "/v1/sites/"; Hole "siteId"; Lit "/devices/"; Hole "deviceId"]).
  - unfold fill_template, fill_arg. cbn [CmdDef.needsSite CmdDef.args
      cmd_getAdoptedDeviceDetails ExecuteParams.siteId ExecuteParams.args
      ArgDef.name fold_left].
    rewrite lookup_singleton_eq.
    destruct siteId as [|c1 s1]; [done|]. destruct deviceId as [|c2 s2]; [done|].
    cbn. by rewrite append_nil_r.
  - reflexivity.
  - repeat constructor; done.
  - repeat constructor; done.
  - intros _. cbn. by destruct siteId.
  - intros arg val ->%list_elem_of_singleton. cbn.
    rewrite lookup_singleton_eq. destruct deviceId; [done|]. by intros [= <-].
Qed.

(** The cases of the test suite. *)
Example resolveRequest_default_site :
  ExecuteResult.path (resolveRequest cmd_getAdoptedDeviceOverviewPage no_params)
  = "/v1/sites/default/devices".
Proof. reflexivity. Qed.

Example resolveRequest_positional :
  ExecuteResult.path
    (resolveRequest cmd_getAdoptedDeviceDetails
       (ExecuteParams.mk (Some "s1") {[ "deviceId" := "dev42" ]}
          None None None None VUndef))
  = "/v1/sites/s1/devices/dev42".
Proof. vm_compute. reflexivity. Qed.

Example resolveRequest_missing_positional :
  ExecuteResult.path
    (resolveRequest cmd_getAdoptedDeviceDetails
       (ExecuteParams.mk (Some "s1") {[ "deviceId" := "" ]}
          None None None None VUndef))
  = "/v1/sites/s1/devices/{deviceId}".
Proof. vm_compute. reflexivity. Qed.

Example camelCase_tests :
  camelCase "firewall-zone" = "firewallZone" ∧ camelCase "api-key" = "apiKey"
  ∧ camelCase "a-b-c" = "aBC" ∧ camelCase "siteId" = "siteId"
  ∧ camelCase "offset" = "offset".
Proof. repeat split. Qed.

(** C3 fails on values that hold a replacement pattern: the site id [$&]
    is not substituted for the [{siteId}] placeholder, because
    [String.prototype.replace] expands [$&] to the matched text and so puts
    the placeholder back; likewise [$$] in a positional value yields a
    single [$]. *)
Theorem resolveRequest_dollar_patterns :
  ExecuteResult.path
    (resolveRequest cmd_getAdoptedDeviceOverviewPage
       (ExecuteParams.mk (Some "$&") ∅ None None None None VUndef))
  = "/v1/sites/{siteId}/devices"
  ∧ ExecuteResult.path
      (resolveRequest cmd_getAdoptedDeviceDetails
         (ExecuteParams.mk (Some "s1") {[ "deviceId" := "a$$b" ]}
            None None None None VUndef))
    = "/v1/sites/s1/devices/a$b".
Proof. split; vm_compute; reflexivity. Qed.

(** C6 does not hold as stated: the descriptor [deleteVouchers] is not
    paginatable and the parameters carry no [filter], yet the request has a
    [filter] query parameter, taken from the declared extra parameter of
    that name. *)
Lemma resolveRequest_filter_without_pagination :
  let params :=
    ExecuteParams.mk (Some "s1") ∅ None None None
      (Some {[ "filter" := "expired eq true" ]}) VUndef in
  CmdDef.paginatable cmd_deleteVouchers = false
  ∧ ExecuteParams.filter params = None
  ∧ ExecuteResult.query (resolveRequest cmd_deleteVouchers params) !! "filter"
    = Some "expired eq true".
Proof. repeat split. Qed.

(** C6, as it holds: each declared extra query parameter is emitted under its
    declared name when [params.extraQuery] has a value under that name or,
    failing that, under its camel-cased alias; a key that is not such a
    parameter is emitted only for a paginatable descriptor, and then
    [offset] and [limit] are emitted when supplied and [filter] when
    supplied and not empty.  In particular [offset], [limit] and [filter]
    appear in the query only in one of these two ways. *)
Theorem resolveRequest_query cmd params :
  let query := ExecuteResult.query (resolveRequest cmd params) in
  (∀ k, query !! k = query_entry cmd params k)
  ∧ (∀ qp v, qp ∈ CmdDef.extraQuery cmd →
        extra_lookup params (QueryParamDef.name qp) = Some v
        ∨ (extra_lookup params (QueryParamDef.name qp) = None
           ∧ extra_lookup params (camelCase (QueryParamDef.name qp)) = Some v) →
        query !! QueryParamDef.name qp = Some v)
  ∧ (∀ k v, k ∈ ["offset"; "limit"; "filter"] → query !! k = Some v →
        (∃ qp, qp ∈ CmdDef.extraQuery cmd ∧ QueryParamDef.name qp = k
               ∧ extra_value params k = Some v)
        ∨ (CmdDef.paginatable cmd = true
           ∧ ((k = "offset" ∧ ExecuteParams.offset params = Some v)
              ∨ (k = "limit" ∧ ExecuteParams.limit params = Some v)
              ∨ (k = "filter" ∧ ExecuteParams.filter params = Some v ∧ v ≠ "")))).
Proof.
  intros query. subst query. split; [|split].
  - apply resolved_query_lookup.
  - intros qp v Hin Hval. rewrite resolved_query_lookup. unfold query_entry.
    rewrite bool_decide_eq_true_2.
    2:{ apply list_elem_of_In, in_map, list_elem_of_In, Hin. }
    unfold extra_value. by destruct Hval as [->|[-> ->]].
  - intros k v Hk. rewrite resolved_query_lookup. unfold query_entry.
    case_bool_decide as Hdecl.
    + apply list_elem_of_In, in_map_iff in Hdecl as (qp & Hname & Hin).
      apply list_elem_of_In in Hin.
      destruct (extra_value params k) as [v'|] eqn:Hextra.
      * intros [= ->]. left. eauto.
      * destruct (CmdDef.paginatable cmd); [|done]. intros Hv. right. split; [done|].
        revert Hv. clear -Hk. revert Hk.
        rewrite !elem_of_cons, elem_of_nil.
        intros [->|[->|[->|[]]]]; simpl; eauto.
        unfold truthy_opt. destruct (ExecuteParams.filter params) as [[|c s]|]; try done.
        intros [= <-]. right. right. done.
    + destruct (CmdDef.paginatable cmd); [|done]. intros Hv. right. split; [done|].
      revert Hv. clear -Hk. revert Hk.
      rewrite !elem_of_cons, elem_of_nil.
      intros [->|[->|[->|[]]]]; simpl; eauto.
      unfold truthy_opt. destruct (ExecuteParams.filter params) as [[|c s]|]; try done.
      intros [= <-]. right. right. done.
Qed.

Lemma resolveRequest_query_witness :
  let params :=
    ExecuteParams.mk (Some "s1") {[ "networkId" := "n1" ]} None None None
      (Some {[ "force" := "true" ]}) VUndef in
  QueryParamDef.mk "force" false "Force deletion" ∈ CmdDef.extraQuery cmd_deleteNetwork
  ∧ extra_lookup params "force" = Some "true"
  ∧ ExecuteResult.query (resolveRequest cmd_deleteNetwork params) !! "force"
    = Some "true".
Proof.
  intros params.
  assert (Hin : QueryParamDef.mk "force" false "Force deletion"
                ∈ CmdDef.extraQuery cmd_deleteNetwork) by apply list_elem_of_here.
  assert (Hval : extra_lookup params "force" = Some "true") by reflexivity.
  split; [exact Hin|]. split; [exact Hval|].
  exact (proj1 (proj2 (resolveRequest_query cmd_deleteNetwork params))
           (QueryParamDef.mk "force" false "Force deletion") "true" Hin
           (or_introl Hval)).
Defined.

(* ===================================================================== *)
(** ** Properties of the site-id resolver                                 *)
(* ===================================================================== *)

Lemma is_hex_lower_spec c : is_hex_lower c = true ↔ c ∈ lower_hex_digits.
Proof.
  split.
  - destruct c as [[] [] [] [] [] [] [] []]; try discriminate; intros _;
      unfold lower_hex_digits; simpl; set_solver.
  - unfold lower_hex_digits; simpl. rewrite !elem_of_cons, elem_of_nil.
    intros H. repeat (destruct H as [->|H]; [reflexivity|]). done.
Qed.

Lemma after_hex_lower_spec n s t :
  after_hex_lower n s = Some t
  ↔ ∃ pre, s = pre +:+ t ∧ String.length pre = n
           ∧ Forall (λ c, c ∈ lower_hex_digits) (list_ascii_of_string pre).
Proof.
  revert s. induction n as [|n IH]; intros s; simpl.
  - split.
    + intros [= ->]. exists EmptyString. by repeat split.
    + intros ([|c pre] & -> & Hlen & _); done.
  - destruct s as [|c s].
    + split; [done|]. intros ([|c pre] & Heq & Hlen & _); done.
    + destruct (is_hex_lower c) eqn:Hc.
      * rewrite IH. split.
        -- intros (pre & -> & <- & Hall). exists (String c pre).
           repeat split. simpl. constructor; [|done]. by apply is_hex_lower_spec.
        -- intros ([|c' pre] & Heq & Hlen & Hall); [done|].
           simpl in *. injection Heq as <- ->. injection Hlen as <-.
           exists pre. repeat split. by inversion Hall.
      * split; [done|]. intros ([|c' pre] & Heq & Hlen & Hall); [done|].
        simpl in *. injection Heq as <- ->. inversion Hall as [|? ? Hin _]; subst.
        apply is_hex_lower_spec in Hin. congruence.
Qed.

(** The test of [resolveSiteId] accepts exactly the strings that begin with
    8 characters of [[0-9a-f]] followed by a hyphen. *)
Lemma looks_like_uuid_spec siteId :
  looks_like_uuid siteId = true ↔ canonical_shape lower_hex_digits siteId.
Proof.
  unfold looks_like_uuid, canonical_shape. split.
  - destruct (after_hex_lower 8 siteId) as [[|c rest]|] eqn:Hafter; try done.
    intros ->%Ascii.eqb_eq. apply after_hex_lower_spec in Hafter
      as (pre & -> & Hlen & Hall).
    by exists pre, rest.
  - intros (pre & rest & -> & Hlen & Hall).
    assert (after_hex_lower 8 (pre +:+ "-" +:+ rest) = Some ("-" +:+ rest)) as ->.
    { apply after_hex_lower_spec. by exists pre. }
    done.
Qed.

Lemma not_canonical_shape siteId :
  ¬ canonical_shape lower_hex_digits siteId → looks_like_uuid siteId = false.
Proof.
  intros Hn. destruct (looks_like_uuid siteId) eqn:H; [|done].
  by apply looks_like_uuid_spec in H.
Qed.

Lemma strict_eq_string_false v s : v ≠ VStr s → strict_eq_string v s = false.
Proof.
  destruct v; simpl; try done. intros Hne.
  destruct (String.eqb_spec s0 s); congruence.
Qed.

Lemma array_find_no_match siteId entries :
  Forall (entry_differs siteId) entries →
  array_find (site_matches siteId) entries = Ok VUndef.
Proof.
  induction 1 as [|s entries (r & i & Hr & Hner & Hi & Hnei) _ IH]; simpl; [done|].
  unfold site_matches. rewrite Hr, Hi.
  by rewrite !strict_eq_string_false.
Qed.

Lemma find_site_no_match result siteId entries :
  listing_entries result = Some entries →
  Forall (entry_differs siteId) entries →
  find_site result siteId = Ok VUndef.
Proof.
  unfold listing_entries, find_site.
  destruct (get_prop result "data") as [[]|]; try done.
  intros [= ->]. apply array_find_no_match.
Qed.

(** With a truthy cache, a symbolic id is answered from the cache, and the
    session is left as it was. *)
Lemma resolveSiteId_cached fuel COMMANDS client siteId st :
  looks_like_uuid siteId = false →
  truthy (resolvedDefaultSiteId st) = true →
  resolveSiteId fuel COMMANDS client siteId st
  = Some (Ok (resolvedDefaultSiteId st), st).
Proof.
  intros Hsym Hcache. unfold resolveSiteId. rewrite Hsym, Hcache. simpl.
  by destruct (resolvedDefaultSiteId st).
Qed.

(** C4 does not hold as stated: ["ABCDEF12-3456"] begins with 8 hexadecimal
    characters followed by a hyphen; resolving it on a fresh session makes
    one transport request, and resolving it on a session whose cache holds
    the id of another site returns that other id. *)
Lemma resolveSiteId_uppercase_hex :
  let client := mockClient [site_listing [site_entry "88f7af54-0000" "default"]] in
  canonical_shape hex_digits "ABCDEF12-3456"
  ∧ resolveSiteId 1 [cmd_getSiteOverviewPage] client "ABCDEF12-3456"
      (mkSession VNull [])
    = Some (Ok (VStr "ABCDEF12-3456"),
            mkSession VNull [first_request cmd_getSiteOverviewPage no_params 200])
  ∧ resolveSiteId 1 [cmd_getSiteOverviewPage] client "ABCDEF12-3456"
      (mkSession (VStr "88f7af54-0000") [])
    = Some (Ok (VStr "88f7af54-0000"), mkSession (VStr "88f7af54-0000") []).
Proof.
  intros client. split; [|split].
  - exists "ABCDEF12", "3456". split; [done|]. split; [done|].
    unfold hex_digits; simpl. repeat constructor; set_solver.
  - vm_compute. reflexivity.
  - vm_compute. reflexivity.
Qed.

(** C4, as it holds: a site id that begins with 8 characters of [[0-9a-f]]
    (digits and lower-case letters a to f) followed by a hyphen is returned
    unchanged, and the session is left as it was: no transport request is
    made and the cache is not touched. *)
Theorem resolveSiteId_canonical fuel COMMANDS client siteId st :
  canonical_shape lower_hex_digits siteId →
  resolveSiteId fuel COMMANDS client siteId st = Some (Ok (VStr siteId), st).
Proof.
  intros H%looks_like_uuid_spec. unfold resolveSiteId. by rewrite H.
Qed.

Lemma resolveSiteId_canonical_witness :
  canonical_shape lower_hex_digits "88f7af54-0000-0000-0000-000000000000"
  ∧ resolveSiteId 0 [] (mockClient []) "88f7af54-0000-0000-0000-000000000000"
      (mkSession VNull [])
    = Some (Ok (VStr "88f7af54-0000-0000-0000-000000000000"), mkSession VNull []).
Proof.
  assert (H : canonical_shape lower_hex_digits "88f7af54-0000-0000-0000-000000000000").
  { exists "88f7af54", "0000-0000-0000-000000000000".
    split; [reflexivity|]. split; [reflexivity|].
    unfold lower_hex_digits; simpl. repeat constructor; set_solver. }
  split; [exact H|].
  exact (resolveSiteId_canonical 0 [] (mockClient [])
           "88f7af54-0000-0000-0000-000000000000" (mkSession VNull []) H).
Defined.

(** C5: the cache has a single slot.  Once a first resolution has cached a
    (non-empty) id, resolving any other symbolic identifier returns that
    cached id and leaves the session as it was: no request is made, so no
    new listing search takes place. *)
Theorem resolveSiteId_single_slot
    fuel1 fuel2 COMMANDS client siteId1 siteId2 st0 st1 id :
  resolveSiteId fuel1 COMMANDS client siteId1 st0 = Some (Ok (VStr id), st1) →
  resolvedDefaultSiteId st1 = VStr id →
  id ≠ "" →
  ¬ canonical_shape lower_hex_digits siteId2 →
  resolveSiteId fuel2 COMMANDS client siteId2 st1 = Some (Ok (VStr id), st1).
Proof.
  intros _ Hcache Hid Hsym%not_canonical_shape.
  rewrite resolveSiteId_cached; [by rewrite Hcache|done|].
  rewrite Hcache. by destruct id.
Qed.

Lemma resolveSiteId_single_slot_witness :
  let client :=
    mockClient [site_listing [site_entry "88f7af54-0000" "default";
                              site_entry "99aa00bb-1111" "branch"]] in
  let st1 :=
    mkSession (VStr "88f7af54-0000")
      [first_request cmd_getSiteOverviewPage no_params 200] in
  resolveSiteId 1 [cmd_getSiteOverviewPage] client "default" (mkSession VNull [])
  = Some (Ok (VStr "88f7af54-0000"), st1)
  ∧ ¬ canonical_shape lower_hex_digits "branch"
  ∧ resolveSiteId 0 [cmd_getSiteOverviewPage] client "branch" st1
    = Some (Ok (VStr "88f7af54-0000"), st1).
Proof.
  intros client st1.
  assert (Hfirst : resolveSiteId 1 [cmd_getSiteOverviewPage] client "default"
                     (mkSession VNull [])
                   = Some (Ok (VStr "88f7af54-0000"), st1))
    by (vm_compute; reflexivity).
  assert (Hsym : ¬ canonical_shape lower_hex_digits "branch").
  { intros H%looks_like_uuid_spec. discriminate H. }
  assert (Hid : "88f7af54-0000" ≠ "") by discriminate.
  split; [exact Hfirst|]. split; [exact Hsym|].
  exact (resolveSiteId_single_slot 1 0 [cmd_getSiteOverviewPage] client
           "default" "branch" (mkSession VNull []) st1 "88f7af54-0000"
           Hfirst eq_refl Hid Hsym).
Defined.

(** Whatever a resolution of a symbolic id on an empty cache returns, it
    has made the listing request first. *)
Lemma resolveSiteId_searches fuel COMMANDS client siteId sitesCmd log res st' :
  looks_like_uuid siteId = false →
  findCmd COMMANDS "getSiteOverviewPage" = Some sitesCmd →
  resolveSiteId fuel COMMANDS client siteId (mkSession VNull log) = Some (res, st') →
  ∃ more, requests st' = log ++ first_request sitesCmd no_params 200 :: more.
Proof.
  intros Hsym Hcmd. unfold resolveSiteId. rewrite Hsym, Hcmd. simpl.
  destruct (executeAllPages _ _ _ _ _ _) as [[r log']|] eqn:Hrun; [|done].
  apply executeAllPages_first_request in Hrun as [more ->].
  destruct r as [result|e].
  - destruct (find_site result siteId) as [m|e].
    + destruct (truthy m).
      * destruct (get_prop m "id"); intros [= <- <-]; simpl; eauto.
      * intros [= <- <-]; simpl; eauto.
    + intros [= <- <-]; simpl; eauto.
  - intros [= <- <-]; simpl; eauto.
Qed.

(** C8: when the cache is empty, the listing fetch succeeds and no entry of
    the listing has the symbolic input as its [internalReference] or its
    [id], [resolveSiteId] returns the input itself, without an error, and
    the cache stays empty; a later resolution of a symbolic id then makes
    the listing request again. *)
Theorem resolveSiteId_no_match
    fuel COMMANDS client siteId st sitesCmd result log' entries :
  ¬ canonical_shape lower_hex_digits siteId →
  resolvedDefaultSiteId st = VNull →
  findCmd COMMANDS "getSiteOverviewPage" = Some sitesCmd →
  executeAllPages fuel sitesCmd no_params client 200 (requests st)
  = Some (Ok result, log') →
  listing_entries result = Some entries →
  Forall (entry_differs siteId) entries →
  resolveSiteId fuel COMMANDS client siteId st
  = Some (Ok (VStr siteId), mkSession VNull log')
  ∧ ∀ fuel2 siteId2 res st2,
      ¬ canonical_shape lower_hex_digits siteId2 →
      resolveSiteId fuel2 COMMANDS client siteId2 (mkSession VNull log')
      = Some (res, st2) →
      ∃ more, requests st2 = log' ++ first_request sitesCmd no_params 200 :: more.
Proof.
  intros Hsym%not_canonical_shape Hcache Hcmd Hrun Hentries Hdiff. split.
  - unfold resolveSiteId. rewrite Hsym, Hcache, Hcmd. simpl. rewrite Hrun.
    by rewrite (find_site_no_match _ _ _ Hentries Hdiff).
  - intros fuel2 siteId2 res st2 Hsym2%not_canonical_shape.
    by apply resolveSiteId_searches.
Qed.

Lemma resolveSiteId_no_match_witness :
  let sites := [site_entry "88f7af54-0000" "default"] in
  let client := mockClient [site_listing sites; site_listing sites] in
  let req := first_request cmd_getSiteOverviewPage no_params 200 in
  ¬ canonical_shape lower_hex_digits "branch"
  ∧ executeAllPages 1 cmd_getSiteOverviewPage no_params client 200 []
    = Some (Ok (site_listing sites), [req])
  ∧ Forall (entry_differs "branch") sites
  ∧ resolveSiteId 1 [cmd_getSiteOverviewPage] client "branch" (mkSession VNull [])
    = Some (Ok (VStr "branch"), mkSession VNull [req])
  ∧ ∃ more,
      requests
        (mkSession VNull [req; first_request cmd_getSiteOverviewPage no_params 200])
      = [req] ++ req :: more.
Proof.
  intros sites client req.
  assert (Hsym : ¬ canonical_shape lower_hex_digits "branch").
  { intros H%looks_like_uuid_spec. discriminate H. }
  assert (Hrun : executeAllPages 1 cmd_getSiteOverviewPage no_params client 200
                   (requests (mkSession VNull []))
                 = Some (Ok (site_listing sites), [req]))
    by (vm_compute; reflexivity).
  assert (Hdiff : Forall (entry_differs "branch") sites).
  { repeat constructor. exists (VStr "default"), (VStr "88f7af54-0000").
    repeat split; discriminate. }
  destruct (resolveSiteId_no_match 1 [cmd_getSiteOverviewPage] client "branch"
              (mkSession VNull []) cmd_getSiteOverviewPage (site_listing sites)
              [req] sites Hsym eq_refl eq_refl Hrun eq_refl Hdiff)
    as [Hfirst Hagain].
  split; [exact Hsym|]. split; [exact Hrun|]. split; [exact Hdiff|].
  split; [exact Hfirst|].
  apply (Hagain 1%nat "branch" (Ok (VStr "branch"))
           (mkSession VNull [req; first_request cmd_getSiteOverviewPage no_params 200])
           Hsym).
  vm_compute. reflexivity.
Defined.

(* ===================================================================== *)
(** ** Schema unfolding                                                   *)
(* ===================================================================== *)

Lemma mapM_mono {A B} (f g : A → option B) l k :
  (∀ x y, f x = Some y → g x = Some y) →
  mapM f l = Some k → mapM g l = Some k.
Proof.
  intros Hfg. rewrite !mapM_Some. intros H. eapply Forall2_impl; [exact H|].
  auto.
Qed.

(** More fuel does not change a result. *)
Lemma toJsonSchema_fuel_mono fuel fuel' spec schemaOrRef maxDepth seen r :
  (fuel ≤ fuel')%nat →
  toJsonSchema fuel spec schemaOrRef maxDepth seen = Some r →
  toJsonSchema fuel' spec schemaOrRef maxDepth seen = Some r.
Proof.
  revert fuel' schemaOrRef maxDepth seen r.
  induction fuel as [|fuel IH]; intros fuel' schemaOrRef maxDepth seen r Hle;
    [done|].
  destruct fuel' as [|fuel']; [lia|]. assert (fuel ≤ fuel')%nat as Hle' by lia.
  simpl. destruct (maxDepth <=? 0); [done|].
  destruct (truthy_opt (SchemaRef.ref schemaOrRef)) as [ref|].
  { case_decide; [done|]. destruct (resolveRef spec ref); [|done]. by apply IH. }
  destruct (first_variants schemaOrRef) as [[key variants]|].
  { destruct (mapM _ variants) as [vs|] eqn:Hvs; [|done]. simpl.
    erewrite mapM_mono; [done| |exact Hvs]. intros x y. by apply IH. }
  destruct (is_type schemaOrRef "array").
  { destruct (SchemaRef.items schemaOrRef) as [it|]; [|done].
    destruct (toJsonSchema fuel _ it _ _) as [ri|] eqn:Hit; [|done]. simpl.
    by rewrite (IH _ _ _ _ _ Hle' Hit). }
  destruct (_ || _); [|by destruct (SchemaRef.enum schemaOrRef)].
  destruct (SchemaRef.properties schemaOrRef) as [ps|]; [|done]. simpl.
  destruct (mapM _ ps) as [ps'|] eqn:Hps; [|done]. simpl.
  eapply mapM_mono in Hps as ->; [done|]. intros [name prop] y; simpl.
  destruct (toJsonSchema fuel _ prop _ _) as [rp|] eqn:Hp; [|done]. simpl.
  by rewrite (IH _ _ _ _ _ Hle' Hp).
Qed.

(** With more fuel than the depth bound, the unfolding returns. *)
Lemma toJsonSchema_is_Some fuel spec schemaOrRef maxDepth seen :
  (Z.to_nat maxDepth < fuel)%nat →
  is_Some (toJsonSchema fuel spec schemaOrRef maxDepth seen).
Proof.
  revert schemaOrRef maxDepth seen.
  induction fuel as [|fuel IH]; intros schemaOrRef maxDepth seen Hfuel; [lia|].
  simpl. destruct (Z.leb_spec maxDepth 0) as [|Hpos]; [done|].
  assert (Hrec : ∀ s seen', is_Some (toJsonSchema fuel spec s (maxDepth - 1) seen')).
  { intros. apply IH. lia. }
  destruct (truthy_opt (SchemaRef.ref schemaOrRef)) as [ref|].
  { case_decide; [done|]. destruct (resolveRef spec ref); [|done]. apply Hrec. }
  destruct (first_variants schemaOrRef) as [[key variants]|].
  { destruct (mapM_is_Some_2 (λ v, toJsonSchema fuel spec v (maxDepth - 1) seen)
                variants) as [vs ->]; [|done].
    apply Forall_forall. intros. apply Hrec. }
  destruct (is_type schemaOrRef "array").
  { destruct (SchemaRef.items schemaOrRef) as [it|]; [|done].
    by destruct (Hrec it seen) as [ri ->]. }
  destruct (_ || _); [|by destruct (SchemaRef.enum schemaOrRef)].
  destruct (SchemaRef.properties schemaOrRef) as [ps|]; [|done]. simpl.
  destruct (mapM_is_Some_2
              (λ np, r ← toJsonSchema fuel spec (snd np) (maxDepth - 1) seen;
                     Some (fst np, r)) ps) as [ps' Hps'].
  { apply Forall_forall. intros [name prop] _. simpl.
    by destruct (Hrec prop seen) as [rp ->]. }
  by rewrite Hps'.
Qed.

(** C9: schema unfolding terminates for every schema document and every
    node, reference cycles included: any amount of fuel above the depth
    bound yields the same result.  With a depth bound of 0 (or less) the
    result is the placeholder [{ type: "object" }], obtained without a
    recursive call; a reference that is missing from the document yields
    the placeholder too; and so does the self-referential schema [Node]
    at depth 0, while at depth 3 its inner reference is capped. *)
Theorem toJsonSchema_terminates :
  (∀ spec schemaOrRef maxDepth seen,
      ∃ r, ∀ fuel, (Z.to_nat maxDepth < fuel)%nat →
                   toJsonSchema fuel spec schemaOrRef maxDepth seen = Some r)
  ∧ (∀ spec schemaOrRef maxDepth seen,
        maxDepth ≤ 0 →
        toJsonSchema 1 spec schemaOrRef maxDepth seen = Some object_placeholder)
  ∧ (∀ fuel spec schemaOrRef maxDepth seen ref,
        0 < maxDepth →
        truthy_opt (SchemaRef.ref schemaOrRef) = Some ref →
        resolveRef spec ref = None →
        toJsonSchema (S fuel) spec schemaOrRef maxDepth seen = Some object_placeholder)
  ∧ toJsonSchema 1 spec_Node (schema_of_ref "#/components/schemas/Node") 0 ∅
    = Some object_placeholder
  ∧ toJsonSchema 4 spec_Node (schema_of_ref "#/components/schemas/Node") 3 ∅
    = Some (VObj [("type", VStr "object");
                  ("properties",
                   VObj [("next", object_placeholder);
                         ("value", VObj [("type", VStr "string")])]);
                  ("required", VArr [VStr "value"])]).
Proof.
  split; [|split; [|split; [|split]]].
  - intros spec schemaOrRef maxDepth seen.
    destruct (toJsonSchema_is_Some (S (Z.to_nat maxDepth)) spec schemaOrRef
                maxDepth seen) as [r Hr]; [lia|].
    exists r. intros fuel Hfuel. eapply toJsonSchema_fuel_mono; [|exact Hr]. lia.
  - intros spec schemaOrRef maxDepth seen Hle. simpl.
    by destruct (Z.leb_spec maxDepth 0); [|lia].
  - intros fuel spec schemaOrRef maxDepth seen ref Hpos Href Hmissing. simpl.
    destruct (Z.leb_spec maxDepth 0); [lia|]. rewrite Href.
    case_decide; [done|]. by rewrite Hmissing.
  - vm_compute. reflexivity.
  - vm_compute. reflexivity.
Qed.

Lemma toJsonSchema_terminates_witness :
  0 < 3
  ∧ truthy_opt (SchemaRef.ref (schema_of_ref "#/components/schemas/Missing"))
    = Some "#/components/schemas/Missing"
  ∧ resolveRef spec_Node "#/components/schemas/Missing" = None
  ∧ toJsonSchema 1 spec_Node (schema_of_ref "#/components/schemas/Missing") 3 ∅
    = Some object_placeholder.
Proof.
  assert (Hpos : 0 < 3) by lia.
  assert (Hmissing : resolveRef spec_Node "#/components/schemas/Missing" = None)
    by (vm_compute; reflexivity).
  split; [exact Hpos|]. split; [reflexivity|]. split; [exact Hmissing|].
  exact (proj1 (proj2 (proj2 toJsonSchema_terminates)) 0%nat spec_Node
           (schema_of_ref "#/components/schemas/Missing") 3 ∅
           "#/components/schemas/Missing" Hpos eq_refl Hmissing).
Defined.

(* ===================================================================== *)
(** ** Pagination against a paged list, offsets and failures             *)
(* ===================================================================== *)

Lemma length_ge_num_of_nat n m : length_ge n (num_of_nat m) = bool_decide (m ≤ n)%nat.
Proof.
  unfold length_ge, num_of_nat. case_bool_decide as H.
  - apply Qle_bool_iff. rewrite <- Zle_Qle. lia.
  - apply not_true_is_false. intros Hq%Qle_bool_iff. rewrite <- Zle_Qle in Hq. lia.
Qed.

Lemma serves_loop cmd params client pageSize L log fuel k :
  (0 < pageSize)%nat →
  serves client log (page_request cmd params (Z.of_nat pageSize)) pageSize L →
  (k * pageSize ≤ length L)%nat →
  (length L - k * pageSize < fuel)%nat →
  ∃ reqs,
    executeAllPages_loop fuel cmd params client (Z.of_nat pageSize)
      (take (k * pageSize) L) (k * pageSize)
      (log ++ map (λ i, page_request cmd params (Z.of_nat pageSize) (i * pageSize)%nat)
                (seq 0 k))
    = Some (Ok (VObj [("data", VArr L);
                      ("totalCount", VNum (num_of_nat (length L)))]),
            log ++ map (λ i, page_request cmd params (Z.of_nat pageSize) (i * pageSize)%nat)
                     (seq 0 k) ++ reqs)
    ∧ length reqs = S ((length L - k * pageSize - 1) / pageSize).
Proof.
  intros Hps Hserves. revert k.
  induction fuel as [|fuel IH]; intros k Hk Hfuel; [lia|].
  destruct (Hserves k Hk) as (r & Hans & Hitems & Htotal).
  cbn [executeAllPages_loop]. unfold executeCommand.
  fold (page_request cmd params (Z.of_nat pageSize) (k * pageSize)).
  rewrite Hans. unfold page_items in Hitems.
  destruct (get_prop r "data") as [[]|] eqn:Hdata; try done.
  injection Hitems as ->.
  assert (Hall : take (k * pageSize) L ++ take pageSize (drop (k * pageSize) L)
                 = take (S k * pageSize) L).
  { rewrite <- (take_drop (k * pageSize) (take (S k * pageSize) L)).
    rewrite take_take, skipn_firstn_comm. f_equal; f_equal; lia. }
  rewrite Hall. unfold totalCount_of. rewrite Htotal.
  rewrite length_ge_num_of_nat, !length_take, length_drop.
  destruct (decide (length L ≤ S k * pageSize)%nat) as [Hlast|Hmore].
  - rewrite bool_decide_eq_true_2 by lia. simpl orb. cbv iota.
    exists [page_request cmd params (Z.of_nat pageSize) (k * pageSize)].
    rewrite take_ge by lia. rewrite <- app_assoc. split; [done|].
    simpl. f_equal. symmetry. apply Nat.div_small. lia.
  - rewrite bool_decide_eq_false_2 by lia.
    replace (Z.of_nat (pageSize `min` (length L - k * pageSize)) <? Z.of_nat pageSize)
      with false by (symmetry; apply Z.ltb_ge; lia).
    simpl orb. cbv iota.
    replace (k * pageSize + pageSize `min` (length L - k * pageSize))%nat
      with (S k * pageSize)%nat by lia.
    destruct (IH (S k)) as (reqs & Hrun & Hlen); [lia|lia|].
    rewrite seq_S, map_app in Hrun. cbn [map Nat.add] in Hrun.
    rewrite <- !app_assoc in *. cbn [app] in Hrun.
    rewrite Hrun.
    exists (page_request cmd params (Z.of_nat pageSize) (k * pageSize) :: reqs).
    split; [done|]. simpl. rewrite Hlen. f_equal.
    change (S k * pageSize)%nat with (pageSize + k * pageSize)%nat in *.
    replace (length L - k * pageSize - 1)%nat
      with ((length L - (pageSize + k * pageSize) - 1) + 1 * pageSize)%nat by lia.
    rewrite Nat.div_add by lia. lia.
Qed.

(** X1: against a server that holds a list [L] and answers the request
    for each offset with the next [pageSize] items and the total
    [length L], [executeAllPages] returns the whole of [L], in order, with
    that total, whatever the length of [L] (the empty list and a length
    that is a multiple of the page size included); it sends
    [1 + (length L - 1) / pageSize] requests.  Any fuel above the length
    of the list is enough. *)
Theorem executeAllPages_fetches_whole_list
    cmd params client pageSize L log fuel :
  CmdDef.paginatable cmd = true →
  (0 < pageSize)%nat →
  serves client log (page_request cmd params (Z.of_nat pageSize)) pageSize L →
  (length L < fuel)%nat →
  ∃ reqs,
    executeAllPages fuel cmd params client (Z.of_nat pageSize) log
    = Some (Ok (VObj [("data", VArr L);
                      ("totalCount", VNum (num_of_nat (length L)))]),
            log ++ reqs)
    ∧ length reqs = S ((length L - 1) / pageSize).
Proof.
  intros Hpag Hps Hserves Hfuel. unfold executeAllPages. rewrite Hpag. simpl negb.
  cbv iota.
  destruct (serves_loop cmd params client pageSize L log fuel 0 Hps Hserves)
    as (reqs & Hrun & Hlen); [lia|lia|].
  simpl in Hrun. rewrite app_nil_r in Hrun.
  change (take 0 L) with (@nil value) in Hrun. rewrite Hrun.
  exists reqs. split; [done|]. rewrite Hlen. do 2 f_equal. lia.
Qed.

Lemma executeAllPages_fetches_whole_list_witness :
  ∃ reqs,
    executeAllPages 6 cmd_getAdoptedDeviceOverviewPage no_params
      (mockClient three_pages) (Z.of_nat 2) []
    = Some (Ok (VObj [("data", VArr five_items);
                      ("totalCount", VNum (num_of_nat (length five_items)))]),
            [] ++ reqs)
    ∧ length reqs = S ((length five_items - 1) / 2).
Proof.
  apply (executeAllPages_fetches_whole_list cmd_getAdoptedDeviceOverviewPage
           no_params (mockClient three_pages) 2 five_items [] 6).
  - reflexivity.
  - lia.
  - intros [|[|[|k]]] Hk.
    + eexists. repeat split.
    + eexists. repeat split.
    + eexists. repeat split.
    + simpl in Hk. lia.
  - simpl. lia.
Defined.

Lemma page_offsets_lower offset resps :
  Forall (λ x, offset ≤ x)%nat
    (page_offsets offset resps ++ [(offset + length (all_items resps))%nat]).
Proof.
  revert offset. induction resps as [|r resps IH]; intros offset; simpl.
  - repeat constructor. lia.
  - constructor; [lia|]. unfold all_items; simpl. rewrite length_app.
    rewrite Nat.add_assoc.
    eapply Forall_impl; [apply (IH (offset + length (items_of r))%nat)|].
    simpl. intros. lia.
Qed.

Lemma page_offsets_increase offset resps :
  Forall (λ r, 0 < length (items_of r))%nat resps →
  StronglySorted lt
    (page_offsets offset resps ++ [(offset + length (all_items resps))%nat]).
Proof.
  intros Hne. revert offset.
  induction Hne as [|r resps Hr _ IH]; intros offset; simpl.
  - repeat constructor.
  - unfold all_items; simpl. rewrite length_app, Nat.add_assoc.
    constructor; [apply IH|].
    eapply Forall_impl; [apply (page_offsets_lower (offset + length (items_of r))%nat)|].
    simpl. intros. lia.
Qed.

Lemma js_String_inj a b : js_String a = js_String b → a = b.
Proof.
  assert (Hnil : ∀ z, Z.to_int z ≠ Decimal.Pos Decimal.Nil
                      ∧ Z.to_int z ≠ Decimal.Neg Decimal.Nil).
  { intros z. split; intros Hz; pose proof (Numbers.DecimalZ.of_to z) as Hof;
      rewrite Hz in Hof; cbn in Hof; subst z; discriminate Hz. }
  unfold js_String. intros Heq. apply Numbers.DecimalZ.to_int_inj.
  destruct (Hnil a) as [Ha1 Ha2], (Hnil b) as [Hb1 Hb2].
  pose proof (NilZero.isi _ Ha1 Ha2) as Ha. pose proof (NilZero.isi _ Hb1 Hb2) as Hb.
  rewrite Heq in Ha. rewrite Hb in Ha. by injection Ha.
Qed.

Lemma page_request_inj cmd params pageSize n m :
  CmdDef.paginatable cmd = true →
  extra_beyond_pagination cmd →
  page_request cmd params pageSize n = page_request cmd params pageSize m →
  n = m.
Proof.
  intros Hpag Hextra Heq.
  destruct (page_request_paging cmd params pageSize n Hpag Hextra) as [Hn _].
  destruct (page_request_paging cmd params pageSize m Hpag Hextra) as [Hm _].
  rewrite Heq, Hm in Hn. injection Hn as Hn%js_String_inj. lia.
Qed.

Lemma NoDup_map_sorted {A} (f : nat → A) offsets :
  (∀ n m, f n = f m → n = m) →
  StronglySorted lt offsets → NoDup (map f offsets).
Proof.
  intros Hinj. induction 1 as [|n offsets _ IH Hlt]; cbn [map]; constructor; [|done].
  intros (m & Heq%Hinj & Hin)%list_elem_of_In%in_map_iff. subst m.
  rewrite Forall_forall in Hlt. specialize (Hlt n (proj2 (list_elem_of_In _ _) Hin)).
  lia.
Qed.

(** X2: for a paginatable descriptor whose extra query parameters are not
    themselves called [offset] or [limit], and a positive page size, the
    [offset] entries of the requests that a completed call sends are the
    strings of numbers that start at 0 and increase strictly; so the
    requests of a call are pairwise different: no page is asked for
    twice. *)
Theorem executeAllPages_offsets_increase
    cmd params client pageSize fuel log res log' :
  CmdDef.paginatable cmd = true →
  extra_beyond_pagination cmd →
  0 < pageSize →
  executeAllPages fuel cmd params client pageSize log = Some (res, log') →
  ∃ reqs offsets,
    log' = log ++ reqs
    ∧ map (λ req, RequestOptions.query req !! "offset") reqs
      = map (λ n, Some (js_String (Z.of_nat n))) offsets
    ∧ head offsets = Some 0%nat
    ∧ StronglySorted lt offsets
    ∧ NoDup reqs.
Proof.
  intros Hpag Hextra Hps. unfold executeAllPages. rewrite Hpag. simpl.
  intros (pages & final & Hlog & _ & Hfull & _ & _)%executeAllPages_loop_trace.
  simpl in Hlog.
  set (offsets := page_offsets 0 pages ++ [(0 + length (all_items pages))%nat]).
  assert (Hsorted : StronglySorted lt offsets).
  { apply page_offsets_increase. eapply Forall_impl; [exact Hfull|].
    simpl. intros r (d & Hd & Hle). unfold items_of. rewrite Hd. simpl. lia. }
  exists (map (page_request cmd params pageSize) offsets), offsets.
  split; [|split; [|split; [|split]]].
  - unfold offsets. by rewrite map_app, <- page_requests_offsets.
  - rewrite map_map. apply map_ext. intros n.
    by destruct (page_request_paging cmd params pageSize n Hpag Hextra) as [-> _].
  - unfold offsets. by destruct pages.
  - exact Hsorted.
  - apply NoDup_map_sorted; [|exact Hsorted].
    intros n m. by apply page_request_inj.
Qed.

Lemma executeAllPages_offsets_increase_witness :
  let cmd := cmd_getAdoptedDeviceOverviewPage in
  CmdDef.paginatable cmd = true
  ∧ extra_beyond_pagination cmd
  ∧ executeAllPages 6 cmd no_params (mockClient three_pages) 2 []
    = Some (Ok (VObj [("data", VArr five_items); ("totalCount", VNum (num_of_nat 5))]),
            map (page_request cmd no_params 2) [0; 2; 4]%nat)
  ∧ map (λ req, RequestOptions.query req !! "offset")
      (map (page_request cmd no_params 2) [0; 2; 4]%nat)
    = [Some "0"; Some "2"; Some "4"]
  ∧ ∃ reqs offsets,
      map (page_request cmd no_params 2) [0; 2; 4]%nat = [] ++ reqs
      ∧ map (λ req, RequestOptions.query req !! "offset") reqs
        = map (λ n, Some (js_String (Z.of_nat n))) offsets
      ∧ head offsets = Some 0%nat
      ∧ StronglySorted lt offsets
      ∧ NoDup reqs.
Proof.
  intros cmd.
  assert (Hextra : extra_beyond_pagination cmd) by constructor.
  assert (Hrun : executeAllPages 6 cmd no_params (mockClient three_pages) 2 []
                 = Some (Ok (VObj [("data", VArr five_items);
                                   ("totalCount", VNum (num_of_nat 5))]),
                         map (page_request cmd no_params 2) [0; 2; 4]%nat))
    by (vm_compute; reflexivity).
  split; [reflexivity|]. split; [exact Hextra|]. split; [exact Hrun|].
  split; [vm_compute; reflexivity|].
  exact (executeAllPages_offsets_increase cmd no_params (mockClient three_pages) 2 6
           [] _ _ eq_refl Hextra eq_refl Hrun).
Defined.

Lemma answered_lookup client log reqs resps i req :
  answered client log reqs resps →
  reqs !! i = Some req →
  ∃ r, client (log ++ take i reqs) req = Ok r.
Proof.
  revert log resps i. induction reqs as [|q reqs IH]; intros log [|r0 resps] i; simpl;
    try done.
  intros [H0 Hrest]. destruct i as [|i]; simpl.
  - intros [= ->]. rewrite app_nil_r. eauto.
  - intros Hi. destruct (IH _ _ _ Hrest Hi) as [r Hr]. exists r.
    by rewrite <- app_assoc in Hr.
Qed.

(** X3: a transport error ends the call.  When the client answers one
    of the requests of a call with an error, that request is the last one
    of the call and the call ends with this very error: no page is asked
    for after a failure, and the pages fetched before it are not
    returned.  This holds for paginatable descriptors and for the others. *)
Theorem executeAllPages_failure_ends_call
    cmd params client pageSize fuel log res reqs i req e :
  executeAllPages fuel cmd params client pageSize log = Some (res, log ++ reqs) →
  reqs !! i = Some req →
  client (log ++ take i reqs) req = Throw e →
  S i = length reqs ∧ res = Throw e.
Proof.
  unfold executeAllPages. destruct (CmdDef.paginatable cmd); simpl.
  - intros (pages & final & Hlog & Hans & _ & Hfin & Hres)%executeAllPages_loop_trace.
    simpl in *. apply app_inv_head in Hlog. subst reqs.
    intros Hi Hthrow.
    set (preqs := page_requests (page_request cmd params pageSize) 0 pages) in *.
    destruct (decide (i < length preqs)%nat) as [Hlt|Hge].
    + rewrite lookup_app_l in Hi by done.
      destruct (answered_lookup _ _ _ _ _ _ Hans Hi) as [r Hr].
      rewrite take_app_le in Hthrow by lia. congruence.
    + apply lookup_lt_Some in Hi as Hb. rewrite length_app in Hb. simpl in Hb.
      assert (i = length preqs) as -> by lia.
      rewrite list_lookup_middle in Hi by done. injection Hi as <-.
      rewrite take_app_length in Hthrow. rewrite length_app. simpl.
      split; [lia|]. rewrite Hthrow in Hfin. by subst final.
  - unfold executeCommand. intros [= <- Hlog]. apply app_inv_head in Hlog. subst reqs.
    intros Hi Hthrow. destruct i as [|[|i]]; try done.
    injection Hi as <-. simpl in Hthrow. rewrite app_nil_r in Hthrow.
    by rewrite Hthrow.
Qed.

Lemma executeAllPages_failure_ends_call_witness :
  let cmd := cmd_getAdoptedDeviceOverviewPage in
  let client := failing_after [page [1; 2] 5] in
  let reqs := map (page_request cmd no_params 2) [0; 2]%nat in
  executeAllPages 6 cmd no_params client 2 []
  = Some (Throw (TransportError VNull), [] ++ reqs)
  ∧ S 1 = length reqs
  ∧ Throw (TransportError VNull) = Throw (A := value) (TransportError VNull).
Proof.
  intros cmd client reqs.
  assert (Hrun : executeAllPages 6 cmd no_params client 2 []
                 = Some (Throw (TransportError VNull), [] ++ reqs))
    by (vm_compute; reflexivity).
  split; [exact Hrun|].
  exact (executeAllPages_failure_ends_call cmd no_params client 2 6 []
           (Throw (TransportError VNull)) reqs 1 (page_request cmd no_params 2 2)
           (TransportError VNull) Hrun eq_refl eq_refl).
Defined.

(* ===================================================================== *)
(** ** Paths without placeholders                                        *)
(* ===================================================================== *)

Lemma holes_fill_first name val t :
  NoDup (holes t) →
  NoDup (holes (fill_first name val t))
  ∧ ∀ h, h ∈ holes (fill_first name val t) ↔ h ∈ holes t ∧ h ≠ name.
Proof.
  induction t as [|[text|n] t IH]; cbn [fill_first].
  - intros _. split; [constructor|]. intros h. cbn. rewrite elem_of_nil. tauto.
  - cbn. exact IH.
  - change (holes (Hole n :: t)) with (n :: holes t).
    intros [Hn Hnd]%NoDup_cons. destruct (String.eqb_spec n name) as [->|Hne].
    + change (holes (Lit val :: t)) with (holes t). split; [done|].
      intros h. rewrite elem_of_cons. split; [|tauto].
      intros Hh. split; [tauto|]. by intros ->.
    + change (holes (Hole n :: fill_first name val t))
        with (n :: holes (fill_first name val t)).
      destruct (IH Hnd) as [IHnd IHin]. split.
      * apply NoDup_cons. split; [|done]. rewrite IHin. tauto.
      * intros h. rewrite !elem_of_cons, IHin. split; [|tauto].
        intros [->|[]]; tauto.
Qed.

Lemma omap_cons_match {A B} (f : A → option B) x l :
  omap f (x :: l) = match f x with Some y => y :: omap f l | None => omap f l end.
Proof. done. Qed.

Lemma holes_fold_fill_arg params args t :
  NoDup (holes t) →
  NoDup (holes (fold_left (fill_arg params) args t))
  ∧ ∀ h, h ∈ holes (fold_left (fill_arg params) args t)
         ↔ h ∈ holes t
           ∧ h ∉ omap (λ arg,
                         match truthy_opt (ExecuteParams.args params !! ArgDef.name arg) with
                         | Some _ => Some (ArgDef.name arg)
                         | None => None
                         end) args.
Proof.
  revert t. induction args as [|arg args IH]; intros t Hnd; cbn [fold_left].
  - split; [done|]. intros h. cbn. rewrite elem_of_nil. tauto.
  - unfold fill_arg at 2 4. rewrite omap_cons_match.
    destruct (truthy_opt _) as [val|].
    + destruct (holes_fill_first (ArgDef.name arg) val t Hnd) as [Hnd' Hin'].
      destruct (IH _ Hnd') as [IHnd IHin]. split; [done|].
      intros h. rewrite IHin, Hin', elem_of_cons. tauto.
    + exact (IH t Hnd).
Qed.

Lemma render_no_holes t :
  Forall wf_segment t → holes t = [] → lacks "{" (render t).
Proof.
  induction 1 as [|[text|n] t Hseg _ IH]; cbn [render render_segment].
  - intros _. constructor.
  - intros Hh. apply lacks_append; [done|]. by apply IH.
  - done.
Qed.

Lemma fold_fill_arg_wf params args t :
  Forall wf_segment t →
  (∀ arg val, arg ∈ args →
     truthy_opt (ExecuteParams.args params !! ArgDef.name arg) = Some val →
     plain val) →
  Forall wf_segment (fold_left (fill_arg params) args t).
Proof.
  revert t. induction args as [|arg args IH]; intros t Ht Hplain; [done|].
  cbn [fold_left]. apply IH.
  - unfold fill_arg. destruct (truthy_opt _) as [val|] eqn:Hval; [|done].
    apply fill_first_wf; [|done].
    by destruct (Hplain arg val ltac:(apply list_elem_of_here) Hval).
  - intros arg' val' Hin. apply Hplain. by apply list_elem_of_further.
Qed.

Lemma fill_template_wf cmd params t :
  Forall wf_segment t →
  (CmdDef.needsSite cmd = true →
   plain (siteId_or_default (ExecuteParams.siteId params))) →
  (∀ arg val, arg ∈ CmdDef.args cmd →
     truthy_opt (ExecuteParams.args params !! ArgDef.name arg) = Some val →
     plain val) →
  Forall wf_segment (fill_template cmd params t).
Proof.
  intros Ht Hsite Hargs. unfold fill_template.
  apply fold_fill_arg_wf; [|done].
  destruct (CmdDef.needsSite cmd); [|done].
  destruct Hsite as [Hbrace _]; [done|]. by apply fill_first_wf.
Qed.

Lemma fill_template_no_holes cmd params t :
  NoDup (holes t) →
  (∀ h, h ∈ holes t → h ∈ filled_names cmd params) →
  holes (fill_template cmd params t) = [].
Proof.
  intros Hnd Hall. unfold fill_template, filled_names in *.
  set (t0 := if CmdDef.needsSite cmd
             then fill_first "siteId" (siteId_or_default (ExecuteParams.siteId params)) t
             else t).
  assert (Ht0 : NoDup (holes t0)
                ∧ ∀ h, h ∈ holes t0 →
                       h ∈ holes t
                       ∧ h ∉ (if CmdDef.needsSite cmd then ["siteId"] else [])).
  { subst t0. destruct (CmdDef.needsSite cmd).
    - destruct (holes_fill_first "siteId"
                  (siteId_or_default (ExecuteParams.siteId params)) t Hnd)
        as [Hnd' Hin'].
      split; [done|].
      intros h [Hh Hne]%Hin'. split; [done|]. by intros ->%list_elem_of_singleton.
    - split; [done|]. intros h Hh. split; [done|].
      by intros ?%elem_of_nil. }
  destruct Ht0 as (Hnd0 & Hin0).
  destruct (holes_fold_fill_arg params (CmdDef.args cmd) t0 Hnd0) as [_ Hin].
  destruct (holes (fold_left _ _ t0)) as [|h rest] eqn:Hholes; [done|].
  assert (Hh : h ∈ h :: rest) by apply list_elem_of_here.
  apply Hin in Hh as [Hh0 Hnot]. apply Hin0 in Hh0 as [Hht Hnsite].
  apply Hall, elem_of_app in Hht as [?|?]; tauto.
Qed.

(** X4: when the path of a descriptor is a template with distinct
    placeholders, each of them filled (the site for a descriptor that needs
    one, an argument that has a truthy value) with a text that neither opens
    a placeholder nor holds a replacement pattern, the resolved path has no
    placeholder left: it holds no opening brace. *)
Theorem resolveRequest_no_placeholder_left cmd params t :
  CmdDef.path cmd = render t →
  Forall wf_segment t →
  NoDup (holes t) →
  Forall (λ arg, lacks "}" (ArgDef.name arg)) (CmdDef.args cmd) →
  (CmdDef.needsSite cmd = true →
   plain (siteId_or_default (ExecuteParams.siteId params))) →
  (∀ arg val, arg ∈ CmdDef.args cmd →
     truthy_opt (ExecuteParams.args params !! ArgDef.name arg) = Some val →
     plain val) →
  (∀ h, h ∈ holes t → h ∈ filled_names cmd params) →
  lacks "{" (ExecuteResult.path (resolveRequest cmd params)).
Proof.
  intros Hpath Ht Hnd Hnames Hsite Hargs Hall.
  rewrite (resolveRequest_path_template cmd params t) by done.
  apply render_no_holes; [by apply fill_template_wf|by apply fill_template_no_holes].
Qed.

Lemma resolveRequest_no_placeholder_left_witness :
  lacks "{"
    (ExecuteResult.path
       (resolveRequest cmd_getAdoptedDeviceDetails (device_params "s1" "d1"))).
Proof.
  apply (resolveRequest_no_placeholder_left cmd_getAdoptedDeviceDetails
           (device_params "s1" "d1")
           [Lit "/v1/sites/"; Hole "siteId"; Lit "/devices/"; Hole "deviceId"]).
  - reflexivity.
  - repeat constructor; discriminate.
  - repeat constructor; rewrite ?elem_of_cons, ?elem_of_nil; intuition discriminate.
  - repeat constructor; discriminate.
  - intros _. split; repeat constructor; discriminate.
  - intros arg val ->%list_elem_of_singleton. vm_compute. intros [= <-].
    split; repeat constructor; discriminate.
  - intros h Hh. change (h ∈ ["siteId"; "deviceId"]). exact Hh.
Defined.

Lemma catalog_templates : Forall template_ok COMMANDS.
Proof.
  apply (@bool_decide_eq_true_1 _ (@Forall_dec _ _ template_ok_dec COMMANDS)).
  by vm_compute.
Qed.

Lemma omap_all_Some {A B} (f : A → option B) (g : A → B) l :
  (∀ x, x ∈ l → f x = Some (g x)) → omap f l = map g l.
Proof.
  induction l as [|x l IH]; intros Hf; [done|].
  rewrite omap_cons_match, (Hf x) by apply list_elem_of_here.
  cbn [map]. f_equal. apply IH. intros y Hy. apply Hf. by apply list_elem_of_further.
Qed.

(** X5: the catalog is consistent with the request builder.  The path of
    every command is a template whose placeholders are the site, exactly
    when the command needs one, and then its positional arguments; so a
    call that gives every argument a non-empty text, free of braces and of
    replacement patterns as is the site id, resolves to a path with no
    placeholder left. *)
Theorem catalog_paths_resolve_completely cmd params :
  cmd ∈ COMMANDS →
  (CmdDef.needsSite cmd = true →
   plain (siteId_or_default (ExecuteParams.siteId params))) →
  (∀ arg, arg ∈ CmdDef.args cmd →
     ∃ val, truthy_opt (ExecuteParams.args params !! ArgDef.name arg) = Some val
            ∧ plain val) →
  template_ok cmd
  ∧ lacks "{" (ExecuteResult.path (resolveRequest cmd params)).
Proof.
  intros Hin Hsite Hargs.
  pose proof catalog_templates as Hok. rewrite Forall_forall in Hok.
  specialize (Hok cmd Hin). split; [done|].
  destruct Hok as (Hpath & Hwf & Hnames & Hholes & Hnd).
  set (t := parse_template (Lit "") (CmdDef.path cmd)) in *.
  assert (∀ arg val, arg ∈ CmdDef.args cmd →
            truthy_opt (ExecuteParams.args params !! ArgDef.name arg) = Some val →
            plain val) as Hplain.
  { intros arg val Harg Hval. destruct (Hargs arg Harg) as (val' & Hval' & Hp).
    congruence. }
  rewrite (resolveRequest_path_template cmd params t) by done.
  apply render_no_holes; [by apply fill_template_wf|].
  apply fill_template_no_holes; [done|].
  intros h. rewrite Hholes. unfold filled_names.
  rewrite (omap_all_Some _ ArgDef.name); [done|].
  intros arg Harg. by destruct (Hargs arg Harg) as (val & -> & _).
Qed.

Lemma catalog_paths_resolve_completely_witness :
  template_ok cmd_getAdoptedDeviceDetails
  ∧ lacks "{"
      (ExecuteResult.path
         (resolveRequest cmd_getAdoptedDeviceDetails (device_params "s1" "d1"))).
Proof.
  apply (catalog_paths_resolve_completely cmd_getAdoptedDeviceDetails
           (device_params "s1" "d1")).
  - do 3 apply list_elem_of_further. apply list_elem_of_here.
  - intros _. split; repeat constructor; discriminate.
  - intros arg ->%list_elem_of_singleton. exists "d1". split; [reflexivity|].
    split; repeat constructor; discriminate.
Defined.

(* ===================================================================== *)
(** ** Site resolution: the first match                                  *)
(* ===================================================================== *)

Lemma array_find_first_match siteId before m after :
  Forall (entry_differs siteId) before →
  site_matches siteId m = Ok true →
  array_find (site_matches siteId) (before ++ m :: after) = Ok m.
Proof.
  intros Hbefore Hm.
  induction Hbefore as [|s before (r & i & Hr & Hner & Hi & Hnei) _ IH]; simpl.
  - by rewrite Hm.
  - unfold site_matches at 1. rewrite Hr, Hi.
    by rewrite !strict_eq_string_false.
Qed.

Lemma site_matches_true siteId m :
  get_prop m "internalReference" = Ok (VStr siteId)
  ∨ get_prop m "id" = Ok (VStr siteId) →
  site_matches siteId m = Ok true ∧ truthy m = true.
Proof.
  unfold site_matches. destruct m; simpl; try (intros [|]; done).
  intros [[= ->]|[= ->]]; simpl; rewrite ?String.eqb_refl; [done|].
  by destruct (strict_eq_string _ _).
Qed.

(** X6: on a session whose cache is empty, when the listing is fetched
    and holds an entry whose [internalReference] or [id] is the symbolic
    input, [resolveSiteId] returns the [id] of the first such entry, in the
    order of the listing, and stores it; once a truthy id is stored, every
    later symbolic input resolves to it without a request. *)
Theorem resolveSiteId_first_match
    fuel COMMANDS client siteId st sitesCmd result log' before m after id :
  ¬ canonical_shape lower_hex_digits siteId →
  truthy (resolvedDefaultSiteId st) = false →
  findCmd COMMANDS "getSiteOverviewPage" = Some sitesCmd →
  executeAllPages fuel sitesCmd no_params client 200 (requests st)
  = Some (Ok result, log') →
  get_prop result "data" = Ok (VArr (before ++ m :: after)) →
  Forall (entry_differs siteId) before →
  get_prop m "internalReference" = Ok (VStr siteId)
  ∨ get_prop m "id" = Ok (VStr siteId) →
  get_prop m "id" = Ok id →
  resolveSiteId fuel COMMANDS client siteId st = Some (Ok id, mkSession id log')
  ∧ (truthy id = true →
     ∀ fuel2 siteId2, ¬ canonical_shape lower_hex_digits siteId2 →
       resolveSiteId fuel2 COMMANDS client siteId2 (mkSession id log')
       = Some (Ok id, mkSession id log')).
Proof.
  intros Hsym%not_canonical_shape Hcache Hcmd Hrun Hdata Hbefore Hm Hid.
  destruct (site_matches_true _ _ Hm) as [Hmatch Htruthy]. split.
  - unfold resolveSiteId. rewrite Hsym, Hcache, Hcmd. simpl. rewrite Hrun.
    unfold find_site. rewrite Hdata.
    rewrite (array_find_first_match _ _ _ _ Hbefore Hmatch).
    by rewrite Htruthy, Hid.
  - intros Hidt fuel2 siteId2 Hsym2%not_canonical_shape.
    by rewrite resolveSiteId_cached.
Qed.

Lemma resolveSiteId_first_match_witness :
  let sites := [site_entry "aaaa" "lab"; site_entry home_site "default"] in
  let client := mockClient [site_listing sites] in
  let req := first_request cmd_getSiteOverviewPage no_params 200 in
  resolveSiteId 1 COMMANDS client "default" (mkSession VNull [])
  = Some (Ok (VStr home_site), mkSession (VStr home_site) [req])
  ∧ (truthy (VStr home_site) = true →
     ∀ fuel2 siteId2, ¬ canonical_shape lower_hex_digits siteId2 →
       resolveSiteId fuel2 COMMANDS client siteId2 (mkSession (VStr home_site) [req])
       = Some (Ok (VStr home_site), mkSession (VStr home_site) [req])).
Proof.
  intros sites client req.
  assert (Hsym : ¬ canonical_shape lower_hex_digits "default").
  { intros H%looks_like_uuid_spec. discriminate H. }
  assert (Hrun : executeAllPages 1 cmd_getSiteOverviewPage no_params client 200
                   (requests (mkSession VNull []))
                 = Some (Ok (site_listing sites), [req]))
    by (vm_compute; reflexivity).
  assert (Hdiff : Forall (entry_differs "default") [site_entry "aaaa" "lab"]).
  { repeat constructor. exists (VStr "lab"), (VStr "aaaa").
    repeat split; discriminate. }
  exact (resolveSiteId_first_match 1 COMMANDS client "default" (mkSession VNull [])
           cmd_getSiteOverviewPage (site_listing sites) [req]
           [site_entry "aaaa" "lab"] (site_entry home_site "default") []
           (VStr home_site) Hsym eq_refl eq_refl Hrun eq_refl Hdiff
           (or_introl eq_refl) eq_refl).
Defined.

(* ===================================================================== *)
(** ** Names: camelCase and toolName                                     *)
(* ===================================================================== *)

Lemma toUpperCase_lower d :
  is_lower d = true → toUpperCase d ≠ "-"%char ∧ is_lower (toUpperCase d) = false.
Proof.
  destruct d as [[] [] [] [] [] [] [] []]; try discriminate; intros _; by split.
Qed.

Lemma toLowerCase_dash c : toLowerCase c = "-"%char ↔ c = "-"%char.
Proof.
  destruct c as [[] [] [] [] [] [] [] []]; split; try discriminate; done.
Qed.

Lemma toLowerCase_idemp c : toLowerCase (toLowerCase c) = toLowerCase c.
Proof. by destruct c as [[] [] [] [] [] [] [] []]. Qed.

Lemma upper_after_dash_cons c rest :
  c ≠ "-"%char → upper_after_dash (String c rest) = String c (upper_after_dash rest).
Proof. intros Hc. simpl. by destruct (Ascii.eqb_spec c "-"). Qed.

Lemma upper_after_dash_dash d rest :
  is_lower d = false →
  upper_after_dash (String "-" (String d rest))
  = String "-" (upper_after_dash (String d rest)).
Proof. intros Hd. cbn [upper_after_dash]. simpl Ascii.eqb. by rewrite Hd. Qed.

(** After a character that is not a lower-case letter, the result does not
    begin with a lower-case letter either. *)
Lemma upper_after_dash_head d rest :
  is_lower d = false →
  ∃ d' rest', upper_after_dash (String d rest) = String d' rest'
              ∧ is_lower d' = false.
Proof.
  intros Hd. destruct (Ascii.eqb_spec d "-") as [->|Hne].
  - destruct rest as [|e rest]; [by exists "-"%char, ""|].
    destruct (is_lower e) eqn:He.
    + exists (toUpperCase e), (upper_after_dash rest). split.
      * cbn [upper_after_dash]. simpl Ascii.eqb. by rewrite He.
      * by apply toUpperCase_lower.
    + exists "-"%char, (upper_after_dash (String e rest)).
      split; [by apply upper_after_dash_dash|done].
  - exists d, (upper_after_dash rest). by rewrite upper_after_dash_cons.
Qed.

Lemma upper_after_dash_idemp_le n s :
  (String.length s ≤ n)%nat →
  upper_after_dash (upper_after_dash s) = upper_after_dash s.
Proof.
  revert s. induction n as [|n IH]; intros s Hlen.
  { destruct s; [done|simpl in Hlen; lia]. }
  destruct s as [|c rest]; [done|]. simpl in Hlen.
  destruct (Ascii.eqb_spec c "-") as [->|Hc].
  - destruct rest as [|d rest]; [done|]. simpl in Hlen.
    destruct (is_lower d) eqn:Hd.
    + assert (upper_after_dash (String "-" (String d rest))
              = String (toUpperCase d) (upper_after_dash rest)) as ->.
      { cbn [upper_after_dash]. simpl Ascii.eqb. by rewrite Hd. }
      destruct (toUpperCase_lower d Hd) as [Hne _].
      rewrite upper_after_dash_cons by done. f_equal. apply IH. lia.
    + rewrite upper_after_dash_dash by done.
      destruct (upper_after_dash_head d rest Hd) as (d' & rest' & Heq & Hd').
      assert (Hrec : upper_after_dash (upper_after_dash (String d rest))
                     = upper_after_dash (String d rest)).
      { apply IH. simpl. lia. }
      rewrite Heq in *. rewrite upper_after_dash_dash by done. by rewrite Hrec.
  - rewrite !upper_after_dash_cons by done. f_equal. apply IH. lia.
Qed.

Lemma upper_after_dash_lower_at_zero u :
  upper_after_dash u = u → upper_after_dash (lower_at_zero u) = lower_at_zero u.
Proof.
  destruct u as [|c rest]; [done|]. simpl lower_at_zero.
  destruct (Ascii.eqb_spec c "-") as [->|Hc]; [done|].
  rewrite upper_after_dash_cons by done. intros [= Hrest].
  rewrite upper_after_dash_cons; [by rewrite Hrest|].
  by rewrite toLowerCase_dash.
Qed.

(** X7: [camelCase] is idempotent: a name already in camel case is
    left as it is. *)
Theorem camelCase_idempotent s : camelCase (camelCase s) = camelCase s.
Proof.
  unfold camelCase.
  rewrite upper_after_dash_lower_at_zero
    by (by apply (upper_after_dash_idemp_le (String.length s))).
  destruct (upper_after_dash s) as [|c rest]; [done|]. simpl.
  by rewrite toLowerCase_idemp.
Qed.

Lemma dashes_to_underscores_lacks s : lacks "-" (dashes_to_underscores s).
Proof.
  induction s as [|c s IH]; [constructor|]. simpl. apply lacks_cons.
  split; [|done]. by destruct (Ascii.eqb_spec c "-").
Qed.

(** X8: the tool name of a descriptor holds no hyphen, whatever its
    group and action. *)
Theorem toolName_no_dash cmd : lacks "-" (toolName cmd).
Proof.
  unfold toolName. destruct (truthy_opt _).
  - apply lacks_append; [apply dashes_to_underscores_lacks|].
    apply (lacks_append _ "_"); [|apply dashes_to_underscores_lacks].
    apply lacks_cons. split; [done|constructor].
  - apply dashes_to_underscores_lacks.
Qed.

(* ===================================================================== *)
(** ** Schemas: references, shape, depth, descriptions                   *)
(* ===================================================================== *)

Lemma split_first_absent c0 pat s :
  lacks c0 s → split_first (String c0 pat) s = None.
Proof.
  intros Hs. rewrite <- (append_nil_r s). by rewrite split_first_skip.
Qed.

(** X10: [schemaName] removes the prefix [#/components/schemas/], and a
    text without [#] is its own schema name.  [resolveRef] answers with the
    schema that the document stores under the schema name of the
    reference.  When none is stored it answers [null], except for the names
    that every plain object inherits ([toString], [constructor], ...),
    where it answers with the inherited value, which is not [null] and has
    none of the fields of a schema. *)
Theorem schemaName_strips_prefix :
  (∀ name, schemaName ("#/components/schemas/" +:+ name) = name)
  ∧ (∀ ref, lacks "#" ref → schemaName ref = ref)
  ∧ (∀ spec ref schema,
        schemas spec !! schemaName ref = Some schema →
        resolveRef spec ref = Some schema)
  ∧ (∀ spec ref,
        resolveRef spec ref = None
        ↔ schemas spec !! schemaName ref = None
          ∧ schemaName ref ∉ Object_prototype_names)
  ∧ (∀ spec ref,
        schemas spec !! schemaName ref = None →
        schemaName ref ∈ Object_prototype_names →
        resolveRef spec ref = Some inherited_as_schema)
  ∧ (∀ spec, is_Some (resolveRef spec "#/components/schemas/toString")).
Proof.
  assert (H1 : ∀ name, schemaName ("#/components/schemas/" +:+ name) = name).
  { intros name. unfold schemaName, js_replace. by rewrite split_first_here. }
  assert (H2 : ∀ ref, lacks "#" ref → schemaName ref = ref).
  { intros ref Href. unfold schemaName, js_replace. by rewrite split_first_absent. }
  assert (H3 : ∀ spec ref,
            resolveRef spec ref
            = match schemas spec !! schemaName ref with
              | Some schema => Some schema
              | None => if bool_decide (schemaName ref ∈ Object_prototype_names)
                        then Some inherited_as_schema else None
              end) by done.
  split; [exact H1|]. split; [exact H2|]. split; [|split; [|split]].
  - intros spec ref schema Hs. by rewrite H3, Hs.
  - intros spec ref. rewrite H3. destruct (schemas spec !! schemaName ref).
    + split; [done|]. by intros [? _].
    + case_bool_decide; split; try done. by intros [_ ?].
  - intros spec ref Hs Hin. rewrite H3, Hs. by rewrite bool_decide_eq_true_2.
  - intros spec. rewrite H3.
    change "#/components/schemas/toString"
      with ("#/components/schemas/" +:+ "toString").
    rewrite (H1 "toString").
    destruct (schemas spec !! "toString"); [done|].
    rewrite bool_decide_eq_true_2; [done|].
    unfold Object_prototype_names. do 5 apply list_elem_of_further.
    apply list_elem_of_here.
Qed.

(** X11: what [toJsonSchema] returns is an object without a [$ref]:
    every reference has been replaced.  The object either has a [type]
    that is a string, or consists of the single key [oneOf], [anyOf] or
    [allOf] with a list of variants. *)
Theorem toJsonSchema_shape fuel spec schemaOrRef maxDepth seen r :
  toJsonSchema fuel spec schemaOrRef maxDepth seen = Some r →
  ∃ fields,
    r = VObj fields
    ∧ own_prop fields "$ref" = VUndef
    ∧ ((∃ type, own_prop fields "type" = VStr type)
       ∨ (∃ key vs, key ∈ ["oneOf"; "anyOf"; "allOf"] ∧ fields = [(key, VArr vs)])).
Proof.
  revert schemaOrRef maxDepth seen r.
  induction fuel as [|fuel IH]; intros schemaOrRef maxDepth seen r; [done|].
  simpl.
  assert (Hph : ∃ fields,
             object_placeholder = VObj fields
             ∧ own_prop fields "$ref" = VUndef
             ∧ ((∃ type, own_prop fields "type" = VStr type)
                ∨ (∃ key vs, key ∈ ["oneOf"; "anyOf"; "allOf"]
                             ∧ fields = [(key, VArr vs)]))).
  { eexists. split; [done|]. split; [done|]. left. by eexists. }
  destruct (maxDepth <=? 0); [by intros [= <-]|].
  destruct (truthy_opt (SchemaRef.ref schemaOrRef)) as [ref|].
  { case_decide; [by intros [= <-]|].
    destruct (resolveRef spec ref); [apply IH|by intros [= <-]]. }
  destruct (first_variants schemaOrRef) as [[key variants]|] eqn:Hvar.
  { assert (Hkey : key ∈ ["oneOf"; "anyOf"; "allOf"]).
    { unfold first_variants in Hvar.
      destruct (SchemaRef.oneOf schemaOrRef), (SchemaRef.anyOf schemaOrRef),
        (SchemaRef.allOf schemaOrRef); try discriminate Hvar;
        injection Hvar as <- _; rewrite !elem_of_cons; auto. }
    destruct (mapM _ variants) as [vs|]; [|done]. simpl. intros [= <-].
    eexists. split; [done|]. split; [|right; by exists key, vs].
    revert Hkey. rewrite !elem_of_cons, elem_of_nil.
    intros [->|[->|[->|[]]]]; done. }
  destruct (is_type schemaOrRef "array").
  { destruct (SchemaRef.items schemaOrRef) as [it|].
    - destruct (toJsonSchema fuel _ it _ _); [|done]. simpl. intros [= <-].
      eexists. split; [done|]. split; [done|]. left. by eexists.
    - intros [= <-]. eexists. split; [done|]. split; [done|]. left. by eexists. }
  destruct (_ || _).
  { destruct (SchemaRef.properties schemaOrRef) as [ps|]; simpl.
    - destruct (mapM _ ps) as [ps'|]; [|done]. simpl. intros [= <-].
      eexists. split; [done|]. split; [|left; by eexists].
      unfold required_field, description_field.
      by destruct (SchemaRef.required schemaOrRef), (truthy_opt _).
    - intros [= <-]. eexists. split; [done|]. split; [|left; by eexists].
      unfold required_field, description_field.
      by destruct (SchemaRef.required schemaOrRef), (truthy_opt _). }
  destruct (SchemaRef.enum schemaOrRef); intros [= <-];
    (eexists; split; [done|]; split; [|left; by eexists]);
    unfold description_field; by destruct (truthy_opt _).
Qed.

Lemma toJsonSchema_shape_witness :
  ∃ r,
    toJsonSchema 4 spec_Node schema_Node 3 ∅ = Some r
    ∧ ∃ fields,
        r = VObj fields
        ∧ own_prop fields "$ref" = VUndef
        ∧ ((∃ type, own_prop fields "type" = VStr type)
           ∨ (∃ key vs, key ∈ ["oneOf"; "anyOf"; "allOf"]
                        ∧ fields = [(key, VArr vs)])).
Proof.
  destruct (toJsonSchema 4 spec_Node schema_Node 3 ∅) as [r|] eqn:Hrun.
  - exists r. split; [reflexivity|].
    exact (toJsonSchema_shape 4 spec_Node schema_Node 3 ∅ r Hrun).
  - vm_compute in Hrun. discriminate Hrun.
Defined.

Lemma value_depth_VArr items n :
  Forall (λ v, value_depth v ≤ n)%nat items → (value_depth (VArr items) ≤ n + 1)%nat.
Proof.
  intros H. cbn [value_depth]. rewrite Nat.add_1_r. apply le_n_S.
  induction H as [|v items Hv _ IH]; [lia|]. lia.
Qed.

Lemma value_depth_VObj fields n :
  Forall (λ kv, value_depth (snd kv) ≤ n)%nat fields →
  (value_depth (VObj fields) ≤ n + 1)%nat.
Proof.
  intros H. cbn [value_depth]. rewrite Nat.add_1_r. apply le_n_S.
  induction H as [|[k v] fields Hv _ IH]; [lia|]. simpl in Hv. lia.
Qed.

Lemma value_depth_strings (l : list string) :
  (value_depth (VArr (map VStr l)) ≤ 1)%nat.
Proof.
  apply (value_depth_VArr _ 0), Forall_forall. intros v (s & <- & _)%list_elem_of_In%in_map_iff.
  done.
Qed.

Lemma mapM_Forall_result {A B} (f : A → option B) (P : B → Prop) l k :
  (∀ x y, f x = Some y → P y) → mapM f l = Some k → Forall P k.
Proof.
  intros Hf Hk%mapM_Some. induction Hk; constructor; eauto.
Qed.

(** X12: the depth bound limits the result: the value that
    [toJsonSchema] returns for [maxDepth] nests objects and arrays at most
    [2 * maxDepth + 1] deep, however large or circular the schema document
    is. *)
Theorem toJsonSchema_depth_bound fuel spec schemaOrRef maxDepth seen r :
  toJsonSchema fuel spec schemaOrRef maxDepth seen = Some r →
  (value_depth r ≤ 2 * Z.to_nat maxDepth + 1)%nat.
Proof.
  revert schemaOrRef maxDepth seen r.
  induction fuel as [|fuel IH]; intros schemaOrRef maxDepth seen r; [done|].
  simpl. destruct (Z.leb_spec maxDepth 0) as [Hneg|Hpos].
  { intros [= <-]. cbn. lia. }
  assert (Hd : (2 * Z.to_nat (maxDepth - 1) + 1 = 2 * Z.to_nat maxDepth - 1
                ∧ 1 ≤ Z.to_nat maxDepth)%nat) by lia.
  destruct Hd as [Hd Hd1].
  assert (Hrec : ∀ s seen' r', toJsonSchema fuel spec s (maxDepth - 1) seen' = Some r' →
                               (value_depth r' ≤ 2 * Z.to_nat maxDepth - 1)%nat).
  { intros s seen' r' Hs%IH. lia. }
  destruct (truthy_opt (SchemaRef.ref schemaOrRef)) as [ref|].
  { case_decide; [intros [= <-]; cbn; lia|].
    destruct (resolveRef spec ref); [|intros [= <-]; cbn; lia].
    intros Hs%Hrec. lia. }
  destruct (first_variants schemaOrRef) as [[key variants]|].
  { destruct (mapM _ variants) as [vs|] eqn:Hvs; [|done]. simpl. intros [= <-].
    etrans; [apply (value_depth_VObj _ (2 * Z.to_nat maxDepth))|lia].
    repeat constructor. cbn [snd].
    etrans; [apply (value_depth_VArr _ (2 * Z.to_nat maxDepth - 1))|lia].
    eapply mapM_Forall_result; [|exact Hvs]. intros x y. apply Hrec. }
  destruct (is_type schemaOrRef "array").
  { destruct (SchemaRef.items schemaOrRef) as [it|].
    - destruct (toJsonSchema fuel _ it _ _) as [ri|] eqn:Hit; [|done]. simpl.
      intros [= <-]. apply Hrec in Hit.
      etrans; [apply (value_depth_VObj _ (2 * Z.to_nat maxDepth - 1))|lia].
      repeat constructor; simpl; [lia|done].
    - intros [= <-]. cbn. lia. }
  assert (Htail : Forall (λ kv, value_depth (snd kv) ≤ 2 * Z.to_nat maxDepth)%nat
                    (required_field schemaOrRef ++ description_field schemaOrRef)).
  { apply Forall_app. split.
    - unfold required_field. destruct (SchemaRef.required schemaOrRef); constructor;
        [|constructor]. cbn [snd]. pose proof (value_depth_strings l). lia.
    - unfold description_field. destruct (truthy_opt _); repeat constructor.
      simpl. lia. }
  destruct (_ || _).
  { destruct (SchemaRef.properties schemaOrRef) as [ps|]; simpl.
    - destruct (mapM _ ps) as [ps'|] eqn:Hps; [|done]. simpl. intros [= <-].
      apply (value_depth_VObj _ (2 * Z.to_nat maxDepth)).
      constructor; [simpl; lia|]. constructor; [|done]. cbn [snd].
      etrans; [apply (value_depth_VObj _ (2 * Z.to_nat maxDepth - 1))|lia].
      eapply mapM_Forall_result; [|exact Hps]. intros [name prop] [name' r']; simpl.
      destruct (toJsonSchema fuel _ prop _ _) as [rp|] eqn:Hp; [|done]. simpl.
      intros [= <- <-]. by apply Hrec in Hp.
    - intros [= <-]. apply (value_depth_VObj _ (2 * Z.to_nat maxDepth)).
      constructor; [simpl; lia|done]. }
  assert (Hdesc : Forall (λ kv, value_depth (snd kv) ≤ 2 * Z.to_nat maxDepth)%nat
                    (description_field schemaOrRef)).
  { by apply Forall_app in Htail as [_ ?]. }
  destruct (SchemaRef.enum schemaOrRef) as [e|]; intros [= <-];
    apply (value_depth_VObj _ (2 * Z.to_nat maxDepth)).
  - constructor; [simpl; lia|]. constructor; [|done]. cbn [snd].
    pose proof (value_depth_strings e). lia.
  - constructor; [simpl; lia|done].
Qed.

Lemma toJsonSchema_depth_bound_witness :
  ∃ r,
    toJsonSchema 4 spec_Node schema_Node 3 ∅ = Some r
    ∧ (value_depth r ≤ 2 * Z.to_nat 3 + 1)%nat.
Proof.
  destruct (toJsonSchema 4 spec_Node schema_Node 3 ∅) as [r|] eqn:Hrun.
  - exists r. split; [reflexivity|].
    exact (toJsonSchema_depth_bound 4 spec_Node schema_Node 3 ∅ r Hrun).
  - vm_compute in Hrun. discriminate Hrun.
Defined.

Lemma nested_properties_is_Some structured spec depth ref :
  (0 < depth → ∀ s, is_Some (structured s (depth - 1))) →
  is_Some (nested_properties structured spec depth ref).
Proof.
  intros Hrec. unfold nested_properties.
  destruct (0 <? depth) eqn:Hd; [|done].
  apply Z.ltb_lt in Hd.
  destruct (resolveRef spec ref) as [resolved|]; [|done].
  destruct (has_properties resolved); [|done].
  destruct (Hrec Hd resolved) as [ps ->]. done.
Qed.

Lemma structured_entry_is_Some structured spec schema depth np :
  (0 < depth → ∀ s, is_Some (structured s (depth - 1))) →
  is_Some (structured_entry structured spec schema depth np).
Proof.
  intros Hrec. unfold structured_entry.
  destruct (truthy_opt (SchemaRef.ref np.2)) as [r|]; [|done].
  destruct (nested_properties_is_Some structured spec depth r Hrec) as [sub ->].
  done.
Qed.

Lemma structured_variants_is_Some structured spec depth key variants :
  (0 < depth → ∀ s, is_Some (structured s (depth - 1))) →
  is_Some (structured_variants structured spec depth key variants).
Proof.
  intros Hrec. unfold structured_variants.
  destruct variants as [vs|]; [|done].
  match goal with |- is_Some (mbind _ (mapM ?f vs)) =>
    assert (is_Some (mapM f vs)) as [infos ->] end.
  { apply mapM_is_Some, Forall_forall. intros v _. simpl.
    destruct (truthy_opt (SchemaRef.ref v)) as [r|]; [|done].
    destruct (nested_properties_is_Some structured spec depth r Hrec) as [sub ->].
    done. }
  simpl. by destruct (concat infos).
Qed.

Lemma structuredProps_is_Some fuel spec schema depth :
  (Z.to_nat depth < fuel)%nat →
  is_Some (structuredProps fuel spec schema depth).
Proof.
  revert schema depth. induction fuel as [|fuel IH]; intros schema depth Hfuel; [lia|].
  assert (0 < depth → ∀ s, is_Some (structuredProps fuel spec s (depth - 1))) as Hrec.
  { intros Hd s. apply IH. lia. }
  cbn [structuredProps].
  match goal with |- is_Some (mbind _ (mapM ?f ?l)) =>
    assert (is_Some (mapM f l)) as [entries ->] end.
  { apply mapM_is_Some, Forall_forall. intros np _.
    by apply structured_entry_is_Some. }
  cbn [mbind option_bind].
  destruct (structured_variants_is_Some (structuredProps fuel spec) spec depth
              "oneOf" (SchemaRef.oneOf schema) Hrec) as [one ->].
  destruct (structured_variants_is_Some (structuredProps fuel spec) spec depth
              "anyOf" (SchemaRef.anyOf schema) Hrec) as [any ->].
  done.
Qed.

Lemma structured_entry_fields structured spec schema depth np e :
  structured_entry structured spec schema depth np = Some e →
  get_prop e "name" = Ok (VStr np.1)
  ∧ get_prop e "type" = Ok (VStr (propType np.2))
  ∧ get_prop e "required" = Ok (VBool (is_required schema np.1)).
Proof.
  unfold structured_entry. intros He.
  destruct (match truthy_opt (SchemaRef.ref np.2) with
            | Some r => nested_properties structured spec depth r
            | None => Some []
            end) as [sub|]; [|done].
  simpl in He. injection He as <-. done.
Qed.

Lemma structured_variants_shape structured spec depth key variants vs :
  structured_variants structured spec depth key variants = Some vs →
  vs = [] ∨ ∃ info infos,
    vs = [VObj [("_discriminator", VStr key); ("variants", VArr (info :: infos))]].
Proof.
  unfold structured_variants. destruct variants as [l|]; [|intros [= <-]; by left].
  destruct (mapM _ l) as [infos|]; [|done]. simpl.
  destruct (concat infos) as [|info rest]; intros [= <-]; [by left|].
  right. by exists info, rest.
Qed.

(** X13: [structuredProps] returns for every schema document, circular or
    not, once the fuel exceeds the depth; its result starts with one entry
    per property of the schema, in the order of the schema, each with the
    property's name, its type label and whether the schema requires it.
    What follows is at most one object for [oneOf] and one for [anyOf],
    each naming at least one variant. *)
Theorem structuredProps_lists_properties fuel spec schema depth :
  (Z.to_nat depth < fuel)%nat →
  ∃ entries variants,
    structuredProps fuel spec schema depth = Some (entries ++ variants)
    ∧ map (λ e, (get_prop e "name", get_prop e "type", get_prop e "required"))
        entries
      = map (λ np, (Ok (VStr np.1), Ok (VStr (propType np.2)),
                    Ok (VBool (is_required schema np.1))))
          (default [] (SchemaRef.properties schema))
    ∧ (length variants ≤ 2)%nat
    ∧ Forall (λ v, ∃ key info infos,
                v = VObj [("_discriminator", VStr key);
                          ("variants", VArr (info :: infos))]
                ∧ (key = "oneOf" ∨ key = "anyOf")) variants.
Proof.
  intros Hfuel.
  destruct (structuredProps_is_Some fuel spec schema depth Hfuel) as [r Hr].
  destruct fuel as [|fuel]; [lia|]. cbn [structuredProps] in Hr.
  destruct (mapM _ (default [] (SchemaRef.properties schema)))
    as [entries|] eqn:Hentries; [|done].
  cbn [mbind option_bind] in Hr.
  destruct (structured_variants _ spec depth "oneOf" _) as [one|] eqn:Hone; [|done].
  cbn [mbind option_bind] in Hr.
  destruct (structured_variants _ spec depth "anyOf" _) as [any|] eqn:Hany; [|done].
  cbn [mbind option_bind] in Hr. injection Hr as <-.
  exists entries, (one ++ any). split.
  { cbn [structuredProps]. rewrite Hentries. cbn [mbind option_bind].
    rewrite Hone. cbn [mbind option_bind]. rewrite Hany. done. }
  split.
  { apply mapM_Some in Hentries.
    induction Hentries as [|np e l k He _ IH]; [done|].
    cbn [map]. rewrite IH.
    destruct (structured_entry_fields _ _ _ _ _ _ He) as (-> & -> & ->). done. }
  apply structured_variants_shape in Hone, Hany.
  destruct Hone as [->|(i1 & l1 & ->)], Hany as [->|(i2 & l2 & ->)];
    (split; [simpl; lia|]); repeat constructor; eauto 10.
Qed.

Lemma structuredProps_lists_properties_witness :
  ∃ entries variants,
    structuredProps 3 spec_Node schema_Node 2 = Some (entries ++ variants)
    ∧ map (λ e, (get_prop e "name", get_prop e "type", get_prop e "required"))
        entries
      = map (λ np, (Ok (VStr np.1), Ok (VStr (propType np.2)),
                    Ok (VBool (is_required schema_Node np.1))))
          (default [] (SchemaRef.properties schema_Node))
    ∧ (length variants ≤ 2)%nat
    ∧ Forall (λ v, ∃ key info infos,
                v = VObj [("_discriminator", VStr key);
                          ("variants", VArr (info :: infos))]
                ∧ (key = "oneOf" ∨ key = "anyOf")) variants.
Proof.
  apply (structuredProps_lists_properties 3 spec_Node schema_Node 2).
  simpl. lia.
Defined.

Lemma find_operation_id (methods : list (string * OperationObject.t)) operationId :
  ∀ method op,
    List.find (λ mo, bool_decide (OperationObject.operationId (snd mo)
                                  = Some operationId)) methods = Some (method, op) →
    (method, op) ∈ methods ∧ OperationObject.operationId op = Some operationId.
Proof.
  intros method op Hfind. apply find_some in Hfind as [Hin Hid].
  split; [by apply list_elem_of_In|]. by apply bool_decide_eq_true in Hid.
Qed.

(** X14: [findOperation] answers [null] exactly when no operation of the
    document carries the identifier; otherwise the operation that it
    returns carries the identifier and stands in the document under the
    returned path and method. *)
Theorem findOperation_finds (paths : Paths) (operationId : string) :
  match findOperation paths operationId with
  | Some (path, method, op) =>
      OperationObject.operationId op = Some operationId
      ∧ ∃ methods, (path, methods) ∈ paths ∧ (method, op) ∈ methods
  | None =>
      ∀ path methods method op,
        (path, methods) ∈ paths → (method, op) ∈ methods →
        OperationObject.operationId op ≠ Some operationId
  end.
Proof.
  induction paths as [|[path methods] rest IH]; cbn [findOperation].
  { intros ???? Hin. by apply elem_of_nil in Hin. }
  destruct (List.find _ methods) as [[method op]|] eqn:Hfind.
  - apply find_operation_id in Hfind as [Hin Hid]. split; [done|].
    exists methods. split; [apply list_elem_of_here|done].
  - destruct (findOperation rest operationId) as [[[p m] o]|].
    + destruct IH as (Hid & ms & Hin & Hin'). split; [done|].
      exists ms. split; [by apply list_elem_of_further|done].
    + intros p ms m o Hin Hin'. apply elem_of_cons in Hin as [[= -> ->]|Hin].
      * apply list_elem_of_In in Hin'.
        pose proof (find_none _ _ Hfind _ Hin') as Hno. simpl in Hno.
        by apply bool_decide_eq_false in Hno.
      * by eapply IH.
Qed.

Lemma variant_lines_is_Some describe spec indent depth key variants :
  (0 < depth → ∀ s i, is_Some (describe s i (depth - 1))) →
  is_Some (variant_lines describe spec indent depth key variants).
Proof.
  intros Hrec. unfold variant_lines. destruct variants as [vs|]; [|done].
  destruct (0 <? depth) eqn:Hd; [|done]. apply Z.ltb_lt in Hd.
  match goal with |- is_Some (mbind _ (mapM ?f vs)) =>
    assert (is_Some (mapM f vs)) as [nested ->] end; [|done].
  apply mapM_is_Some, Forall_forall. intros v _. simpl.
  destruct (truthy_opt (SchemaRef.ref v)) as [r|]; [|done].
  destruct (resolveRef spec r) as [resolved|]; [|done].
  destruct (has_properties resolved); [|done].
  by destruct (Hrec Hd resolved (indent +:+ "  ")) as [d ->].
Qed.

Lemma describeSchemaObject_is_Some fuel spec schema indent depth :
  (Z.to_nat depth < fuel)%nat →
  is_Some (describeSchemaObject fuel spec schema indent depth).
Proof.
  revert schema indent depth.
  induction fuel as [|fuel IH]; intros schema indent depth Hfuel; [lia|].
  assert (0 < depth → ∀ s i, is_Some (describeSchemaObject fuel spec s i (depth - 1)))
    as Hrec.
  { intros Hd s i. apply IH. lia. }
  cbn [describeSchemaObject].
  destruct (variant_lines_is_Some (describeSchemaObject fuel spec) spec indent
              depth "oneOf" (SchemaRef.oneOf schema) Hrec) as [one ->].
  destruct (variant_lines_is_Some (describeSchemaObject fuel spec) spec indent
              depth "anyOf" (SchemaRef.anyOf schema) Hrec) as [any ->].
  done.
Qed.





(* ===================================================================== *)
(** ** The MCP server: input schemas, tool calls and resources           *)
(* ===================================================================== *)

Lemma own_prop_obj_set_eq fields k v : own_prop (obj_set fields k v) k = v.
Proof.
  induction fields as [|[k' v'] rest IH]; simpl.
  - by rewrite String.eqb_refl.
  - destruct (String.eqb k' k) eqn:Hk; simpl.
    + by rewrite String.eqb_refl.
    + by rewrite Hk.
Qed.

Lemma own_prop_obj_set_ne fields k v k' :
  k ≠ k' → own_prop (obj_set fields k v) k' = own_prop fields k'.
Proof.
  intros Hne. induction fields as [|[k0 v0] rest IH]; simpl.
  - by apply String.eqb_neq in Hne as ->.
  - destruct (String.eqb k0 k) eqn:Hk; simpl.
    + apply String.eqb_eq in Hk as ->. by apply String.eqb_neq in Hne as ->.
    + by rewrite IH.
Qed.

Lemma required_described_set properties required k schema :
  required_described (properties, required) →
  required_described (obj_set properties k (VObj schema), required).
Proof.
  intros Hacc name Hin. simpl. destruct (decide (k = name)) as [->|Hne].
  - rewrite own_prop_obj_set_eq. eauto.
  - rewrite own_prop_obj_set_ne by done. by apply Hacc.
Qed.

Lemma required_described_push properties required k schema :
  required_described (properties, required) →
  required_described (obj_set properties k (VObj schema), required ++ [k]).
Proof.
  intros Hacc name Hin. simpl in *. destruct (decide (k = name)) as [->|Hne].
  - rewrite own_prop_obj_set_eq. eauto.
  - rewrite own_prop_obj_set_ne by done. apply Hacc. simpl.
    apply elem_of_app in Hin as [?|Hin]; [done|].
    by apply list_elem_of_singleton in Hin.
Qed.

Lemma fold_add_arg_property args acc :
  required_described acc →
  required_described (fold_left add_arg_property args acc)
  ∧ (∀ name, name ∈ acc.2 ∨ name ∈ map ArgDef.name args →
             name ∈ (fold_left add_arg_property args acc).2).
Proof.
  revert acc. induction args as [|arg args IH]; intros [properties required] Hacc;
    cbn [fold_left map].
  { split; [done|]. intros name [?|Hin]; [done|]. by apply elem_of_nil in Hin. }
  destruct (IH (add_arg_property (properties, required) arg)) as [Hdesc Hin].
  { by apply required_described_push. }
  split; [done|]. intros name Hname. apply Hin. cbn [add_arg_property fst snd].
  rewrite elem_of_app, list_elem_of_singleton.
  destruct Hname as [?|[->|?]%elem_of_cons]; auto.
Qed.

Lemma fold_add_query_property qps acc :
  required_described acc →
  required_described (fold_left add_query_property qps acc)
  ∧ (∀ name, name ∈ acc.2 → name ∈ (fold_left add_query_property qps acc).2).
Proof.
  revert acc. induction qps as [|qp qps IH]; intros [properties required] Hacc;
    cbn [fold_left]; [done|].
  destruct (IH (add_query_property (properties, required) qp)) as [Hdesc Hin].
  { unfold add_query_property. cbn [fst snd].
    destruct (QueryParamDef.required qp).
    - by apply required_described_push.
    - by apply required_described_set. }
  split; [done|]. intros name Hname. apply Hin.
  unfold add_query_property. cbn [fst snd].
  destruct (QueryParamDef.required qp); [|done].
  apply elem_of_app. by left.
Qed.

Lemma body_schema_is_Some fuel document cmd :
  (3 < fuel)%nat → is_Some (body_schema fuel document cmd).
Proof.
  intros Hfuel. unfold body_schema. destruct document as [[spec paths]|]; [|done].
  destruct (findOperation paths _) as [[[? ?] op]|]; [|done].
  destruct (truthy_opt (getOperationBodyRef op)) as [bodyRef|]; [|done].
  assert (is_Some (describeSchema fuel spec bodyRef 2)) as [help ->].
  { unfold describeSchema. destruct (resolveRef spec bodyRef); [|done].
    apply describeSchemaObject_is_Some. lia. }
  destruct (resolveRef spec bodyRef) as [resolved|]; [|done].
  destruct (toJsonSchema_is_Some fuel spec resolved 3 ∅) as [js ->]; [lia|].
  done.
Qed.

Lemma body_property_shape bodySchema bodyDesc :
  ∃ schema,
    body_property bodySchema bodyDesc = VObj schema
    ∧ own_prop schema "type" = VStr "object"
    ∧ own_prop schema "description" = VStr bodyDesc
    ∧ own_prop schema "additionalProperties" = VBool true.
Proof.
  unfold body_property.
  destruct bodySchema as [[| | | | | |fields]|]; try (by eexists).
  destruct (strict_eq_string (own_prop fields "type") "object") eqn:Htype;
    [|by eexists].
  eexists. split; [done|].
  rewrite own_prop_obj_set_eq, !own_prop_obj_set_ne, own_prop_obj_set_eq by done.
  split; [|done]. destruct (own_prop fields "type"); try done.
  simpl in Htype. by apply String.eqb_eq in Htype as ->.
Qed.

(** X16: the input schema of a tool is well formed, whatever the schema
    document holds and whether or not it could be loaded: every name that
    it requires is one of its properties and has a schema there; each
    positional argument of the command is required; a command with a body
    requires [body], whose schema has the type [object], carries the
    description and lets additional properties through. *)
Theorem buildInputSchema_well_formed fuel document cmd :
  (3 < fuel)%nat →
  ∃ properties required,
    buildInputSchema fuel document cmd
    = Some (VObj [("type", VStr "object");
                  ("properties", VObj properties);
                  ("required", required_or_undefined required)])
    ∧ (∀ name, name ∈ required → ∃ schema, own_prop properties name = VObj schema)
    ∧ (∀ arg, arg ∈ CmdDef.args cmd → ArgDef.name arg ∈ required)
    ∧ (CmdDef.hasBody cmd = true →
       "body" ∈ required
       ∧ ∃ schema,
           own_prop properties "body" = VObj schema
           ∧ own_prop schema "type" = VStr "object"
           ∧ own_prop schema "additionalProperties" = VBool true).
Proof.
  intros Hfuel. unfold buildInputSchema.
  set (properties0 := if CmdDef.needsSite cmd then _ else []).
  destruct (fold_add_arg_property (CmdDef.args cmd) (properties0, []))
    as [Hargs Hargs_in].
  { intros name Hin. by apply elem_of_nil in Hin. }
  set (acc1 := fold_left add_arg_property (CmdDef.args cmd) (properties0, [])) in *.
  set (properties1 := if CmdDef.paginatable cmd then _ else acc1.1).
  assert (required_described (properties1, acc1.2)) as Hpaging.
  { subst properties1. destruct (CmdDef.paginatable cmd).
    - do 3 apply required_described_set. by destruct acc1.
    - by destruct acc1. }
  destruct (fold_add_query_property (CmdDef.extraQuery cmd) (properties1, acc1.2))
    as [Hquery Hquery_in]; [done|].
  set (acc2 := fold_left add_query_property (CmdDef.extraQuery cmd)
                 (properties1, acc1.2)) in *.
  assert (∀ arg, arg ∈ CmdDef.args cmd → ArgDef.name arg ∈ acc2.2) as Hpos.
  { intros arg Hin. apply Hquery_in, Hargs_in. right.
    apply list_elem_of_In, in_map. by apply list_elem_of_In. }
  destruct (CmdDef.hasBody cmd).
  - destruct (body_schema_is_Some fuel document cmd Hfuel) as [[bodySchema bodyDesc] ->].
    cbn [mbind option_bind fst snd].
    destruct (body_property_shape bodySchema bodyDesc)
      as (schema & Hbody & Htype & _ & Hmore).
    rewrite Hbody.
    exists (obj_set acc2.1 "body" (VObj schema)), (acc2.2 ++ ["body"]).
    split; [done|]. split; [|split].
    + apply (required_described_push acc2.1 acc2.2 "body" schema).
      by destruct acc2.
    + intros arg Hin. apply elem_of_app. left. by apply Hpos.
    + intros _. split.
      * apply elem_of_app. right. apply list_elem_of_here.
      * exists schema. by rewrite own_prop_obj_set_eq.
  - cbn [mbind option_bind]. exists acc2.1, acc2.2.
    split; [done|]. split; [|split]; [|done|done].
    intros name Hin. by apply Hquery.
Qed.

Lemma buildInputSchema_well_formed_witness :
  ∃ properties required,
    buildInputSchema 4 None cmd_deleteNetwork
    = Some (VObj [("type", VStr "object");
                  ("properties", VObj properties);
                  ("required", required_or_undefined required)])
    ∧ (∀ name, name ∈ required → ∃ schema, own_prop properties name = VObj schema)
    ∧ (∀ arg, arg ∈ CmdDef.args cmd_deleteNetwork → ArgDef.name arg ∈ required)
    ∧ (CmdDef.hasBody cmd_deleteNetwork = true →
       "body" ∈ required
       ∧ ∃ schema,
           own_prop properties "body" = VObj schema
           ∧ own_prop schema "type" = VStr "object"
           ∧ own_prop schema "additionalProperties" = VBool true).
Proof.
  apply (buildInputSchema_well_formed 4 None cmd_deleteNetwork). lia.
Defined.

Lemma executeAllPages_methods fuel cmd params client pageSize log res log' :
  executeAllPages fuel cmd params client pageSize log = Some (res, log') →
  ∃ reqs, log' = log ++ reqs
    ∧ Forall (λ req, RequestOptions.method req = CmdDef.method cmd) reqs.
Proof.
  unfold executeAllPages. destruct (CmdDef.paginatable cmd); simpl.
  - intros (pages & final & -> & _)%executeAllPages_loop_trace.
    eexists. split; [done|]. apply Forall_app. split.
    + apply Forall_forall. intros req [n ->]%page_requests_elem. done.
    + by constructor.
  - unfold executeCommand. intros [= <- <-]. eexists. split; [done|].
    by constructor.
Qed.

Lemma findCmd_sites :
  findCmd COMMANDS "getSiteOverviewPage" = Some cmd_getSiteOverviewPage.
Proof. reflexivity. Qed.

Lemma resolveSiteId_requests fuel client siteId st res st' :
  resolveSiteId fuel COMMANDS client siteId st = Some (res, st') →
  ∃ reqs, requests st' = requests st ++ reqs
    ∧ Forall (λ req, RequestOptions.method req = "GET") reqs.
Proof.
  assert (∃ reqs, requests st = requests st ++ reqs
            ∧ Forall (λ req, RequestOptions.method req = "GET") reqs) as Hsame.
  { exists []. rewrite app_nil_r. split; [reflexivity|constructor]. }
  unfold resolveSiteId. rewrite findCmd_sites.
  destruct (looks_like_uuid siteId); [by intros [= <- <-]|].
  destruct (negb _); [|by intros [= <- <-]].
  destruct (executeAllPages _ _ _ _ _ _) as [[r log']|] eqn:Hrun; [|done].
  apply executeAllPages_methods in Hrun as (reqs & -> & Hreqs).
  assert (∀ c, ∃ reqs0, requests (mkSession c (requests st ++ reqs))
                        = requests st ++ reqs0
            ∧ Forall (λ req, RequestOptions.method req = "GET") reqs0) as Hgrown.
  { intros c. by exists reqs. }
  destruct r as [result|e]; [|by intros [= <- <-]].
  destruct (find_site result siteId) as [m|e]; [|by intros [= <- <-]].
  destruct (truthy m); [|by intros [= <- <-]].
  destruct (get_prop m "id"); by intros [= <- <-].
Qed.

Lemma resolveSiteId_cache_kept fuel client siteId st res st' :
  truthy (resolvedDefaultSiteId st) = true →
  resolveSiteId fuel COMMANDS client siteId st = Some (res, st') →
  st' = st.
Proof.
  intros Hcache. unfold resolveSiteId. rewrite Hcache. simpl.
  by destruct (looks_like_uuid siteId); intros [= <- <-].
Qed.

Lemma GET_read_only : "GET" ∈ READ_ONLY_METHODS.
Proof. apply elem_of_list_to_set, list_elem_of_here. Qed.

Lemma value_nested_ind (P : value → Prop) :
  P VUndef → P VNull → (∀ b, P (VBool b)) → (∀ n, P (VNum n)) → (∀ s, P (VStr s)) →
  (∀ items, Forall P items → P (VArr items)) →
  (∀ fields, P (VObj fields)) →
  ∀ v, P v.
Proof.
  intros Hu Hn Hb Hnum Hs Harr Hobj. fix IH 1.
  intros [| |b|n|s|items|fields];
    [exact Hu|exact Hn|apply Hb|apply Hnum|apply Hs| |apply Hobj].
  apply Harr. induction items as [|x items IHitems]; constructor;
    [apply IH|exact IHitems].
Qed.

(** The only error of [String(v)] is a [TypeError]. *)
Lemma js_ToString_throws v e : js_ToString v = Some (Throw e) → e = TypeError.
Proof.
  revert e. induction v as [| |b|n|s|items IH|fields] using value_nested_ind;
    intros e; cbn [js_ToString]; try done.
  - by destruct b.
  - destruct n as [| | |q]; try done. by destruct (_ && _).
  - match goal with |- try_bind ?g _ = _ → _ =>
      assert (∀ e', g = Some (Throw e') → e' = TypeError) as Hgo;
      [|destruct g as [[parts|ep]|]; cbn [try_bind]; [done| |done];
        intros [= <-]; by apply Hgo]
    end.
    induction IH as [|x items Hx _ IHgo]; intros e'; [done|].
    destruct (match x with VUndef | VNull => Some (Ok "") | _ => js_ToString x end)
      as [[sx|ex]|] eqn:Hconv; cbn [try_bind]; [| |done].
    + match goal with |- try_bind ?g _ = _ → _ =>
        destruct g as [[rest|er]|]; cbn [try_bind]; [done| |done] end.
      intros [= <-]. by apply IHgo.
    + intros [= <-]. apply Hx. by destruct x.
  - destruct (has_key fields "toString"); [|done]. by intros [= <-].
Qed.

Lemma fold_add_path_arg_throws params args acc e :
  fold_left (add_path_arg params) args acc = Some (Throw e) →
  acc = Some (Throw e) ∨ ∃ k, js_ToString (param params k) = Some (Throw e).
Proof.
  revert acc. induction args as [|arg args IH]; intros acc; cbn [fold_left]; [by left|].
  intros [Hacc|?]%IH; [|by right]. unfold add_path_arg in Hacc.
  destruct acc as [[m|e0]|]; cbn [try_bind] in Hacc; [|by left|done].
  destruct (truthy _); [|done].
  destruct (js_ToString (param params (ArgDef.name arg))) as [[sv|ev]|] eqn:Hconv;
    cbn [try_bind] in Hacc; [done| |done].
  injection Hacc as ->. right. eauto.
Qed.

Lemma fold_add_extra_query_throws params qps acc e :
  fold_left (add_extra_query params) qps acc = Some (Throw e) →
  acc = Some (Throw e) ∨ ∃ k, js_ToString (param params k) = Some (Throw e).
Proof.
  revert acc. induction qps as [|qp qps IH]; intros acc; cbn [fold_left]; [by left|].
  intros [Hacc|?]%IH; [|by right]. unfold add_extra_query in Hacc.
  destruct acc as [[m|e0]|]; cbn [try_bind] in Hacc; [|by left|done].
  destruct (param params (QueryParamDef.name qp)) eqn:Hp; [done|..];
    match type of Hacc with try_bind ?g _ = _ =>
      destruct g as [[sv|ev]|] eqn:Hconv end;
    cbn [try_bind] in Hacc; try done;
    injection Hacc as ->; right; exists (QueryParamDef.name qp); by rewrite Hp.
Qed.

Lemma call_arguments_throws config cmd params e :
  call_arguments config cmd params = Some (Throw e) →
  ∃ k, js_ToString (param params k) = Some (Throw e).
Proof.
  unfold call_arguments.
  destruct (fold_left (add_path_arg params) _ _) as [[pathArgs|e1]|] eqn:Hargs;
    cbn [try_bind]; [| |done].
  2:{ intros [= ->]. by apply fold_add_path_arg_throws in Hargs as [?|?]. }
  destruct (fold_left (add_extra_query params) _ _) as [[extraQuery|e2]|] eqn:Hextra;
    cbn [try_bind]; [| |done].
  2:{ intros [= ->]. by apply fold_add_extra_query_throws in Hextra as [?|?]. }
  destruct (truthy (param params "siteId")); [|done].
  destruct (js_ToString (param params "siteId")) as [[sv|ev]|] eqn:Hconv;
    cbn [try_bind]; [done| |done].
  intros [= ->]. eauto.
Qed.

Lemma paging_arguments_throws params e :
  paging_arguments params = Some (Throw e) →
  ∃ k, js_ToString (param params k) = Some (Throw e).
Proof.
  assert (∀ k o, string_unless_undefined (param params k) = Some o →
                 (∃ so, o = Ok so)
                 ∨ ∃ e', o = Throw e' ∧ js_ToString (param params k) = Some (Throw e'))
    as Hunless.
  { intros k o. unfold string_unless_undefined.
    destruct (param params k) eqn:Hp; [intros [= <-]; eauto|..];
      match goal with |- try_bind ?g _ = _ → _ =>
        destruct g as [[sv|ev]|] eqn:Hconv end;
      cbn [try_bind]; intros [= <-]; eauto. }
  unfold paging_arguments.
  destruct (string_unless_undefined (param params "offset")) as [o|] eqn:Ho;
    [|done].
  apply Hunless in Ho as [[offset ->]|(e1 & -> & He1)]; cbn [try_bind];
    [|intros [= <-]; eauto].
  destruct (string_unless_undefined (param params "limit")) as [o|] eqn:Hl;
    [|done].
  apply Hunless in Hl as [[limit ->]|(e2 & -> & He2)]; cbn [try_bind];
    [|intros [= <-]; eauto].
  unfold string_if_truthy. destruct (truthy (param params "filter")); [|done].
  destruct (js_ToString (param params "filter")) as [[sv|ev]|] eqn:Hconv;
    cbn [try_bind]; [done| |done].
  intros [= ->]. eauto.
Qed.

Lemma execute_for_site_methods fuel auto cmd v rest client log res log' :
  execute_for_site fuel auto cmd v rest client log = Some (res, log') →
  ∃ reqs, log' = log ++ reqs
    ∧ Forall (λ req, RequestOptions.method req = CmdDef.method cmd) reqs.
Proof.
  unfold execute_for_site.
  destruct (if CmdDef.needsSite cmd then site_argument v else Some (Ok None))
    as [[siteId|e]|]; [| |done].
  - destruct auto.
    + apply executeAllPages_methods.
    + unfold executeCommand. intros [= <- <-]. eexists. split; [done|].
      by constructor.
  - intros [= <- <-]. exists []. rewrite app_nil_r. split; [reflexivity|constructor].
Qed.

(** The ways of a call: it is refused; or the tool is a command that the
    mode allows, in a configured server, and then an argument cannot be
    converted, or the site resolution throws, or the command runs. *)
Lemma callTool_cases fuel config client name params st r st' :
  callTool fuel config client name params st = Some (r, st') →
  (st' = st
   ∧ (∃ error hint, r = Ok (ToolRefused error hint))
   ∧ (toolMap !! name = None
      ∨ (∃ cmd, toolMap !! name = Some cmd ∧ Config.readOnly config = true
                ∧ CmdDef.method cmd ∉ READ_ONLY_METHODS)
      ∨ configured config = false))
  ∨ ∃ cmd,
      toolMap !! name = Some cmd
      ∧ (Config.readOnly config = true → CmdDef.method cmd ∈ READ_ONLY_METHODS)
      ∧ configured config = true
      ∧ ((st' = st
          ∧ ∃ e, r = Throw e ∧ call_arguments config cmd params = Some (Throw e))
         ∨ ∃ pathArgs extraQuery rawSiteId,
             call_arguments config cmd params
             = Some (Ok (pathArgs, extraQuery, rawSiteId))
             ∧ ((∃ e, (if CmdDef.needsSite cmd
                       then resolveSiteId fuel COMMANDS client rawSiteId st
                       else Some (Ok (VStr rawSiteId), st)) = Some (Throw e, st')
                      ∧ r = Throw e)
                ∨ ∃ v st1,
                    (if CmdDef.needsSite cmd
                     then resolveSiteId fuel COMMANDS client rawSiteId st
                     else Some (Ok (VStr rawSiteId), st)) = Some (Ok v, st1)
                    ∧ ((∃ e, paging_arguments params = Some (Throw e)
                             ∧ r = Throw e ∧ st' = st1)
                       ∨ ∃ auto rest res log',
                           execute_for_site fuel auto cmd v rest client (requests st1)
                           = Some (res, log')
                           ∧ r = Ok (match res with
                                     | Ok result => ToolResult result
                                     | Throw e => ToolFailed e
                                     end)
                           ∧ st' = mkSession (resolvedDefaultSiteId st1) log'))).
Proof.
  unfold callTool. destruct (toolMap !! name) as [cmd|] eqn:Htool.
  2:{ intros [= <- <-]. left. split; [reflexivity|]. split; [eauto|]. by left. }
  assert (Config.readOnly config
          && negb (bool_decide (CmdDef.method cmd ∈ READ_ONLY_METHODS)) = false →
          Config.readOnly config = true → CmdDef.method cmd ∈ READ_ONLY_METHODS)
    as Hallowed.
  { intros Hro Htrue. rewrite Htrue in Hro. cbn [andb] in Hro.
    apply negb_false_iff in Hro.
    by apply bool_decide_eq_true in Hro. }
  destruct (Config.readOnly config
            && negb (bool_decide (CmdDef.method cmd ∈ READ_ONLY_METHODS))) eqn:Hro.
  { intros [= <- <-]. left. split; [reflexivity|]. split; [eauto|]. right. left.
    exists cmd. apply andb_true_iff in Hro as [Hro Hm].
    apply negb_true_iff, bool_decide_eq_false in Hm.
    split; [reflexivity|]. split; [exact Hro|exact Hm]. }
  specialize (Hallowed eq_refl).
  destruct (configured config) eqn:Hconf; cbn [negb].
  2:{ intros [= <- <-]. left. split; [reflexivity|]. split; [eauto|].
      right. right. reflexivity. }
  intros Hrun. right. exists cmd. split; [reflexivity|]. split; [exact Hallowed|].
  split; [reflexivity|]. revert Hrun.
  destruct (call_arguments config cmd params)
    as [[[[pathArgs extraQuery] rawSiteId]|e]|]; [| |done].
  2:{ intros [= <- <-]. left. split; [reflexivity|]. exists e. split; reflexivity. }
  intros Hrun. right. exists pathArgs, extraQuery, rawSiteId.
  split; [reflexivity|]. revert Hrun.
  destruct (if CmdDef.needsSite cmd
            then resolveSiteId fuel COMMANDS client rawSiteId st
            else Some (Ok (VStr rawSiteId), st))
    as [[[v|e] st1]|]; [| |done].
  2:{ intros [= <- <-]. left. exists e. split; reflexivity. }
  intros Hrun. right. exists v, st1. split; [reflexivity|]. revert Hrun.
  destruct (paging_arguments params) as [[[[offset limit] filter]|e]|]; [| |done].
  2:{ intros [= <- <-]. left. exists e. split; [reflexivity|]. split; reflexivity. }
  destruct (execute_for_site _ _ _ _ _ _ _) as [[res log']|] eqn:Hexec; [|done].
  cbn [mbind option_bind fst snd]. intros [= <- <-]. right.
  do 4 eexists. split; [exact Hexec|]. split; reflexivity.
Qed.

(** The requests of a call: those of the site resolution, then those of the
    command, which was accepted. *)
Lemma callTool_requests fuel config client name params st r st' :
  callTool fuel config client name params st = Some (r, st') →
  ∃ reqs,
    requests st' = requests st ++ reqs
    ∧ Forall (λ req,
                RequestOptions.method req = "GET"
                ∨ ∃ cmd, toolMap !! name = Some cmd
                         ∧ (Config.readOnly config = true →
                            CmdDef.method cmd ∈ READ_ONLY_METHODS)
                         ∧ RequestOptions.method req = CmdDef.method cmd) reqs.
Proof.
  assert (∀ cmd rawSiteId res1 st1,
            (if CmdDef.needsSite cmd
             then resolveSiteId fuel COMMANDS client rawSiteId st
             else Some (Ok (VStr rawSiteId), st)) = Some (res1, st1) →
            ∃ reqs1, requests st1 = requests st ++ reqs1
              ∧ Forall (λ req, RequestOptions.method req = "GET") reqs1) as Hsite.
  { intros cmd rawSiteId res1 st1. destruct (CmdDef.needsSite cmd).
    - apply resolveSiteId_requests.
    - intros [= <- <-]. exists []. rewrite app_nil_r.
      split; [reflexivity|constructor]. }
  intros [(-> & _)|(cmd & Htool & Hallowed & _ & Hways)]%callTool_cases.
  { exists []. rewrite app_nil_r. split; [reflexivity|constructor]. }
  destruct Hways as [(-> & _)|(pathArgs & extraQuery & rawSiteId & Hrest)].
  { exists []. rewrite app_nil_r. split; [reflexivity|constructor]. }
  destruct Hrest as [_ [(e & (reqs1 & Hlog1 & Hreqs1)%Hsite & _)
                       |(v & st1 & (reqs1 & Hlog1 & Hreqs1)%Hsite & Hrest)]].
  { exists reqs1. split; [exact Hlog1|].
    eapply Forall_impl; [exact Hreqs1|]. intros req Hreq. left. exact Hreq. }
  destruct Hrest as [(e & _ & _ & ->)
                    |(auto & rest & res & log' & Hexec & _ & ->)].
  { exists reqs1. split; [exact Hlog1|].
    eapply Forall_impl; [exact Hreqs1|]. intros req Hreq. left. exact Hreq. }
  apply execute_for_site_methods in Hexec as (reqs2 & -> & Hreqs2).
  exists (reqs1 ++ reqs2). cbn [requests]. rewrite Hlog1, <- app_assoc.
  split; [reflexivity|]. apply Forall_app. split.
  - eapply Forall_impl; [exact Hreqs1|]. intros req Hreq. left. exact Hreq.
  - eapply Forall_impl; [exact Hreqs2|]. intros req Hreq. right. exists cmd.
    split; [exact Htool|]. split; [exact Hallowed|exact Hreq].
Qed.

(** X17: a server in read-only mode sends nothing but requests whose method
    is one of [GET], [HEAD], [OPTIONS], whatever tool is called with
    whatever arguments and whatever the controller answers; the requests of
    a call are added after the earlier ones. *)
Theorem callTool_read_only_sends_reads fuel config client name params st r st' :
  Config.readOnly config = true →
  callTool fuel config client name params st = Some (r, st') →
  ∃ reqs,
    requests st' = requests st ++ reqs
    ∧ Forall (λ req, RequestOptions.method req ∈ READ_ONLY_METHODS) reqs.
Proof.
  intros Hro (reqs & Hlog & Hreqs)%callTool_requests.
  exists reqs. split; [done|]. eapply Forall_impl; [exact Hreqs|].
  intros req [->|(cmd & _ & Hallowed & ->)]; [apply GET_read_only|by apply Hallowed].
Qed.

Lemma callTool_read_only_sends_reads_witness :
  let st := mkSession VNull [] in
  ∃ r st',
    callTool 5 (test_config true) home_client "devices_list"
      (Some [("filter", VStr "name.like(ap)")]) st = Some (r, st')
    ∧ ∃ reqs,
        requests st' = requests st ++ reqs
        ∧ Forall (λ req, RequestOptions.method req ∈ READ_ONLY_METHODS) reqs.
Proof.
  intros st.
  destruct (callTool 5 (test_config true) home_client "devices_list"
              (Some [("filter", VStr "name.like(ap)")]) st)
    as [[r st']|] eqn:Hrun.
  - exists r, st'. split; [reflexivity|].
    exact (callTool_read_only_sends_reads 5 (test_config true) home_client
             "devices_list" (Some [("filter", VStr "name.like(ap)")]) st r st'
             eq_refl Hrun).
  - vm_compute in Hrun. discriminate Hrun.
Defined.

(** X18: an error leaves the handler in two ways only.  Either the tool is
    a command that needs a site and it is [resolveSiteId] that threw, on the
    session of the call: the site is resolved before the [try] block.  Or
    the error is the [TypeError] of [String(...)] on an argument of the
    call, for the arguments are converted before the [try] block too; the
    requests sent by then are none, or those of a site resolution that
    gave a site.  An error of the command's own requests is caught and
    answered. *)
Theorem callTool_escaping_errors fuel config client name params st e st' :
  callTool fuel config client name params st = Some (Throw e, st') →
  (∃ cmd rawSiteId,
      toolMap !! name = Some cmd
      ∧ CmdDef.needsSite cmd = true
      ∧ resolveSiteId fuel COMMANDS client rawSiteId st = Some (Throw e, st'))
  ∨ (e = TypeError
     ∧ (∃ k, js_ToString (param params k) = Some (Throw TypeError))
     ∧ (st' = st
        ∨ ∃ rawSiteId v,
            resolveSiteId fuel COMMANDS client rawSiteId st = Some (Ok v, st'))).
Proof.
  intros [(_ & (error & hint & Hr) & _)|(cmd & Htool & _ & _ & Hways)]%callTool_cases;
    [discriminate Hr|].
  destruct Hways as [(-> & e0 & [= <-] & Hargs)
                    |(pathArgs & extraQuery & rawSiteId & _ & Hrest)].
  { right. apply call_arguments_throws in Hargs as [k Hk].
    pose proof (js_ToString_throws _ _ Hk) as ->.
    split; [reflexivity|]. split; [eauto|]. left. reflexivity. }
  destruct Hrest as [(e0 & Hsite & [= <-])|(v & st1 & Hsite & Hrest)].
  { left. exists cmd, rawSiteId. destruct (CmdDef.needsSite cmd); [|discriminate Hsite].
    split; [exact Htool|]. split; [reflexivity|exact Hsite]. }
  destruct Hrest as [(e0 & Hpaging & [= <-] & ->)
                    |(auto & rest & res & log' & _ & Hr & _)];
    [|destruct res; discriminate Hr].
  right. apply paging_arguments_throws in Hpaging as [k Hk].
  pose proof (js_ToString_throws _ _ Hk) as ->.
  split; [reflexivity|]. split; [eauto|].
  destruct (CmdDef.needsSite cmd).
  - right. eauto.
  - left. by injection Hsite as _ <-.
Qed.

Lemma callTool_escaping_errors_witness :
  let st := mkSession VNull [] in
  let params := Some [("siteId", VObj [("toString", VNum (Fin (inject_Z 1)))])] in
  callTool 5 (test_config false) home_client "info" params st
  = Some (Throw TypeError, st)
  ∧ ((∃ cmd rawSiteId,
         toolMap !! "info" = Some cmd
         ∧ CmdDef.needsSite cmd = true
         ∧ resolveSiteId 5 COMMANDS home_client rawSiteId st
           = Some (Throw TypeError, st))
     ∨ (TypeError = TypeError
        ∧ (∃ k, js_ToString (param params k) = Some (Throw TypeError))
        ∧ (st = st
           ∨ ∃ rawSiteId v,
               resolveSiteId 5 COMMANDS home_client rawSiteId st
               = Some (Ok v, st)))).
Proof.
  intros st params.
  assert (Hrun : callTool 5 (test_config false) home_client "info" params st
                 = Some (Throw TypeError, st))
    by (vm_compute; reflexivity).
  split; [exact Hrun|].
  exact (callTool_escaping_errors 5 (test_config false) home_client "info" params
           st TypeError st Hrun).
Defined.

(** An argument that cannot be converted after the site was resolved: the
    error leaves the handler when the requests of the resolution are sent. *)
Example callTool_error_after_resolution :
  let st := mkSession VNull [] in
  let params := Some [("offset", VObj [("toString", VNull)])] in
  ∃ st', callTool 5 (test_config false) home_client "devices_list" params st
         = Some (Throw TypeError, st')
         ∧ requests st' = [first_request cmd_getSiteOverviewPage no_params 200]
         ∧ truthy (resolvedDefaultSiteId st') = true.
Proof. intros st params. eexists. vm_compute. split; [reflexivity|]. split; reflexivity. Qed.

Lemma toolName_NoDup : NoDup (map toolName COMMANDS).
Proof. apply (bool_decide_eq_true_1 _). by vm_compute. Qed.

Lemma fold_insert_lookup (l : list CmdDef.t) (m : gmap string CmdDef.t) name cmd :
  NoDup (map toolName l) →
  (∀ c, c ∈ l → m !! toolName c = None) →
  fold_left (λ m c, <[toolName c := c]> m) l m !! name = Some cmd
  ↔ m !! name = Some cmd ∨ (cmd ∈ l ∧ toolName cmd = name).
Proof.
  revert m. induction l as [|c l IH]; intros m Hnodup Hfresh; cbn [fold_left].
  { split; [by left|]. intros [?|[Hin _]]; [done|]. by apply elem_of_nil in Hin. }
  cbn [map] in Hnodup. apply NoDup_cons in Hnodup as [Hc Hnodup].
  rewrite IH; [|done|].
  2:{ intros c' Hin. rewrite lookup_insert_ne.
      - apply Hfresh. by apply list_elem_of_further.
      - intros Heq. apply Hc. rewrite Heq. apply list_elem_of_In, in_map.
        by apply list_elem_of_In. }
  rewrite elem_of_cons. destruct (decide (toolName c = name)) as [<-|Hne].
  - rewrite lookup_insert_eq. rewrite (Hfresh c (list_elem_of_here _ _)). split.
    + intros [[= <-]|[Hin Heq]]; right; split; auto.
    + intros [?|[[->|Hin] Heq]]; [done|by left|]. right. done.
  - rewrite lookup_insert_ne by done. split.
    + intros [?|[Hin Heq]]; [by left|right; split; auto].
    + intros [?|[[->|Hin] Heq]]; [by left|done|right; done].
Qed.

Lemma toolMap_lookup name cmd :
  toolMap !! name = Some cmd ↔ cmd ∈ COMMANDS ∧ toolName cmd = name.
Proof.
  unfold toolMap. rewrite fold_insert_lookup; [|apply toolName_NoDup|done].
  rewrite lookup_empty. split; [by intros [?|?]|by right].
Qed.

(** X9: every command of the catalog is the tool of its own name, and the
    tools are the commands of the catalog: no two commands share a tool
    name, so no command is shadowed in [toolMap]. *)
Theorem toolMap_holds_the_catalog :
  NoDup (map toolName COMMANDS)
  ∧ ∀ name cmd,
      toolMap !! name = Some cmd ↔ cmd ∈ COMMANDS ∧ toolName cmd = name.
Proof. split; [apply toolName_NoDup|apply toolMap_lookup]. Qed.

Lemma listed_tools_elem config name :
  name ∈ listed_tools config
  ↔ ∃ cmd, toolMap !! name = Some cmd
           ∧ (Config.readOnly config = true →
              CmdDef.method cmd ∈ READ_ONLY_METHODS).
Proof.
  unfold listed_tools. rewrite list_elem_of_In, in_map_iff. split.
  - intros (cmd & <- & Hin). apply list_elem_of_In in Hin. exists cmd.
    destruct (Config.readOnly config).
    + apply list_elem_of_filter in Hin as [Hm Hin].
      split; [by apply toolMap_lookup|done].
    + split; [by apply toolMap_lookup|done].
  - intros (cmd & [Hin <-]%toolMap_lookup & Hm). exists cmd. split; [done|].
    apply list_elem_of_In. destruct (Config.readOnly config); [|done].
    apply list_elem_of_filter. auto.
Qed.

(** X19: in a configured server, the calls that are refused are exactly
    those of the tools that [ListTools] does not offer.  A refused call
    leaves the session as it was: no request is sent. *)
Theorem callTool_refuses_what_is_not_listed fuel config client name params st :
  configured config = true →
  (name ∉ listed_tools config →
   ∃ error hint,
     callTool fuel config client name params st
     = Some (Ok (ToolRefused error hint), st))
  ∧ (name ∈ listed_tools config →
     ∀ error hint st',
       callTool fuel config client name params st
       ≠ Some (Ok (ToolRefused error hint), st')).
Proof.
  intros Hconf. rewrite listed_tools_elem. split.
  - intros Hno. unfold callTool.
    destruct (toolMap !! name) as [cmd|]; [|do 2 eexists; reflexivity].
    destruct (Config.readOnly config) eqn:Hro; cbn [andb].
    + destruct (bool_decide (CmdDef.method cmd ∈ READ_ONLY_METHODS)) eqn:Hm;
        cbn [negb]; [|do 2 eexists; reflexivity].
      destruct Hno. exists cmd. apply bool_decide_eq_true in Hm.
      split; [reflexivity|]. intros _. exact Hm.
    + destruct Hno. exists cmd. split; [reflexivity|]. intros Habs.
      discriminate Habs.
  - intros (cmd & Htool & Hallowed) error hint st' Hrun.
    apply callTool_cases in Hrun
      as [(_ & _ & [Hnone|[(cmd' & Htool' & Hro & Hm)|Hno]])
         |(cmd' & _ & _ & _ & Hways)].
    + rewrite Htool in Hnone. discriminate Hnone.
    + rewrite Htool in Htool'. injection Htool' as <-. apply Hm, Hallowed, Hro.
    + rewrite Hconf in Hno. discriminate Hno.
    + destruct Hways as [(_ & e & Hr & _)|(pathArgs & extraQuery & rawSiteId & _ & Hrest)];
        [discriminate Hr|].
      destruct Hrest as [(e & _ & Hr)|(v & st1 & _ & Hrest)]; [discriminate Hr|].
      destruct Hrest as [(e & _ & Hr & _)|(auto & rest & res & log' & _ & Hr & _)];
        [discriminate Hr|].
      destruct res; discriminate Hr.
Qed.

Lemma callTool_refuses_what_is_not_listed_witness :
  let st := mkSession VNull [] in
  configured (test_config true) = true
  ∧ ("devices_remove" ∉ listed_tools (test_config true) →
     ∃ error hint,
       callTool 5 (test_config true) home_client "devices_remove"
         (Some [("deviceId", VStr "d1")]) st
       = Some (Ok (ToolRefused error hint), st))
  ∧ ("devices_remove" ∈ listed_tools (test_config true) →
     ∀ error hint st',
       callTool 5 (test_config true) home_client "devices_remove"
         (Some [("deviceId", VStr "d1")]) st
       ≠ Some (Ok (ToolRefused error hint), st')).
Proof.
  intros st. split; [reflexivity|].
  exact (callTool_refuses_what_is_not_listed 5 (test_config true) home_client
           "devices_remove" (Some [("deviceId", VStr "d1")]) st eq_refl).
Defined.

(** X20: a site id that the server has resolved stays: once the cache holds
    a truthy value, no call changes it, whatever site the call names. *)
Theorem callTool_keeps_resolved_site fuel config client name params st r st' :
  truthy (resolvedDefaultSiteId st) = true →
  callTool fuel config client name params st = Some (r, st') →
  resolvedDefaultSiteId st' = resolvedDefaultSiteId st.
Proof.
  intros Hcache.
  assert (∀ cmd rawSiteId res1 st1,
            (if CmdDef.needsSite cmd
             then resolveSiteId fuel COMMANDS client rawSiteId st
             else Some (Ok (VStr rawSiteId), st)) = Some (res1, st1) →
            st1 = st) as Hsite.
  { intros cmd rawSiteId res1 st1. destruct (CmdDef.needsSite cmd).
    - by apply resolveSiteId_cache_kept.
    - by intros [= <- <-]. }
  intros [(-> & _)|(cmd & _ & _ & _ & Hways)]%callTool_cases; [reflexivity|].
  destruct Hways as [(-> & _)|(pathArgs & extraQuery & rawSiteId & _ & Hrest)];
    [reflexivity|].
  destruct Hrest as [(e & ->%Hsite & _)|(v & st1 & ->%Hsite & Hrest)]; [reflexivity|].
  destruct Hrest as [(e & _ & _ & ->)|(auto & rest & res & log' & _ & _ & ->)];
    reflexivity.
Qed.

Lemma callTool_keeps_resolved_site_witness :
  let st := mkSession (VStr home_site) [] in
  ∃ r st',
    callTool 5 (test_config false) (mockClient [page [1; 2] 2]) "devices_list"
      (Some [("siteId", VStr "branch")]) st = Some (r, st')
    ∧ resolvedDefaultSiteId st' = resolvedDefaultSiteId st.
Proof.
  intros st.
  destruct (callTool 5 (test_config false) (mockClient [page [1; 2] 2])
              "devices_list" (Some [("siteId", VStr "branch")]) st)
    as [[r st']|] eqn:Hrun.
  - exists r, st'. split; [reflexivity|].
    exact (callTool_keeps_resolved_site 5 (test_config false)
             (mockClient [page [1; 2] 2]) "devices_list"
             (Some [("siteId", VStr "branch")]) st r st' eq_refl Hrun).
  - vm_compute in Hrun. discriminate Hrun.
Defined.

Lemma findCmd_info : findCmd COMMANDS "getInfo" = Some cmd_getInfo.
Proof. reflexivity. Qed.

Lemma findCmd_resource resource :
  ∃ cmd, findCmd COMMANDS (operationMap resource) = Some cmd
         ∧ CmdDef.method cmd = "GET".
Proof.
  unfold operationMap.
  destruct (String.eqb resource "devices");
    [eexists; split; [vm_compute; reflexivity|reflexivity]|].
  destruct (String.eqb resource "networks");
    eexists; (split; [vm_compute; reflexivity|reflexivity]).
Qed.

(** X21: reading a resource sends requests of the method [GET] only, for
    every URI, in every configuration and whatever the controller answers;
    the requests of a read are added after the earlier ones. *)
Theorem readResource_sends_reads fuel config client document uri st r st' :
  readResource fuel config client document uri st = Some (r, st') →
  ∃ reqs,
    requests st' = requests st ++ reqs
    ∧ Forall (λ req, RequestOptions.method req = "GET") reqs.
Proof.
  assert (∃ reqs, requests st = requests st ++ reqs
            ∧ Forall (λ req, RequestOptions.method req = "GET") reqs)
    as Hsame.
  { exists []. rewrite app_nil_r. split; [reflexivity|constructor]. }
  unfold readResource. destruct (negb (configured config)); [by intros [= <- <-]|].
  destruct (String.eqb uri "unifi://info").
  { rewrite findCmd_info.
    intros [= <- <-]. cbn [requests]. unfold executeCommand. cbn [snd].
    eexists. split; [done|]. constructor; [reflexivity|constructor]. }
  destruct (String.eqb uri "unifi://sites").
  { rewrite findCmd_sites.
    destruct (executeAllPages _ _ _ _ _ _) as [[res log']|] eqn:Hrun; [|done].
    cbn [mbind option_bind fst snd]. intros [= <- <-].
    apply executeAllPages_methods in Hrun as (reqs & -> & Hreqs).
    exists reqs. split; [reflexivity|exact Hreqs]. }
  destruct (String.eqb uri "unifi://spec").
  { by destruct document; intros [= <- <-]. }
  destruct (match_site_resource uri) as [[rawSiteId resource]|];
    [|by intros [= <- <-]].
  destruct (resolveSiteId _ _ _ _ _) as [[resolved st1]|] eqn:Hsite; [|done].
  cbn [mbind option_bind].
  apply resolveSiteId_requests in Hsite as (reqs1 & Hlog1 & Hreqs1).
  destruct resolved as [v|e]; [|intros [= <- <-]; eauto].
  destruct (findCmd_resource resource) as (cmd & -> & Hget).
  destruct (execute_for_site _ _ _ _ _ _ _) as [[res log']|] eqn:Hrun; [|done].
  cbn [mbind option_bind fst snd]. intros [= <- <-].
  apply execute_for_site_methods in Hrun as (reqs2 & -> & Hreqs2).
  exists (reqs1 ++ reqs2). cbn [requests]. rewrite Hlog1, <- app_assoc.
  split; [reflexivity|]. apply Forall_app. split; [exact Hreqs1|].
  rewrite Hget in Hreqs2. exact Hreqs2.
Qed.

Lemma readResource_sends_reads_witness :
  let st := mkSession VNull [] in
  ∃ r st',
    readResource 5 (test_config true) home_client None
      "unifi://sites/default/devices" st = Some (r, st')
    ∧ ∃ reqs,
        requests st' = requests st ++ reqs
        ∧ Forall (λ req, RequestOptions.method req = "GET") reqs.
Proof.
  intros st.
  destruct (readResource 5 (test_config true) home_client None
              "unifi://sites/default/devices" st) as [[r st']|] eqn:Hrun.
  - exists r, st'. split; [reflexivity|].
    exact (readResource_sends_reads 5 (test_config true) home_client None
             "unifi://sites/default/devices" st r st' Hrun).
  - vm_compute in Hrun. discriminate Hrun.
Defined.
